(** * RECIPE / PINT path decoding: a shallow embedding of the decode engine

    The development follows the Python sources of the repository:
    - [decoding.py]         (checksum hash, signed-subtraction policy,
                             decode-mode path simulation, GF(2) solver),
    - [decoding_murmur.py]  (avalanche-mix hash, plain threshold policy,
                             generation-mode path simulation, GF(2) solver),
    - [sim_murmur.py]       (the simulation without identifiers),
    - [table_generation.py] (the table of hash values),
    - [tofino/controller.py] (the probability tables of the switch).

    Python integers are unbounded, so they are modelled by [Z]; the 32-bit
    wrap-around of the sources is written out with [Z.land _ 0xFFFFFFFF].
    Python sets of hop indices are [gset Z]; Python lists are [list] with
    stdpp's lookup and insert. *)

From Stdlib Require Import ZArith Lia Bool List Ascii String QArith Qround.
From Stdlib Require Import SpecFloat.
From stdpp Require Import base decidable option list gmap sets sorting strings.

Local Open Scope Z_scope.

(** ** Python list helpers *)

(** [l[i]] for a Python list: a negative index counts from the end, and an
    index outside [-len, len) raises [IndexError] (here [None]). *)
Definition py_getitem {T : Type} (l : list T) (i : Z) : option T :=
  if 0 <=? i then l !! Z.to_nat i
  else if - Z.of_nat (length l) <=? i then l !! Z.to_nat (Z.of_nat (length l) + i)
  else None.

(** ** The packet equation shared by both decoders *)

Record PacketEquation := mkEq {
  pktid : Z;
  final_pint : Z;
  xor_set : gset Z            (* hop indices included in XOR *)
}.

Global Instance PacketEquation_inhabited : Inhabited PacketEquation :=
  populate (mkEq 0 0 ∅).

(** ** LT-style decoding: [solve_switch_ids]

    The function is textually the same in [decoding.py] (lines 268-347) and
    [decoding_murmur.py] (lines 115-193). [num_hops] and [id_bits] are taken
    as naturals: a negative Python value behaves like 0 at each of their uses
    ([range], [[0] * k] and [0 <= i < k]). *)
Module Solver.

(** [(a >> col) & 1] *)
Definition bit_at (a : Z) (col : nat) : Z :=
  Z.land (Z.shiftr a (Z.of_nat col)) 1.

(** the truth value of [(a >> col) & 1] *)
Definition bit_set (a : Z) (col : nat) : bool :=
  negb (bit_at a col =? 0).

(** [for i in eq.xor_set: if 0 <= i < k: mask |= (1 << i)] *)
Definition row_mask (k : nat) (s : gset Z) : Z :=
  set_fold (fun i mask =>
              if decide (0 <= i < Z.of_nat k) then Z.lor mask (Z.shiftl 1 i)
              else mask) 0 s.

Definition build_masks (k : nat) (eqs : list PacketEquation) : list Z :=
  (fun eq => row_mask k (xor_set eq)) <$> eqs.

(** [y = [(eq.final_pint >> bit) & 1 for eq in eqs]] *)
Definition rhs_bits (bit : nat) (eqs : list PacketEquation) : list Z :=
  (fun eq => bit_at (final_pint eq) bit) <$> eqs.

(** the loop variables of the elimination *)
Record elim_state := mkSt {
  A : list Z;
  y : list Z;
  pivot_row_for_col : list Z;
  row : nat
}.

(** [for r in range(row, m): if (A[r] >> col) & 1: pivot = r; break] *)
Definition find_pivot (A : list Z) (col row : nat) : option nat :=
  (fun p => (row + fst p)%nat) <$>
    list_find (fun a => bit_set a col = true) (drop row A).

(** [l[i], l[j] = l[j], l[i]] : the right-hand side is read first, then
    [l[i]] and [l[j]] are assigned in this order. *)
Definition swap (l : list Z) (i j : nat) : list Z :=
  <[j := l !!! i]> (<[i := l !!! j]> l).

(** one iteration of [for r in range(m)] of the elimination *)
Definition elim_row (col row r : nat) (Ay : list Z * list Z)
  : list Z * list Z :=
  let '(A, y) := Ay in
  if bool_decide (r ≠ row) && bit_set (A !!! r) col
  then (<[r := Z.lxor (A !!! r) (A !!! row)]> A,
        <[r := Z.lxor (y !!! r) (y !!! row)]> y)
  else (A, y).

Definition eliminate (col row m : nat) (Ay : list Z * list Z)
  : list Z * list Z :=
  foldl (fun acc r => elim_row col row r acc) Ay (seq 0 m).

(** the body of [for col in range(k)], with its [continue] and [break] *)
Fixpoint gauss_cols (m : nat) (cols : list nat) (st : elim_state)
  : elim_state :=
  match cols with
  | [] => st
  | col :: rest =>
      match find_pivot (A st) col (row st) with
      | None => gauss_cols m rest st
      | Some pivot =>
          let A1 := swap (A st) (row st) pivot in
          let y1 := swap (y st) (row st) pivot in
          let piv := <[col := Z.of_nat (row st)]> (pivot_row_for_col st) in
          let '(A2, y2) := eliminate col (row st) m (A1, y1) in
          let st' := mkSt A2 y2 piv (S (row st)) in
          if decide (S (row st) = m) then st' else gauss_cols m rest st'
      end
  end.

Definition gauss (masks : list Z) (eqs : list PacketEquation)
           (k bit : nat) : elim_state :=
  gauss_cols (length eqs) (seq 0 k)
             (mkSt masks (rhs_bits bit eqs) (replicate k (-1)) 0).

(** [for r in range(m): if A[r] == 0 and y[r] == 1: ... return None] *)
Definition inconsistent (m : nat) (st : elim_state) : bool :=
  existsb (fun r => (A st !!! r =? 0) && (y st !!! r =? 1)) (seq 0 m).

(** back-substitution: [x_bits[col] = y[r] & 1] for a pivot column *)
Definition back_subst (k : nat) (st : elim_state) : list Z :=
  foldl (fun x_bits col =>
           let r := pivot_row_for_col st !!! col in
           if negb (r =? -1)
           then <[col := Z.land (y st !!! Z.to_nat r) 1]> x_bits
           else x_bits)
        (replicate k 0) (seq 0 k).

(** [for i in range(k): if x_bits[i]: switch_ids[i] |= (1 << bit)] *)
Definition accumulate (k bit : nat) (x_bits switch_ids : list Z) : list Z :=
  foldl (fun ids i =>
           if negb (x_bits !!! i =? 0)
           then <[i := Z.lor (ids !!! i) (Z.shiftl 1 (Z.of_nat bit))]> ids
           else ids)
        switch_ids (seq 0 k).

(** What a call produces: the returned list, or [None] together with the
    warning printed for an inconsistent bit-plane, or [None] without a
    message when there is no equation. *)
Inductive solve_result :=
| NoEquations
| Inconsistent (bit : nat)
| Solved (switch_ids : list Z).

(** [for bit in range(id_bits)] *)
Fixpoint solve_bits (masks : list Z) (eqs : list PacketEquation) (k : nat)
         (bits : list nat) (switch_ids : list Z) : solve_result :=
  match bits with
  | [] => Solved switch_ids
  | bit :: rest =>
      let st := gauss masks eqs k bit in
      if inconsistent (length eqs) st then Inconsistent bit
      else solve_bits masks eqs k rest
                      (accumulate k bit (back_subst k st) switch_ids)
  end.

Definition solve_switch_ids_report (eqs : list PacketEquation)
           (num_hops id_bits : nat) : solve_result :=
  let m := length eqs in
  let k := num_hops in
  if decide (m = 0%nat) then NoEquations
  else solve_bits (build_masks k eqs) eqs k (seq 0 id_bits)
                  (replicate k 0).

(** the value returned to the caller *)
Definition solve_switch_ids (eqs : list PacketEquation)
           (num_hops id_bits : nat) : option (list Z) :=
  match solve_switch_ids_report eqs num_hops id_bits with
  | Solved ids => Some ids
  | _ => None
  end.

End Solver.

(** ** Loading the APA: [load_apa]

    The loader is textually the same in [decoding.py] (lines 66-104) and
    [decoding_murmur.py] (lines 56-97) up to the names of the two arrays.
    A Python [float] is an IEEE-754 binary64 number, here a [spec_float]
    with precision 53 and maximal exponent 1024. The text-to-float conversion
    [float(s)] belongs to the Python runtime and is an argument of the
    loader; [None] stands for its [ValueError]. A file is the list of its
    lines; characters are code points below 256. *)
Module Loader.

Definition prec : Z := 53.
Definition emax : Z := 1024.

(** the float [4294967296.0], to which [2**32] is converted *)
Definition two32 : spec_float := S754_finite false (2 ^ 52)%positive (-20).

(** [int(x)]: truncation toward zero; [OverflowError] on an infinity and
    [ValueError] on a NaN (here [None]). *)
Definition int_of_float (x : spec_float) : option Z :=
  match x with
  | S754_zero _ => Some 0
  | S754_finite s m e =>
      Some (cond_Zopp s (if 0 <=? e then Z.pos m * 2 ^ e
                         else Z.pos m / 2 ^ (- e)))
  | S754_infinity _ | S754_nan => None
  end.

(** [int(p * (2**32)) & 0xFFFFFFFF] *)
Definition fixed32 (p : spec_float) : option Z :=
  n ← int_of_float (SFmul prec emax p two32);
  Some (Z.land n 0xFFFFFFFF).

(** [str.isspace] on one character *)
Definition is_space (c : ascii) : bool :=
  let n := nat_of_ascii c in
  ((9 <=? n) && (n <=? 13) || (28 <=? n) && (n <=? 32)
   || (n =? 133) || (n =? 160))%nat.

Fixpoint lstrip (s : list ascii) : list ascii :=
  match s with
  | c :: s' => if is_space c then lstrip s' else s
  | [] => []
  end.

(** [s.strip()] *)
Definition strip (s : string) : string :=
  string_of_list_ascii
    (rev (lstrip (rev (lstrip (list_ascii_of_string s))))).

(** [s.split(sep)] for a one-character separator *)
Fixpoint split (sep : ascii) (s : string) : list string :=
  match s with
  | EmptyString => [EmptyString]
  | String c s' =>
      if Ascii.eqb c sep then EmptyString :: split sep s'
      else match split sep s' with
           | w :: ws => String c w :: ws
           | [] => [String c EmptyString]
           end
  end.

(** the lines kept by the first loop: stripped and not blank *)
Definition nonblank_lines (file_lines : list string) : list string :=
  filter (fun line => line ≠ EmptyString) (map strip file_lines).

(** [[p.strip() for p in line.split(",") if p.strip() != ""]] *)
Definition parts_of (line : string) : list string :=
  map strip (filter (fun p => strip p ≠ EmptyString) (split "," line)).

(** [l[i] = v] for a Python list; [IndexError] is [None] *)
Definition py_setitem (l : list Z) (i v : Z) : option (list Z) :=
  if (0 <=? i) && (i <? Z.of_nat (length l))
  then Some (<[Z.to_nat i := v]> l)
  else if (i <? 0) && (- Z.of_nat (length l) <=? i)
       then Some (<[Z.to_nat (Z.of_nat (length l) + i) := v]> l)
       else None.

(** The [ValueError]s of the loader with the line index their message
    carries, and the exceptions raised by a conversion ([float], [int]) or
    an assignment, which carry none. *)
Inductive load_error :=
| OddColumns (hop_idx : nat) (ncols : nat)
| TooManyDegrees (hop_idx : nat) (num_degrees : nat) (max_degree : Z)
| ConversionError.

Definition error_line (e : load_error) : option nat :=
  match e with
  | OddColumns hop_idx _ => Some hop_idx
  | TooManyDegrees hop_idx _ _ => Some hop_idx
  | ConversionError => None
  end.

Section Load.

Variable float_of_string : string -> option spec_float.

(** one iteration of [for d in range(num_degrees)] *)
Definition fill_degree (parts : list string) (hop_idx : nat) (max_degree : Z)
           (d : nat) (arrs : list Z * list Z) : option (list Z * list Z) :=
  s_add ← parts !! (2 * d)%nat;
  p_add ← float_of_string s_add;
  s_cum ← parts !! (2 * d + 1)%nat;
  p_cum ← float_of_string s_cum;
  let idx := Z.of_nat hop_idx * max_degree + Z.of_nat d in
  v_add ← fixed32 p_add;
  probs_a ← py_setitem arrs.1 idx v_add;
  v_cum ← fixed32 p_cum;
  probs_cum ← py_setitem arrs.2 idx v_cum;
  Some (probs_a, probs_cum).

Fixpoint fill_degrees (parts : list string) (hop_idx : nat) (max_degree : Z)
         (ds : list nat) (arrs : list Z * list Z)
  : option (list Z * list Z) :=
  match ds with
  | [] => Some arrs
  | d :: rest =>
      arrs' ← fill_degree parts hop_idx max_degree d arrs;
      fill_degrees parts hop_idx max_degree rest arrs'
  end.

(** the body of [for hop_idx, line in enumerate(lines)] *)
Definition load_line (max_degree : Z) (hop_idx : nat) (line : string)
           (arrs : list Z * list Z) : load_error + (list Z * list Z) :=
  let parts := parts_of line in
  if negb (Z.of_nat (length parts) mod 2 =? 0)
  then inl (OddColumns hop_idx (length parts))
  else
    let num_degrees := (length parts / 2)%nat in
    if Z.of_nat num_degrees >? max_degree
    then inl (TooManyDegrees hop_idx num_degrees max_degree)
    else match fill_degrees parts hop_idx max_degree (seq 0 num_degrees) arrs
         with
         | Some arrs' => inr arrs'
         | None => inl ConversionError
         end.

Fixpoint load_lines (max_degree : Z) (hop_idx : nat) (lines : list string)
         (arrs : list Z * list Z) : load_error + (list Z * list Z) :=
  match lines with
  | [] => inr arrs
  | line :: rest =>
      match load_line max_degree hop_idx line arrs with
      | inl e => inl e
      | inr arrs' => load_lines max_degree (S hop_idx) rest arrs'
      end
  end.

(** [load_apa] up to the record it builds: [(max_hops, array, array)] *)
Definition load_arrays (file_lines : list string) (max_degree : Z)
  : load_error + (Z * list Z * list Z) :=
  let lines := nonblank_lines file_lines in
  let max_hops := Z.of_nat (length lines) in
  let zeros := replicate (Z.to_nat (max_hops * max_degree)) 0 in
  match load_lines max_degree 0 lines (zeros, zeros) with
  | inl e => inl e
  | inr (probs_a, probs_cum) => inr (max_hops, probs_a, probs_cum)
  end.

End Load.

End Loader.

(** ** Decision policies *)

Inductive action := ADD | REPLACE | SKIP.

Global Instance action_eq_dec : EqDecision action.
Proof. solve_decision. Defined.

(** What one hop of a path simulation does to the loop variables:
    [Break] is the [break] taken when the APA index is beyond the table. *)
Inductive hop_result (S : Type) :=
| Break
| Next (act : action) (s : S).
Arguments Break {S}.
Arguments Next {S} act s.

(** [for hopid in range(num_hops)]: [None] is an exception raised by the
    body, otherwise the loop variables on leaving the loop. *)
Fixpoint run_hops {S : Type} (step : nat -> S -> option (hop_result S))
         (hops : list nat) (s : S) : option S :=
  match hops with
  | [] => Some s
  | hopid :: rest =>
      match step hopid s with
      | None => None
      | Some Break => Some s
      | Some (Next _ s') => run_hops step rest s'
      end
  end.

(** ** [decoding.py]: checksum hash, signed-subtraction policy, decode mode *)
Module Decoding.

Definition MAX_DEGREE_DEFAULT : Z := 256.
Definition SRC_IP : list Z := [10; 0; 0; 1].      (* "10.0.0.1" *)
Definition DST_IP : list Z := [10; 0; 0; 2].      (* "10.0.0.2" *)
Definition IP_PROTO_RECIPE : Z := 146.

(** [struct.pack] of one unsigned big-endian field of [nbytes] bytes
    (formats [B], [H], [I] under [!]); a value out of range raises
    [struct.error] (here [None]). Bytes are integers in [0, 256). *)
Definition pack_be (nbytes : nat) (x : Z) : option (list Z) :=
  if (0 <=? x) && (x <? 2 ^ (8 * Z.of_nat nbytes))
  then Some (map (fun i => Z.land (Z.shiftr x (8 * Z.of_nat i)) 255)
                 (rev (seq 0 nbytes)))
  else None.

(** [struct.unpack("!I", bytes)[0]] *)
Definition unpack_be (bs : list Z) : Z :=
  foldl (fun acc b => acc * 256 + b) 0 bs.

(** [ipv4_to_u32], on the four integers of the dotted string *)
Definition ipv4_to_u32 (ip : list Z) : option Z :=
  match ip with
  | [a; b; c; d] =>
      ba ← pack_be 1 a; bb ← pack_be 1 b; bc ← pack_be 1 c; bd ← pack_be 1 d;
      Some (unpack_be (ba ++ bb ++ bc ++ bd))
  | _ => None
  end.

Definition SRC_IP_U32 : Z := 0x0A000001.
Definition DST_IP_U32 : Z := 0x0A000002.

(** [zlib.crc32]: the CRC-32 of IEEE 802.3 (reflected polynomial
    0xEDB88320, initial value and final XOR 0xFFFFFFFF), bit by bit. *)
Definition crc_shift (crc : Z) : Z :=
  if Z.odd crc then Z.lxor (Z.shiftr crc 1) 0xEDB88320 else Z.shiftr crc 1.

Definition crc_byte (crc b : Z) : Z :=
  Nat.iter 8 crc_shift (Z.lxor crc b).

Definition crc32 (data : list Z) : Z :=
  Z.lxor (foldl crc_byte 0xFFFFFFFF data) 0xFFFFFFFF.

(** [recipe_hash_v4]: [None] is the [struct.error] of [struct.pack]. *)
Definition recipe_hash_v4 (pktid hopid : Z) : option Z :=
  let proto := IP_PROTO_RECIPE in
  let identification := pktid in
  b_src ← pack_be 4 SRC_IP_U32;
  b_dst ← pack_be 4 DST_IP_U32;
  b_proto ← pack_be 1 proto;
  b_id ← pack_be 2 identification;
  b_hop ← pack_be 1 hopid;
  let data := b_src ++ b_dst ++ b_proto ++ b_id ++ b_hop in
  let crc := Z.land (crc32 data) 0xFFFFFFFF in
  Some crc.

Record APA := mkAPA {
  max_hops : Z;
  max_degree : Z;
  probs_a : list Z;      (* flattened: idx = hop * max_degree + degree *)
  probs_cum : list Z
}.

Definition load_apa (float_of_string : string -> option spec_float)
           (file_lines : list string) (max_degree : Z)
  : Loader.load_error + APA :=
  match Loader.load_arrays float_of_string file_lines max_degree with
  | inl e => inl e
  | inr (max_hops, probs_a, probs_cum) =>
      inr (mkAPA max_hops max_degree probs_a probs_cum)
  end.

Definition _sign_bit (x : Z) : Z := Z.land (Z.shiftr x 31) 1.

Definition _p4_add_decision (hash_id a_prob : Z) : bool :=
  let h := Z.land hash_id 0xFFFFFFFF in
  let a := Z.land a_prob 0xFFFFFFFF in
  let res := Z.land (h - a) 0xFFFFFFFF in
  let h_sign := _sign_bit h in
  let a_sign := _sign_bit a in
  let res_sign := _sign_bit res in
  let msb := if ((h_sign =? 0) && (a_sign =? 0))
                || ((h_sign =? 1) && (a_sign =? 1)) then 1 else 0 in
  let cond := ((h_sign =? 0) && (a_sign =? 1))
              || ((msb =? 1) && (res_sign =? 1)) in
  cond.

Definition _p4_replace_decision (hash_id cum_prob : Z) : bool :=
  let h := Z.land hash_id 0xFFFFFFFF in
  let c := Z.land cum_prob 0xFFFFFFFF in
  let res := Z.land (c - h) 0xFFFFFFFF in
  let h_sign := _sign_bit h in
  let c_sign := _sign_bit c in
  let msb_r := if ((c_sign =? 0) && (h_sign =? 0))
                  || ((c_sign =? 1) && (h_sign =? 1)) then 1 else 0 in
  let cond := ((h_sign =? 0) && (c_sign =? 0))
              || ((msb_r =? 1) && (c_sign =? 1)) in
  cond.

(** Policy B: the branch structure of the hop loop *)
Definition p4_action (hash_id a_prob cum_prob : Z) : action :=
  if _p4_add_decision hash_id a_prob then ADD
  else if _p4_replace_decision hash_id cum_prob then REPLACE
  else SKIP.

Record PacketLog := mkLog {
  log_pktid : Z;
  rows : list (Z * Z * Z * Z)     (* (hopid, ttl, pint, xor_degree) *)
}.

(** [self.rows[-1][2]]; [IndexError] on an empty list *)
Definition log_final_pint (plog : PacketLog) : option Z :=
  (fun r => r.1.2) <$> py_getitem (rows plog) (-1).

Record PacketEquationD := mkEqD {
  eqn : PacketEquation;
  simulated_degree : Z      (* final xor_degree from simulation *)
}.

(** the loop variables of one packet's simulation: [xor_degree] and the
    set [xor_set] (here [cur_xor_set], the field of the equation keeping
    the name) *)
Record loop_state := mkLoop {
  xor_degree : Z;
  cur_xor_set : gset Z
}.

Definition init_state : loop_state := mkLoop 0 ∅.

(** the body of [for hopid in range(num_hops)] in [reconstruct_xor_sets];
    [None] stands for an exception ([IndexError], [struct.error], or the
    [ZeroDivisionError] of [% max_degree]). *)
Definition hop (apa : APA) (max_degree pktid : Z) (hopid : nat)
           (s : loop_state) : option (hop_result loop_state) :=
  let idx := Z.of_nat hopid * max_degree + xor_degree s in
  if idx >=? Z.of_nat (length (probs_a apa)) then Some Break
  else
    a_prob ← py_getitem (probs_a apa) idx;
    cum_prob ← py_getitem (probs_cum apa) idx;
    hash_id ← recipe_hash_v4 pktid (Z.of_nat hopid);
    if _p4_add_decision hash_id a_prob then
      let xor_set' :=
        if decide (Z.of_nat hopid ∈ cur_xor_set s)
        then cur_xor_set s ∖ {[Z.of_nat hopid]}
        else cur_xor_set s ∪ {[Z.of_nat hopid]} in
      if max_degree =? 0 then None
      else Some (Next ADD (mkLoop ((xor_degree s + 1) mod max_degree)
                                  xor_set'))
    else if _p4_replace_decision hash_id cum_prob then
      Some (Next REPLACE (mkLoop 1 {[Z.of_nat hopid]}))
    else Some (Next SKIP s).

Definition reconstruct_packet (apa : APA) (num_hops : nat)
           (max_degree pktid : Z) : option loop_state :=
  run_hops (hop apa max_degree pktid) (seq 0 num_hops) init_state.

(** [sorted(logs.items())]: the keys of a dict are distinct, so the pairs
    are ordered by packet id. *)
Definition item_le (a b : Z * PacketLog) : Prop := a.1 <= b.1.

Global Instance item_le_dec : RelDecision item_le.
Proof. intros a b. unfold item_le. apply _. Defined.

Definition sorted_items (logs : gmap Z PacketLog) : list (Z * PacketLog) :=
  merge_sort item_le (map_to_list logs).

Definition reconstruct_xor_sets (logs : gmap Z PacketLog) (apa : APA)
           (num_hops : nat) (max_degree : Z)
  : option (list PacketEquationD) :=
  mapM (fun '(pktid, plog) =>
          s ← reconstruct_packet apa num_hops max_degree pktid;
          pint ← log_final_pint plog;
          Some (mkEqD (mkEq pktid pint (cur_xor_set s)) (xor_degree s)))
       (sorted_items logs).

End Decoding.

(** ** [decoding_murmur.py]: avalanche-mix hash, threshold policy,
       generation mode *)
Module Murmur.

Definition MAX_DEGREE_DEFAULT : Z := 32.

Definition mix32 (x : Z) : Z :=
  let x := Z.land x 0xFFFFFFFF in
  let x := Z.lxor x (Z.shiftr x 16) in
  let x := Z.land (x * 0x7FEB352D) 0xFFFFFFFF in
  let x := Z.lxor x (Z.shiftr x 15) in
  let x := Z.land (x * 0x846CA68B) 0xFFFFFFFF in
  let x := Z.lxor x (Z.shiftr x 16) in
  x.

Definition recipe_hash_v4 (pktid hopid : Z) : Z :=
  let pid := mix32 (Z.land pktid 0xFFFFFFFF) in
  let combined :=
    Z.land (Z.lxor (Z.lxor pid (Z.land (hopid * 0x9E3779B9) 0xFFFFFFFF))
                   0xA5A5A5A5) 0xFFFFFFFF in
  mix32 combined.

Record APA := mkAPA {
  max_hops : Z;
  max_degree : Z;
  add_thresh : list Z;       (* idx = hop * max_degree + degree *)
  replace_thresh : list Z
}.

Definition load_apa (float_of_string : string -> option spec_float)
           (file_lines : list string) (max_degree : Z)
  : Loader.load_error + APA :=
  match Loader.load_arrays float_of_string file_lines max_degree with
  | inl e => inl e
  | inr (max_hops, add_thresh, replace_thresh) =>
      inr (mkAPA max_hops max_degree add_thresh replace_thresh)
  end.

(** Policy A: the branch structure of the hop loop *)
Definition threshold_action (hash_id add_thr rep_thr : Z) : action :=
  if hash_id <? add_thr then ADD
  else if hash_id >? rep_thr then REPLACE
  else SKIP.

(** the loop variables of one packet's simulation: [xor_degree], the set
    [xor_set] (here [cur_xor_set]) and the accumulator [pint] *)
Record loop_state := mkLoop {
  xor_degree : Z;
  cur_xor_set : gset Z;
  pint : Z
}.

Definition init_state : loop_state := mkLoop 0 ∅ 0.

(** the body of [for hopid in range(num_hops)] in
    [simulate_xor_degree_distribution]; [None] stands for [IndexError]. *)
Definition hop (apa : APA) (max_degree : Z) (switch_id : list Z)
           (pktid : Z) (hopid : nat) (s : loop_state)
  : option (hop_result loop_state) :=
  let idx := Z.of_nat hopid * max_degree + xor_degree s in
  if idx >=? Z.of_nat (length (add_thresh apa)) then Some Break
  else
    add_thr ← py_getitem (add_thresh apa) idx;
    rep_thr ← py_getitem (replace_thresh apa) idx;
    let hash_id :=
      Z.land (recipe_hash_v4 pktid (Z.of_nat hopid)) 0xFFFFFFFF in
    match threshold_action hash_id add_thr rep_thr with
    | ADD =>
        id ← py_getitem switch_id (Z.of_nat hopid);
        Some (Next ADD (mkLoop (xor_degree s + 1)
                               (cur_xor_set s ∪ {[Z.of_nat hopid]})
                               (Z.lxor (pint s) id)))
    | REPLACE =>
        id ← py_getitem switch_id (Z.of_nat hopid);
        Some (Next REPLACE (mkLoop 1 {[Z.of_nat hopid]} id))
    | SKIP => Some (Next SKIP s)
    end.

Definition simulate_packet (apa : APA) (num_hops : nat) (max_degree : Z)
           (switch_id : list Z) (pktid : Z) : option loop_state :=
  run_hops (hop apa max_degree switch_id pktid) (seq 0 num_hops) init_state.

(** The equations built by the packet loop of
    [simulate_xor_degree_distribution] for an identifier vector
    [switch_id]; the draw of the vector that precedes the loop is in
    [Simulation] below. *)
Definition simulate_equations (num_packets : nat) (apa : APA)
           (num_hops : nat) (max_degree : Z) (switch_id : list Z)
  : option (list PacketEquation) :=
  mapM (fun pktid : nat =>
          s ← simulate_packet apa num_hops max_degree switch_id
                              (Z.of_nat pktid);
          Some (mkEq (Z.of_nat pktid) (pint s) (cur_xor_set s)))
       (seq 0 num_packets).

End Murmur.

(** ** [decoding_murmur.py]: the degree histogram of the simulation *)
Module Distribution.

(** [xor_dist[final_degree] += 1] on a [defaultdict(int)] *)
Definition count_degree (xor_dist : gmap Z Z) (final_degree : Z) : gmap Z Z :=
  <[final_degree := default 0 (xor_dist !! final_degree) + 1]> xor_dist.

(** [simulate_xor_degree_distribution] with the histogram [xor_dist] it
    returns beside the equations: the body of [for pktid in
    range(num_packets)] threads both. *)
Definition simulate_xor_degree_distribution (num_packets : nat)
           (apa : Murmur.APA) (num_hops : nat) (max_degree : Z)
           (switch_id : list Z)
  : option (gmap Z Z * list PacketEquation) :=
  foldl (fun acc (pktid : nat) =>
           '(xor_dist, equations) ← acc;
           s ← Murmur.simulate_packet apa num_hops max_degree switch_id
                                      (Z.of_nat pktid);
           let final_degree := Z.of_nat (size (Murmur.cur_xor_set s)) in
           Some (count_degree xor_dist final_degree,
                 equations ++ [mkEq (Z.of_nat pktid) (Murmur.pint s)
                                    (Murmur.cur_xor_set s)]))
        (Some (∅, [])) (seq 0 num_packets).

(** [total = sum(xor_dist.values())] *)
Definition total (xor_dist : gmap Z Z) : Z :=
  map_fold (fun _ count acc => acc + count) 0 xor_dist.

End Distribution.

(** ** [decoding_murmur.py]: the whole of [simulate_xor_degree_distribution] *)
Module Simulation.

Section Rng.

(** The generator [random.Random] belongs to the Python runtime: its state
    after [random.Random(0xC0FFEE)] and its method [getrandbits] are
    arguments. A draw returns the value and the next state; [None] stands
    for the exception a draw raises ([ValueError] on a negative number of
    bits). *)
Context {rng_state : Type}.
Variable seeded : rng_state.
Variable getrandbits : Z -> rng_state -> option (Z * rng_state).

(** [[rng.getrandbits(id_bits) for _ in range(num_hops)]] *)
Fixpoint draw (id_bits : Z) (n : nat) (rng : rng_state) : option (list Z) :=
  match n with
  | O => Some []
  | S n' =>
      '(v, rng') ← getrandbits id_bits rng;
      rest ← draw id_bits n' rng';
      Some (v :: rest)
  end.

(** [simulate_xor_degree_distribution(num_packets, apa, num_hops,
    max_degree, id_bits)]: the identifiers are drawn first, then the
    packets are simulated; the result is the triple [(xor_dist, equations,
    switch_id)]. What the function prints (integers and fractions, whose
    formatting raises nothing) is not modelled. *)
Definition simulate_xor_degree_distribution (num_packets : Z)
           (apa : Murmur.APA) (num_hops max_degree id_bits : Z)
  : option (gmap Z Z * list PacketEquation * list Z) :=
  switch_id ← draw id_bits (Z.to_nat num_hops) seeded;
  '(xor_dist, equations) ←
    Distribution.simulate_xor_degree_distribution
      (Z.to_nat num_packets) apa (Z.to_nat num_hops) max_degree switch_id;
  Some (xor_dist, equations, switch_id).

End Rng.

End Simulation.

(** ** [sim_murmur.py]: the simulation without identifiers

    The hash, the APA and its loader are textually those of
    [decoding_murmur.py]; the simulation keeps no accumulator and returns
    nothing: the histogram is what it prints. *)
Module SimMurmur.

Record loop_state := mkLoop {
  xor_degree : Z;
  cur_xor_set : gset Z
}.

Definition init_state : loop_state := mkLoop 0 ∅.

(** the body of [for hopid in range(num_hops)] *)
Definition hop (apa : Murmur.APA) (max_degree pktid : Z) (hopid : nat)
           (s : loop_state) : option (hop_result loop_state) :=
  let idx := Z.of_nat hopid * max_degree + xor_degree s in
  if idx >=? Z.of_nat (length (Murmur.add_thresh apa)) then Some Break
  else
    add_thr ← py_getitem (Murmur.add_thresh apa) idx;
    rep_thr ← py_getitem (Murmur.replace_thresh apa) idx;
    let hash_id :=
      Z.land (Murmur.recipe_hash_v4 pktid (Z.of_nat hopid)) 0xFFFFFFFF in
    match Murmur.threshold_action hash_id add_thr rep_thr with
    | ADD =>
        Some (Next ADD (mkLoop (xor_degree s + 1)
                               (cur_xor_set s ∪ {[Z.of_nat hopid]})))
    | REPLACE => Some (Next REPLACE (mkLoop 1 {[Z.of_nat hopid]}))
    | SKIP => Some (Next SKIP s)
    end.

Definition simulate_packet (apa : Murmur.APA) (num_hops : nat)
           (max_degree pktid : Z) : option loop_state :=
  run_hops (hop apa max_degree pktid) (seq 0 num_hops) init_state.

(** the histogram printed by [simulate_xor_degree_distribution] *)
Definition simulate_xor_degree_distribution (num_packets : nat)
           (apa : Murmur.APA) (num_hops : nat) (max_degree : Z)
  : option (gmap Z Z) :=
  foldl (fun acc (pktid : nat) =>
           xor_dist ← acc;
           s ← simulate_packet apa num_hops max_degree (Z.of_nat pktid);
           let final_degree := Z.of_nat (size (cur_xor_set s)) in
           Some (Distribution.count_degree xor_dist final_degree))
        (Some ∅) (seq 0 num_packets).

End SimMurmur.

(** ** [table_generation.py]: the table of hash values

    The hash of this file is textually the one of [decoding_murmur.py]. *)
Module TableGeneration.

(** [[recipe_hash_v4(pktid, hopid) & 0xFFFFFFFF
      for hopid in range(0, 255 + 1)]] *)
Definition row (pktid : Z) : list Z :=
  (fun hopid : nat =>
     Z.land (Murmur.recipe_hash_v4 pktid (Z.of_nat hopid)) 0xFFFFFFFF)
    <$> seq 0 (255 + 1).

(** the rows written by [main], one for each [pktid in range(1, 2000 + 1)] *)
Definition rows : list (list Z) :=
  (fun pktid : nat => row (Z.of_nat pktid)) <$> seq 1 2000.

End TableGeneration.

(** ** [tofino/controller.py]: the tables written to the switch

    [parse_monitored] is textually the same in
    [tofino_fixed_hash/controller.py]. A file is the list of its lines and
    [float] an argument, as for [load_apa]. The comparison of each stored
    value with its field only prints a warning; it converts the field a
    second time and the stored integer, which is finite, back to a float,
    and raises nothing that the first conversion has not raised. *)
Module Controller.

Definition MAX_HOPS : Z := 256.
Definition MAX_DEGREE : Z := 256.

(** [int(x * pow(2,32))], with no mask *)
Definition scaled (p : spec_float) : option Z :=
  Loader.int_of_float (SFmul Loader.prec Loader.emax p Loader.two32).

Section Parse.

Variable float_of_string : string -> option spec_float.

(** one iteration of [for degree in range(len(line)//2)] *)
Definition fill_degree (line : list string) (hop degree : nat)
           (arrs : list Z * list Z) : option (list Z * list Z) :=
  let idx := Z.of_nat hop * MAX_DEGREE + Z.of_nat degree in
  s_a ← line !! (degree * 2)%nat;
  p_a ← float_of_string s_a;
  v_a ← scaled p_a;
  probs_a ← Loader.py_setitem arrs.1 idx v_a;
  s_cum ← line !! (degree * 2 + 1)%nat;
  p_cum ← float_of_string s_cum;
  v_cum ← scaled p_cum;
  probs_cum ← Loader.py_setitem arrs.2 idx v_cum;
  Some (probs_a, probs_cum).

Fixpoint fill_degrees (line : list string) (hop : nat) (degrees : list nat)
         (arrs : list Z * list Z) : option (list Z * list Z) :=
  match degrees with
  | [] => Some arrs
  | degree :: rest =>
      arrs' ← fill_degree line hop degree arrs;
      fill_degrees line hop rest arrs'
  end.

(** the body of [for line in f], and the loop with its counter [hop] *)
Fixpoint parse_lines (hop : nat) (lines : list string)
         (arrs : list Z * list Z) : option (list Z * list Z) :=
  match lines with
  | [] => Some arrs
  | line :: rest =>
      let line := Loader.split "," (Loader.strip line) in
      arrs' ← fill_degrees line hop (seq 0 (length line / 2)) arrs;
      parse_lines (S hop) rest arrs'
  end.

(** [parse_monitored]: [(probs_a, probs_cum)], or [None] for an exception
    ([ValueError], [OverflowError] or [IndexError]) *)
Definition parse_monitored (num_hops : Z) (file_lines : list string)
  : option (list Z * list Z) :=
  let zeros := replicate (Z.to_nat (num_hops * MAX_DEGREE)) 0 in
  parse_lines 0 file_lines (zeros, zeros).

End Parse.

End Controller.

(** * Notions used to state the properties *)

(** a 0/1 value, as the right-hand sides of the bit-plane systems are *)
Definition is_bit (b : Z) : Prop := b = 0 \/ b = 1.

Section Systems.

Import Solver.

(** the row that the elimination leaves at index [r] *)
Definition elim_target (col row : nat) (A0 l0 : list Z) (r : nat) : Z :=
  if bool_decide (r ≠ row) && Z.testbit (A0 !!! r) (Z.of_nat col)
  then Z.lxor (l0 !!! r) (l0 !!! row) else l0 !!! r.

(** the GF(2) product of the row mask [a] with the unknowns [x] *)
Fixpoint dotb (k : nat) (a : Z) (x : nat -> bool) : bool :=
  match k with
  | O => false
  | S k' => xorb (dotb k' a x) (Z.testbit a (Z.of_nat k') && x k')
  end.

(** [x] solves the rows [0 .. m-1] of the system [(A, y)] *)
Definition sat (k m : nat) (x : nat -> bool) (A y : list Z) : Prop :=
  forall r, (r < m)%nat -> dotb k (A !!! r) x = Z.odd (y !!! r).

(** the permutation of rows made by the swap of [row] and [p] *)
Definition swapped (row p r : nat) : nat :=
  if decide (r = p) then row else if decide (r = row) then p else r.

(** [c] columns have been visited; [(A0, y0)] is the system at loop entry *)
Record inv (k m : nat) (A0 y0 : list Z) (c : nat) (st : elim_state) : Prop := {
  inv_lenA : length (A st) = m;
  inv_leny : length (y st) = m;
  inv_lenp : length (pivot_row_for_col st) = k;
  inv_row : (row st <= m)%nat;
  inv_piv_range : forall col, (col < k)%nat ->
    pivot_row_for_col st !!! col = -1 \/
    exists p, pivot_row_for_col st !!! col = Z.of_nat p /\
              (p < row st)%nat /\ (col < c)%nat;
  inv_piv_bit : forall col p, (col < k)%nat ->
    pivot_row_for_col st !!! col = Z.of_nat p ->
    Z.testbit (A st !!! p) (Z.of_nat col) = true /\
    forall r, (r < m)%nat -> r ≠ p ->
              Z.testbit (A st !!! r) (Z.of_nat col) = false;
  inv_piv_inj : forall c1 c2 p, (c1 < k)%nat -> (c2 < k)%nat ->
    pivot_row_for_col st !!! c1 = Z.of_nat p ->
    pivot_row_for_col st !!! c2 = Z.of_nat p -> c1 = c2;
  inv_rows_pivot : forall r, (r < row st)%nat ->
    exists col, (col < k)%nat /\ pivot_row_for_col st !!! col = Z.of_nat r;
  inv_free : forall col r, (col < c)%nat -> (col < k)%nat ->
    pivot_row_for_col st !!! col = -1 -> (row st <= r < m)%nat ->
    Z.testbit (A st !!! r) (Z.of_nat col) = false;
  inv_hi : forall r j, (r < m)%nat -> (k <= j)%nat ->
    Z.testbit (A st !!! r) (Z.of_nat j) = false;
  inv_ybit : forall r, (r < m)%nat -> is_bit (y st !!! r);
  inv_sat : forall x, sat k m x (A st) (y st) <-> sat k m x A0 y0
}.

(** the unknown of column [col], as back-substitution sets it *)
Definition xsol (st : elim_state) (col : nat) : bool :=
  negb (pivot_row_for_col st !!! col =? -1)
  && Z.odd (y st !!! Z.to_nat (pivot_row_for_col st !!! col)).

(** the unknowns found for bit-plane [bit] *)
Definition xplane (k : nat) (eqs : list PacketEquation) (bit : nat)
  : nat -> bool :=
  xsol (gauss (build_masks k eqs) eqs k bit).

(** does the elimination of bit-plane [bit] end with a row [0 = 1]? *)
Definition plane_inconsistent (k : nat) (eqs : list PacketEquation)
           (bit : nat) : bool :=
  inconsistent (length eqs) (gauss (build_masks k eqs) eqs k bit).

(** The XOR of the identifiers [ids[i]] over the hop indices [i] of [s]
    that lie in [0, k). *)
Definition xor_ids (k : nat) (ids : list Z) (s : gset Z) : Z :=
  set_fold (fun i acc =>
              if decide (0 <= i < Z.of_nat k)
              then Z.lxor acc (ids !!! Z.to_nat i) else acc) 0 s.

End Systems.

(** ** The rank of a list of row masks over GF(2) *)

(** [a] with column [c] cleared by the pivot row [p] *)
Definition reduce_by (c : nat) (p a : Z) : Z :=
  if Z.testbit a (Z.of_nat c) then Z.lxor a p else a.

(** the first row with bit [c] set, and the other rows *)
Fixpoint take_pivot (c : nat) (rows : list Z) : option (Z * list Z) :=
  match rows with
  | [] => None
  | a :: rest =>
      if Z.testbit a (Z.of_nat c) then Some (a, rest)
      else match take_pivot c rest with
           | Some (p, others) => Some (p, a :: others)
           | None => None
           end
  end.

(** the number of pivots that elimination finds in the columns [cols] *)
Fixpoint rank_cols (cols : list nat) (rows : list Z) : nat :=
  match cols with
  | [] => 0
  | c :: cols' =>
      match take_pivot c rows with
      | None => rank_cols cols' rows
      | Some (p, others) => S (rank_cols cols' (reduce_by c p <$> others))
      end
  end.

(** the rank over GF(2) of the matrix whose rows are the [k]-bit masks *)
Definition gf2_rank (k : nat) (rows : list Z) : nat :=
  rank_cols (seq 0 k) rows.

(** ** The states of a path simulation *)

Section Reach.

Context {S : Type} (step : nat -> S -> option (hop_result S)).

(** the loop variables on entering hop [n] of a simulation from [s0] *)
Inductive reach (s0 : S) : nat -> S -> Prop :=
| reach_start : reach s0 0 s0
| reach_next n s act s' :
    reach s0 n s -> step n s = Some (Next act s') -> reach s0 (Datatypes.S n) s'.

End Reach.

(** ** The policies, the loader and the fixed-point encoding *)

(** toggling the membership of [hop]: remove if present, else insert *)
Definition toggle (hop : Z) (X : gset Z) : gset Z :=
  if decide (hop ∈ X) then X ∖ {[hop]} else X ∪ {[hop]}.

(** The rule of the specification for REPLACE: the sign-overflow rule of
    ADD applied to the subtraction [replace_threshold - h], that is, with
    [replace_threshold] in the place of [h] and [h] in the place of the
    threshold. *)
Definition symmetric_replace_rule (h replace_threshold : Z) : bool :=
  let h := Z.land h 0xFFFFFFFF in
  let c := Z.land replace_threshold 0xFFFFFFFF in
  let res := Z.land (c - h) 0xFFFFFFFF in
  let same_sign := Decoding._sign_bit c =? Decoding._sign_bit h in
  ((Decoding._sign_bit c =? 0) && (Decoding._sign_bit h =? 1))
  || (same_sign && (Decoding._sign_bit res =? 1)).

(** the loader's test on a kept line: the parts it keeps of the line are
    odd in number, or give more degrees than [max_degree] *)
Definition violates (max_degree : Z) (line : string) : Prop :=
  Z.of_nat (length (Loader.parts_of line)) mod 2 ≠ 0 \/
  Z.of_nat (length (Loader.parts_of line) / 2) > max_degree.

(** every part the loader keeps of the line is read by [float] as a
    number whose scaled value [int] accepts (a finite float) *)
Definition converts (float_of_string : string -> option spec_float)
           (line : string) : Prop :=
  forall field, field ∈ Loader.parts_of line ->
    exists x, float_of_string field = Some x /\ is_Some (Loader.fixed32 x).

(** a text that is empty or holds white space only *)
Definition blank (s : string) : bool :=
  forallb Loader.is_space (list_ascii_of_string s).

(** the comma-separated fields of a line *)
Definition comma_fields (line : string) : list string :=
  Loader.split "," line.

(** the conditions of the format error as the claim words them: an odd
    number of comma-separated fields, or more degrees (field count / 2)
    than [max_degree] *)
Definition stated_violates (max_degree : Z) (line : string) : Prop :=
  Z.of_nat (length (comma_fields line)) mod 2 ≠ 0 \/
  Z.of_nat (length (comma_fields line) / 2) > max_degree.

(** the fields that count: the comma-separated fields that are not blank *)
Definition counted_fields (line : string) : list string :=
  filter (fun p => blank p = false) (comma_fields line).

(** the same conditions on the fields that count *)
Definition line_violates (max_degree : Z) (line : string) : Prop :=
  Z.of_nat (length (counted_fields line)) mod 2 ≠ 0 \/
  Z.of_nat (length (counted_fields line) / 2) > max_degree.

(** every field that counts, taken without the white space around it, is
    read by [float] as a number whose scaled value [int] accepts *)
Definition line_converts (float_of_string : string -> option spec_float)
           (line : string) : Prop :=
  forall field, field ∈ counted_fields line ->
    exists x, float_of_string (Loader.strip field) = Some x /\
              is_Some (Loader.fixed32 x).

(** cell [idx] of the two arrays holds the encodings of the fields [2d] and
    [2d + 1] of the line *)
Definition cell_written (float_of_string : string -> option spec_float)
           (parts : list string) (d : nat) (a c : list Z) (idx : Z) : Prop :=
  exists s_add s_cum p_add p_cum v_add v_cum,
    parts !! (2 * d)%nat = Some s_add /\
    parts !! (2 * d + 1)%nat = Some s_cum /\
    float_of_string s_add = Some p_add /\
    float_of_string s_cum = Some p_cum /\
    Loader.fixed32 p_add = Some v_add /\
    Loader.fixed32 p_cum = Some v_cum /\
    py_getitem a idx = Some v_add /\
    py_getitem c idx = Some v_cum.

(** [float] on the field texts of the examples below: the literals [0.5]
    and [0.25] are binary64 numbers, [1e400] is beyond the binary64 range
    and reads as the positive infinity, and [x] is not a number
    ([ValueError]). It is applied to these four texts only. *)
Definition example_float (s : string) : option spec_float :=
  if decide (s = "0.5"%string)
  then Some (S754_finite false (2 ^ 52)%positive (-53))
  else if decide (s = "0.25"%string)
       then Some (S754_finite false (2 ^ 52)%positive (-54))
       else if decide (s = "1e400"%string)
            then Some (S754_infinity false)
            else None.

(** a generator for the examples: a counter as state, a value of
    [id_bits] bits derived from it, and the error on a negative number of
    bits *)
Definition example_getrandbits (k : Z) (rng : Z) : option (Z * Z) :=
  if k <? 0 then None
  else Some ((rng * 0x9E3779B9 + 0x1234) mod 2 ^ k, rng + 1).

(** the exact rational value of a finite binary64 number: [m * 2^e] *)
Definition SF2Q (x : spec_float) : option Q :=
  match x with
  | S754_zero _ => Some 0%Q
  | S754_finite s m e =>
      Some (if 0 <=? e
            then inject_Z (cond_Zopp s (Z.pos m) * 2 ^ e)
            else Qmake (cond_Zopp s (Z.pos m)) (Z.to_pos (2 ^ (- e))))
  | S754_infinity _ | S754_nan => None
  end.

(** ** The histogram, the loaded tables and the checksum *)

(** the histogram after the packets whose equations are [eqs] *)
Definition tally (xor_dist : gmap Z Z) (eqs : list PacketEquation)
  : gmap Z Z :=
  foldl (fun d eq => Distribution.count_degree d (Z.of_nat (size (xor_set eq))))
        xor_dist eqs.

(** the number of equations whose [xor_set] has [k] members *)
Definition packets_of_degree (k : Z) (eqs : list PacketEquation) : Z :=
  Z.of_nat (length (filter (fun eq => Z.of_nat (size (xor_set eq)) = k) eqs)).

(** the loop variables that [sim_murmur.py] keeps *)
Definition forget_pint (s : Murmur.loop_state) : SimMurmur.loop_state :=
  SimMurmur.mkLoop (Murmur.xor_degree s) (Murmur.cur_xor_set s).

(** a 32-bit value *)
Definition word32 (v : Z) : Prop := 0 <= v < 2 ^ 32.

(** the checksum register after the nine bytes that every packet shares:
    the two addresses and the protocol number *)
Definition crc_prefix : Z :=
  foldl Decoding.crc_byte 0xFFFFFFFF ([10; 0; 0; 1] ++ [10; 0; 0; 2] ++ [146]).

(** a value reduced to 32 bits *)
Definition wrap32 (v : Z) : Z := v mod 2 ^ 32.

(** both arrays reduced to 32 bits *)
Definition wrap_arrays (arrs : list Z * list Z) : list Z * list Z :=
  (wrap32 <$> arrs.1, wrap32 <$> arrs.2).

(** A line of an APA file that both the controller and the loader read in
    full: it is not blank, its comma-separated fields have no surrounding
    white space and are not empty, their number is even, and there are at
    most [Controller.MAX_DEGREE] pairs. *)
Definition clean_line (line : string) : Prop :=
  Loader.strip line ≠ EmptyString /\
  Forall (fun p => Loader.strip p = p /\ p ≠ EmptyString)
         (Loader.split "," (Loader.strip line)) /\
  Z.of_nat (length (Loader.split "," (Loader.strip line))) mod 2 = 0 /\
  Z.of_nat (length (Loader.split "," (Loader.strip line)) / 2)
    <= Controller.MAX_DEGREE.

(** the row of a pivot is clear below the column of the pivot *)
Definition lead (k : nat) (st : Solver.elim_state) : Prop :=
  forall col q j, (col < k)%nat ->
    Solver.pivot_row_for_col st !!! col = Z.of_nat q -> (j < col)%nat ->
    Z.testbit (Solver.A st !!! q) (Z.of_nat j) = false.

(** * Checks of the embedding on known values *)

Example solve_scenario :
  Solver.solve_switch_ids
    [mkEq 0 0x444C {[0; 1]}; mkEq 1 0x5678 {[1]}] 2 16
  = Some [0x1234; 0x5678].
Proof. vm_compute. reflexivity. Qed.

Example crc32_check_value :
  Decoding.crc32 [49; 50; 51; 52; 53; 54; 55; 56; 57] = 0xCBF43926.
Proof. vm_compute. reflexivity. Qed.

Example ipv4_src : Decoding.ipv4_to_u32 Decoding.SRC_IP = Some Decoding.SRC_IP_U32.
Proof. vm_compute. reflexivity. Qed.

Example ipv4_dst : Decoding.ipv4_to_u32 Decoding.DST_IP = Some Decoding.DST_IP_U32.
Proof. vm_compute. reflexivity. Qed.

(** * Facts about the bit operations of the sources *)

Lemma land_1_b2z (a : Z) : Z.land a 1 = Z.b2z (Z.odd a).
Proof.
  change 1 with (Z.ones 1). rewrite Z.land_ones by lia.
  rewrite <- Z.bit0_odd, Z.bit0_mod. reflexivity.
Qed.

Lemma bit_at_b2z (a : Z) (col : nat) :
  Solver.bit_at a col = Z.b2z (Z.testbit a (Z.of_nat col)).
Proof.
  unfold Solver.bit_at. rewrite land_1_b2z, <- Z.bit0_odd.
  rewrite Z.shiftr_spec by lia. reflexivity.
Qed.

Lemma bit_set_testbit (a : Z) (col : nat) :
  Solver.bit_set a col = Z.testbit a (Z.of_nat col).
Proof.
  unfold Solver.bit_set. rewrite bit_at_b2z.
  destruct (Z.testbit a (Z.of_nat col)); reflexivity.
Qed.

Lemma testbit_one_shiftl (i j : Z) :
  0 <= i -> 0 <= j -> Z.testbit (Z.shiftl 1 i) j = bool_decide (j = i).
Proof.
  intros Hi Hj. rewrite Z.shiftl_spec by lia.
  case_bool_decide as E.
  - subst. replace (i - i) with 0 by lia. reflexivity.
  - destruct (Z.ltb_spec j i).
    + apply Z.testbit_neg_r. lia.
    + change 1 with (Z.ones 1).
      rewrite Z.ones_spec_high by lia. reflexivity.
Qed.

Lemma is_bit_b2z (p : bool) : is_bit (Z.b2z p).
Proof. destruct p; [right | left]; reflexivity. Qed.

Lemma is_bit_lxor (a b : Z) : is_bit a -> is_bit b -> is_bit (Z.lxor a b).
Proof. intros [-> | ->] [-> | ->]; [left | right | right | left]; reflexivity. Qed.

Lemma odd_lxor (a b : Z) : Z.odd (Z.lxor a b) = xorb (Z.odd a) (Z.odd b).
Proof. rewrite <- !Z.bit0_odd. apply Z.lxor_spec. Qed.

(** * Generic loop principles *)

(** an invariant carried through [for i in range(n)] *)
Lemma foldl_seq_ind {B : Type} (P : nat -> B -> Prop) (F : B -> nat -> B)
      (n : nat) (b : B) :
  P 0%nat b ->
  (forall i acc, (i < n)%nat -> P i acc -> P (S i) (F acc i)) ->
  P n (foldl F b (seq 0 n)).
Proof.
  intros H0 Hstep. induction n as [| n IH].
  - exact H0.
  - rewrite seq_S, foldl_app. simpl. apply Hstep; [lia |].
    apply IH. intros i acc Hi. apply Hstep. lia.
Qed.

(** * The elimination loop of [solve_switch_ids] *)

Section Elimination.

Import Solver.

Lemma swap_length (l : list Z) (i j : nat) : length (swap l i j) = length l.
Proof. unfold swap. rewrite !length_insert. reflexivity. Qed.

Lemma swap_lookup (l : list Z) (i j r : nat) :
  (i < length l)%nat -> (j < length l)%nat ->
  swap l i j !!! r =
    if decide (r = j) then l !!! i
    else if decide (r = i) then l !!! j else l !!! r.
Proof.
  intros Hi Hj. unfold swap.
  destruct (decide (r = j)) as [-> | Hrj].
  - rewrite list_lookup_total_insert_eq; [reflexivity |].
    rewrite length_insert. exact Hj.
  - rewrite list_lookup_total_insert_ne by congruence.
    destruct (decide (r = i)) as [-> | Hri].
    + rewrite list_lookup_total_insert_eq; [reflexivity | exact Hi].
    + rewrite list_lookup_total_insert_ne by congruence. reflexivity.
Qed.

Lemma find_pivot_Some (A : list Z) (col row p : nat) :
  find_pivot A col row = Some p ->
  (row <= p < length A)%nat /\ Z.testbit (A !!! p) (Z.of_nat col) = true.
Proof.
  unfold find_pivot. intros H.
  apply fmap_Some in H as [[i a] [Hfind ->]]. simpl.
  apply list_find_Some in Hfind as (Hlook & Hbit & _).
  rewrite lookup_drop in Hlook.
  split.
  - apply lookup_lt_Some in Hlook. lia.
  - rewrite (list_lookup_total_correct _ _ _ Hlook).
    rewrite <- bit_set_testbit. exact Hbit.
Qed.

Lemma find_pivot_None (A : list Z) (col row r : nat) :
  find_pivot A col row = None ->
  (row <= r < length A)%nat -> Z.testbit (A !!! r) (Z.of_nat col) = false.
Proof.
  unfold find_pivot. intros H Hr.
  apply fmap_None in H. rewrite list_find_None in H.
  rewrite Forall_forall in H.
  destruct (lookup_lt_is_Some_2 A r) as [a Ha]; [lia |].
  rewrite (list_lookup_total_correct _ _ _ Ha).
  rewrite <- bit_set_testbit. apply not_true_is_false. apply H.
  apply list_elem_of_lookup. exists (r - row)%nat.
  rewrite lookup_drop. replace (row + (r - row))%nat with r by lia. exact Ha.
Qed.

Lemma lookup_total_ge (l : list Z) (i : nat) :
  (length l <= i)%nat -> l !!! i = inhabitant.
Proof.
  intros H. rewrite list_lookup_total_alt, lookup_ge_None_2 by exact H.
  reflexivity.
Qed.

(** the effect of [for r in range(m)] on each row *)
Lemma eliminate_spec (col row m : nat) (A0 y0 : list Z) :
  length A0 = m -> length y0 = m ->
  let Ay := eliminate col row m (A0, y0) in
  length Ay.1 = m /\ length Ay.2 = m /\
  forall r, (r < m)%nat ->
    Ay.1 !!! r = elim_target col row A0 A0 r /\
    Ay.2 !!! r = elim_target col row A0 y0 r.
Proof.
  intros HA Hy. unfold eliminate.
  set (P := fun (n : nat) (Ay : list Z * list Z) =>
    length Ay.1 = m /\ length Ay.2 = m /\
    forall r, (r < m)%nat ->
      Ay.1 !!! r = (if bool_decide (r < n)%nat
                    then elim_target col row A0 A0 r else A0 !!! r) /\
      Ay.2 !!! r = (if bool_decide (r < n)%nat
                    then elim_target col row A0 y0 r else y0 !!! r)).
  assert (HP : P m (foldl (fun acc r => elim_row col row r acc) (A0, y0)
                          (seq 0 m))).
  { apply foldl_seq_ind.
    - unfold P. simpl. repeat split; assumption.
    - intros i [A1 y1] Hi (HA1 & Hy1 & Hrows). simpl in *.
      assert (Hi_eq : A1 !!! i = A0 !!! i /\ y1 !!! i = y0 !!! i).
      { destruct (Hrows i Hi) as [-> ->].
        rewrite bool_decide_eq_false_2 by lia. split; reflexivity. }
      destruct Hi_eq as [HAi Hyi].
      assert (Hrow_eq : A1 !!! row = A0 !!! row /\ y1 !!! row = y0 !!! row).
      { destruct (decide (row < m)%nat) as [Hrm | Hrm].
        - destruct (Hrows row Hrm) as [-> ->]. unfold elim_target.
          rewrite (bool_decide_eq_false_2 (row ≠ row)) by tauto. simpl.
          destruct (bool_decide (row < i)%nat); split; reflexivity.
        - rewrite !lookup_total_ge by lia. split; reflexivity. }
      destruct Hrow_eq as [HArow Hyrow].
      unfold P, elim_row. rewrite HAi, bit_set_testbit, HArow, Hyi, Hyrow.
      destruct (bool_decide (i ≠ row) && Z.testbit (A0 !!! i) (Z.of_nat col))
        eqn:Hc; simpl; rewrite ?length_insert;
        (split; [assumption | split; [assumption |]]); intros r Hr;
        destruct (Hrows r Hr) as [HrA Hry];
        (destruct (decide (r = i)) as [-> | Hri];
         [ rewrite ?list_lookup_total_insert_eq by lia;
           rewrite (bool_decide_eq_true_2 (i < S i)%nat) by lia;
           unfold elim_target; rewrite Hc; split; congruence
         | rewrite ?list_lookup_total_insert_ne by congruence;
           rewrite HrA, Hry;
           destruct (decide (r < i)%nat);
           [ rewrite !(bool_decide_eq_true_2 (r < _)%nat) by lia
           | rewrite !(bool_decide_eq_false_2 (r < _)%nat) by lia ];
           split; reflexivity ]). }
  destruct (foldl _ _ _) as [A1 y1]. destruct HP as (HA1 & Hy1 & Hrows).
  simpl in *. repeat split; try assumption.
  - destruct (Hrows r H) as [-> _].
    rewrite (bool_decide_eq_true_2 (r < m)%nat) by assumption. reflexivity.
  - destruct (Hrows r H) as [_ ->].
    rewrite (bool_decide_eq_true_2 (r < m)%nat) by assumption. reflexivity.
Qed.

(** ** Bit-plane systems over GF(2) *)

Lemma dotb_lxor (k : nat) (a b : Z) (x : nat -> bool) :
  dotb k (Z.lxor a b) x = xorb (dotb k a x) (dotb k b x).
Proof.
  induction k as [| k IH]; simpl; [reflexivity |].
  rewrite IH, Z.lxor_spec.
  destruct (dotb k a x), (dotb k b x), (Z.testbit a (Z.of_nat k)),
    (Z.testbit b (Z.of_nat k)), (x k); reflexivity.
Qed.

Lemma dotb_none (k : nat) (a : Z) (x : nat -> bool) :
  (forall i, (i < k)%nat -> Z.testbit a (Z.of_nat i) && x i = false) ->
  dotb k a x = false.
Proof.
  induction k as [| k IH]; simpl; intros H; [reflexivity |].
  rewrite IH, H by (try intros; auto with lia). reflexivity.
Qed.

Lemma dotb_single (k : nat) (a : Z) (x : nat -> bool) (c : nat) :
  (c < k)%nat ->
  (forall i, (i < k)%nat -> i ≠ c -> Z.testbit a (Z.of_nat i) && x i = false) ->
  dotb k a x = Z.testbit a (Z.of_nat c) && x c.
Proof.
  induction k as [| k IH]; simpl; intros Hc H; [lia |].
  destruct (decide (c = k)) as [-> | Hne].
  - rewrite dotb_none by (intros i Hi; apply H; lia).
    destruct (_ && _); reflexivity.
  - rewrite IH by (try intros; auto with lia).
    rewrite (H k) by lia. apply xorb_false_r.
Qed.

Lemma dotb_ext (k : nat) (a : Z) (x x' : nat -> bool) :
  (forall i, (i < k)%nat -> x i = x' i) -> dotb k a x = dotb k a x'.
Proof.
  induction k as [| k IH]; simpl; intros H; [reflexivity |].
  rewrite IH, (H k) by (try intros; auto with lia). reflexivity.
Qed.

Lemma sat_swap (k m : nat) (x : nat -> bool) (A y : list Z) (i j : nat) :
  length A = m -> length y = m -> (i < m)%nat -> (j < m)%nat ->
  sat k m x (swap A i j) (swap y i j) <-> sat k m x A y.
Proof.
  intros HA Hy Hi Hj. unfold sat. split; intros H r Hr.
  - destruct (decide (r = i)) as [-> | Hri];
      [| destruct (decide (r = j)) as [-> | Hrj]].
    + specialize (H j Hj). rewrite !swap_lookup in H by lia.
      rewrite !decide_True in H by reflexivity. exact H.
    + specialize (H i Hi). rewrite !swap_lookup in H by lia.
      destruct (decide (i = j)); [congruence |].
      rewrite !decide_True in H by reflexivity. exact H.
    + specialize (H r Hr). rewrite !swap_lookup in H by lia.
      rewrite !decide_False in H by assumption. exact H.
  - rewrite !swap_lookup by lia.
    destruct (decide (r = j)); [apply H; lia |].
    destruct (decide (r = i)); apply H; lia.
Qed.

Lemma sat_eliminate (k m : nat) (x : nat -> bool) (A y : list Z)
      (col row : nat) :
  length A = m -> length y = m -> (row < m)%nat ->
  let Ay := eliminate col row m (A, y) in
  sat k m x Ay.1 Ay.2 <-> sat k m x A y.
Proof.
  intros HA Hy Hrow.
  pose proof (eliminate_spec col row m A y HA Hy) as Hspec.
  simpl in *. destruct Hspec as (_ & _ & Hrows). unfold sat.
  assert (Hpiv : forall l, elim_target col row A l row = l !!! row).
  { intros l. unfold elim_target.
    rewrite (bool_decide_eq_false_2 (row ≠ row)) by tauto. reflexivity. }
  split; intros H r Hr.
  - pose proof (H r Hr) as Hr'. pose proof (H row Hrow) as Hp.
    destruct (Hrows r Hr) as [EA Ey]. destruct (Hrows row Hrow) as [PA Py].
    rewrite EA, Ey in Hr'. rewrite PA, Py, !Hpiv in Hp.
    unfold elim_target in Hr'.
    destruct (bool_decide (r ≠ row) && _); [| exact Hr'].
    rewrite dotb_lxor, odd_lxor, Hp in Hr'.
    destruct (dotb k (A !!! r) x), (Z.odd (y !!! r)), (Z.odd (y !!! row));
      simpl in Hr'; congruence.
  - destruct (Hrows r Hr) as [-> ->]. unfold elim_target.
    destruct (bool_decide (r ≠ row) && _); [| apply H; exact Hr].
    rewrite dotb_lxor, odd_lxor, (H r Hr), (H row Hrow). reflexivity.
Qed.

(** ** The invariant of [for col in range(k)] *)

Lemma inv_skip (k m : nat) (A0 y0 : list Z) (c : nat) (st : elim_state) :
  inv k m A0 y0 c st -> find_pivot (A st) c (row st) = None ->
  inv k m A0 y0 (S c) st.
Proof.
  intros [] Hnone. constructor; try assumption.
  - intros col Hcol. destruct (inv_piv_range0 col Hcol) as [? | (p & ? & ? & ?)];
      [left; assumption | right; exists p; repeat split; auto with lia].
  - intros col r Hc Hk Hpiv Hr.
    destruct (decide (col = c)) as [-> | Hne].
    + apply (find_pivot_None _ _ (row st)); [exact Hnone | lia].
    + apply inv_free0; auto with lia.
Qed.

(** bit [j] of a row after the swap of [row] and [p] and the elimination
    of column [c] *)
Lemma pivot_step_bits (m : nat) (A1 y1 : list Z) (c row p : nat) :
  length A1 = m -> length y1 = m -> (row <= p < m)%nat ->
  let A' := swap A1 row p in
  let y' := swap y1 row p in
  let Ay := eliminate c row m (A', y') in
  length Ay.1 = m /\ length Ay.2 = m /\
  forall r, (r < m)%nat ->
    Ay.1 !!! r =
      (if bool_decide (r ≠ row)
          && Z.testbit (A1 !!! swapped row p r) (Z.of_nat c)
       then Z.lxor (A1 !!! swapped row p r) (A1 !!! p)
       else A1 !!! swapped row p r) /\
    Ay.2 !!! r =
      (if bool_decide (r ≠ row)
          && Z.testbit (A1 !!! swapped row p r) (Z.of_nat c)
       then Z.lxor (y1 !!! swapped row p r) (y1 !!! p)
       else y1 !!! swapped row p r).
Proof.
  intros HA Hy Hp A' y' Ay.
  assert (HA' : length A' = m) by (unfold A'; rewrite swap_length; exact HA).
  assert (Hy' : length y' = m) by (unfold y'; rewrite swap_length; exact Hy).
  destruct (eliminate_spec c row m A' y' HA' Hy') as (L1 & L2 & Hrows).
  fold Ay in L1, L2, Hrows.
  split; [exact L1 | split; [exact L2 |]]. intros r Hr.
  destruct (Hrows r Hr) as [-> ->]. unfold elim_target, A', y'.
  rewrite !swap_lookup by lia. unfold swapped.
  repeat case_decide; subst; try congruence; split; reflexivity.
Qed.

Lemma swapped_lt (m row p r : nat) :
  (row <= p < m)%nat -> (r < m)%nat -> (swapped row p r < m)%nat.
Proof. unfold swapped. intros. repeat case_decide; lia. Qed.

Lemma swapped_ge (row p r : nat) :
  (row <= p)%nat -> (row <= r)%nat -> (row <= swapped row p r)%nat.
Proof. unfold swapped. intros. repeat case_decide; lia. Qed.

Lemma swapped_low (row p r : nat) :
  (row <= p)%nat -> (r < row)%nat -> swapped row p r = r.
Proof. unfold swapped. intros. repeat case_decide; lia. Qed.

Lemma swapped_row (row p : nat) : swapped row p row = p.
Proof. unfold swapped. repeat case_decide; congruence. Qed.

Lemma inv_pivot (k m : nat) (A0 y0 : list Z) (c : nat) (st : elim_state)
      (p : nat) :
  inv k m A0 y0 c st -> (c < k)%nat ->
  find_pivot (A st) c (row st) = Some p ->
  let Ay := eliminate c (row st) m
              (swap (A st) (row st) p, swap (y st) (row st) p) in
  inv k m A0 y0 (S c)
      (mkSt Ay.1 Ay.2
            (<[c := Z.of_nat (row st)]> (pivot_row_for_col st))
            (S (row st))).
Proof.
  intros I Hck Hfind Ay. destruct st as [A1 y1 piv row]. simpl in *.
  destruct I as [LA Ly Lp Hrow Hrange Hbit Hinj Hrows Hfree Hhi Hyb Hsat].
  simpl in *.
  apply find_pivot_Some in Hfind as [Hp Hpbit]. rewrite LA in Hp.
  destruct (pivot_step_bits m A1 y1 c row p LA Ly Hp) as (L1 & L2 & Hstep).
  fold Ay in L1, L2, Hstep.
  assert (Hpc : piv !!! c = -1).
  { destruct (Hrange c Hck) as [? | (? & _ & _ & ?)]; [assumption | lia]. }
  (* bit [j] of the new row [r] *)
  assert (HB : forall r j, (r < m)%nat ->
            Z.testbit (Ay.1 !!! r) (Z.of_nat j) =
            xorb (Z.testbit (A1 !!! swapped row p r) (Z.of_nat j))
                 (bool_decide (r ≠ row)
                  && Z.testbit (A1 !!! swapped row p r) (Z.of_nat c)
                  && Z.testbit (A1 !!! p) (Z.of_nat j))).
  { intros r j Hr. destruct (Hstep r Hr) as [-> _].
    destruct (bool_decide (r ≠ row) && _); simpl.
    - apply Z.lxor_spec.
    - symmetry. apply xorb_false_r. }
  (* the pivots recorded so far are untouched *)
  assert (Hold : forall col q, (col < k)%nat -> col ≠ c ->
            piv !!! col = Z.of_nat q ->
            (q < row)%nat /\
            Z.testbit (A1 !!! q) (Z.of_nat col) = true /\
            forall r, (r < m)%nat -> r ≠ q ->
                      Z.testbit (A1 !!! r) (Z.of_nat col) = false).
  { intros col q Hcol Hne Hq. destruct (Hbit col q Hcol Hq) as [Hb1 Hb2].
    destruct (Hrange col Hcol) as [? | (q' & Hq' & Hlt & _)]; [lia |].
    assert (q' = q) by lia. subst q'. auto. }
  constructor; simpl.
  - exact L1.
  - exact L2.
  - rewrite length_insert. exact Lp.
  - lia.
  - intros col Hcol. destruct (decide (col = c)) as [-> | Hne].
    + right. exists row. rewrite list_lookup_total_insert_eq by lia.
      repeat split; lia.
    + rewrite list_lookup_total_insert_ne by congruence.
      destruct (Hrange col Hcol) as [? | (q & ? & ? & ?)];
        [left; assumption | right; exists q; repeat split; auto with lia].
  - intros col q Hcol Hq. destruct (decide (col = c)) as [-> | Hne].
    + rewrite list_lookup_total_insert_eq in Hq by lia.
      assert (q = row) by lia. subst q. split.
      * rewrite HB by lia. rewrite swapped_row, Hpbit.
        rewrite (bool_decide_eq_false_2 (row ≠ row)) by tauto. reflexivity.
      * intros r Hr Hrq. rewrite HB by lia.
        rewrite (bool_decide_eq_true_2 (r ≠ row)) by assumption.
        rewrite Hpbit. simpl.
        destruct (Z.testbit (A1 !!! swapped row p r) (Z.of_nat c));
          reflexivity.
    + rewrite list_lookup_total_insert_ne in Hq by congruence.
      destruct (Hold col q Hcol Hne Hq) as (Hqrow & Hq1 & Hq2).
      assert (Hpcol : Z.testbit (A1 !!! p) (Z.of_nat col) = false)
        by (apply Hq2; lia).
      split.
      * rewrite HB by lia. rewrite swapped_low by lia.
        rewrite Hq1, Hpcol, andb_false_r. reflexivity.
      * intros r Hr Hrq. rewrite HB by lia.
        rewrite Hpcol, andb_false_r, xorb_false_r.
        apply Hq2; [apply swapped_lt; lia |].
        unfold swapped. repeat case_decide; lia.
  - intros c1 c2 q H1 H2 Hq1 Hq2.
    destruct (decide (c1 = c)) as [-> | Hn1];
      destruct (decide (c2 = c)) as [-> | Hn2]; [reflexivity | | |].
    + rewrite list_lookup_total_insert_eq in Hq1 by lia.
      rewrite list_lookup_total_insert_ne in Hq2 by congruence.
      destruct (Hold c2 q H2 Hn2 Hq2) as (? & _). lia.
    + rewrite list_lookup_total_insert_eq in Hq2 by lia.
      rewrite list_lookup_total_insert_ne in Hq1 by congruence.
      destruct (Hold c1 q H1 Hn1 Hq1) as (? & _). lia.
    + rewrite list_lookup_total_insert_ne in Hq1, Hq2 by congruence.
      eapply Hinj; eassumption.
  - intros r Hr. destruct (decide (r = row)) as [-> | Hne].
    + exists c. split; [exact Hck |].
      rewrite list_lookup_total_insert_eq by lia. reflexivity.
    + destruct (Hrows r) as (col & Hcol & Hq); [lia |].
      exists col. split; [exact Hcol |].
      rewrite list_lookup_total_insert_ne; [exact Hq |].
      intros ->. lia.
  - intros col r Hcol Hk Hq Hr.
    destruct (decide (col = c)) as [-> | Hne].
    { rewrite list_lookup_total_insert_eq in Hq by lia. lia. }
    rewrite list_lookup_total_insert_ne in Hq by congruence.
    assert (Hz : forall r', (row <= r' < m)%nat ->
                   Z.testbit (A1 !!! r') (Z.of_nat col) = false)
      by (intros r' Hr'; apply Hfree; auto with lia).
    rewrite HB by lia. rewrite (Hz p) by lia.
    rewrite andb_false_r, xorb_false_r. apply Hz.
    split; [apply swapped_ge; lia | apply swapped_lt; lia].
  - intros r j Hr Hj. rewrite HB by lia.
    rewrite (Hhi p j) by lia. rewrite andb_false_r, xorb_false_r.
    apply Hhi; [apply swapped_lt; lia | exact Hj].
  - intros r Hr. destruct (Hstep r Hr) as [_ ->].
    destruct (bool_decide (r ≠ row) && _).
    + apply is_bit_lxor; apply Hyb; [apply swapped_lt; lia | lia].
    + apply Hyb. apply swapped_lt; lia.
  - intros x. rewrite <- Hsat.
    rewrite <- (sat_swap k m x A1 y1 row p) by lia.
    apply sat_eliminate; rewrite ?swap_length; lia.
Qed.

(** the state on leaving [for col in range(k)] *)
Lemma gauss_cols_inv (k m : nat) (A0 y0 : list Z) (cols : list nat) :
  forall c st, cols = seq c (k - c) -> (c <= k)%nat ->
    inv k m A0 y0 c st ->
    exists c', inv k m A0 y0 c' (gauss_cols m cols st) /\ (c' <= k)%nat /\
               (c' = k \/ row (gauss_cols m cols st) = m).
Proof.
  induction cols as [| col rest IH]; intros c st Hcols Hc I.
  - exists c. simpl. split; [exact I | split; [exact Hc | left]].
    destruct (k - c)%nat eqn:E; [lia | discriminate].
  - destruct (k - c)%nat as [| n] eqn:E; [discriminate |].
    simpl in Hcols. injection Hcols as -> ->.
    assert (Hrest : seq (S c) n = seq (S c) (k - S c)) by (f_equal; lia).
    simpl. destruct (find_pivot (A st) c (row st)) as [p |] eqn:Hfind.
    + pose proof (inv_pivot k m A0 y0 c st p I ltac:(lia) Hfind) as I'.
      simpl in I'.
      destruct (eliminate c (row st) m _) as [A2 y2]. simpl in I'.
      destruct (decide (S (row st) = m)) as [Hm | Hm].
      * exists (S c). split; [exact I' | split; [lia | right; exact Hm]].
      * apply (IH (S c)); [exact Hrest | lia | exact I'].
    + apply (IH (S c)); [exact Hrest | lia |].
      apply inv_skip; assumption.
Qed.

(** ** Entering the loop *)

Lemma row_mask_testbit (k : nat) (s : gset Z) (n : Z) :
  0 <= n ->
  Z.testbit (row_mask k s) n = bool_decide (n ∈ s /\ n < Z.of_nat k).
Proof.
  unfold row_mask. intros Hn0.
  pose (P := fun (mask : Z) (X : gset Z) => forall n, 0 <= n ->
               Z.testbit mask n = bool_decide (n ∈ X /\ n < Z.of_nat k)).
  enough (HP : P (set_fold (fun i mask =>
                  if decide (0 <= i < Z.of_nat k)
                  then Z.lor mask (Z.shiftl 1 i) else mask) 0 s) s)
    by (apply HP; exact Hn0).
  clear n Hn0. apply (set_fold_ind_L P); unfold P.
  - intros n Hn. rewrite Z.bits_0. symmetry. apply bool_decide_eq_false_2.
    rewrite elem_of_empty. tauto.
  - intros x X mask Hx IH n Hn. case_decide as Hxk.
    + rewrite Z.lor_spec, IH, testbit_one_shiftl by lia.
      apply eq_true_iff_eq. rewrite orb_true_iff, !bool_decide_eq_true.
      rewrite elem_of_union, elem_of_singleton. split; [| intros [[-> | ?] ?]].
      * intros [[? ?] | ->]; split; auto; lia.
      * right. reflexivity.
      * left. split; assumption.
    + rewrite IH by lia. apply bool_decide_ext.
      rewrite elem_of_union, elem_of_singleton. split; [tauto |].
      intros [[-> | ?] ?]; [lia | tauto].
Qed.

Lemma inv_init (k bit : nat) (eqs : list PacketEquation) :
  inv k (length eqs) (build_masks k eqs) (rhs_bits bit eqs) 0
      (mkSt (build_masks k eqs) (rhs_bits bit eqs) (replicate k (-1)) 0).
Proof.
  constructor; simpl.
  - unfold build_masks. apply length_fmap.
  - unfold rhs_bits. apply length_fmap.
  - apply length_replicate.
  - lia.
  - intros col Hcol. left. apply lookup_total_replicate_2. exact Hcol.
  - intros col p Hcol. rewrite lookup_total_replicate_2 by exact Hcol. lia.
  - intros c1 c2 p H1 _. rewrite lookup_total_replicate_2 by exact H1. lia.
  - intros r Hr. lia.
  - intros col r Hc. lia.
  - intros r j Hr Hj. unfold build_masks.
    rewrite (list_lookup_total_fmap _ eqs r Hr).
    rewrite row_mask_testbit by lia. apply bool_decide_eq_false_2. lia.
  - intros r Hr. unfold rhs_bits.
    rewrite (list_lookup_total_fmap _ eqs r Hr).
    rewrite bit_at_b2z. apply is_bit_b2z.
  - intros x. reflexivity.
Qed.

(** ** Leaving the loop: the solution read off the pivots *)

Lemma inconsistent_false (m : nat) (st : elim_state) (r : nat) :
  inconsistent m st = false -> (r < m)%nat ->
  A st !!! r = 0 -> y st !!! r ≠ 1.
Proof.
  unfold inconsistent. intros H Hr HA Hy.
  assert (E : existsb (fun r => (A st !!! r =? 0) && (y st !!! r =? 1))
                      (seq 0 m) = true).
  { apply existsb_exists. exists r. split; [apply in_seq; lia |].
    rewrite HA, Hy. reflexivity. }
  congruence.
Qed.

Lemma final_sat (k m : nat) (A0 y0 : list Z) (c : nat) (st : elim_state) :
  inv k m A0 y0 c st -> (c = k \/ row st = m) ->
  inconsistent m st = false ->
  sat k m (xsol st) (A st) (y st).
Proof.
  intros [LA Ly Lp Hrow Hrange Hbit Hinj Hrows Hfree Hhi Hyb Hsat] Hend Hcons.
  intros r Hr. destruct (decide (r < row st)%nat) as [Hlow | Hhigh].
  - destruct (Hrows r Hlow) as (c0 & Hc0 & Hpiv).
    destruct (Hbit c0 r Hc0 Hpiv) as [Hset _].
    rewrite (dotb_single k _ _ c0 Hc0).
    + rewrite Hset. unfold xsol. rewrite Hpiv, Nat2Z.id.
      replace (Z.of_nat r =? -1) with false by (symmetry; apply Z.eqb_neq; lia).
      reflexivity.
    + intros i Hi Hne.
      destruct (Hrange i Hi) as [Hm1 | (q & Hq & _ & _)].
      * unfold xsol. rewrite Hm1. simpl. apply andb_false_r.
      * destruct (Hbit i q Hi Hq) as [_ Hclear].
        rewrite Hclear; [reflexivity | exact Hr |].
        intros ->. apply Hne. eapply Hinj; eassumption.
  - assert (HA0 : A st !!! r = 0).
    { apply Z.bits_inj'. intros n Hn. rewrite Z.bits_0.
      rewrite <- (Z2Nat.id n Hn).
      destruct (decide (Z.to_nat n < k)%nat) as [Hlt | Hge].
      - destruct (Hrange _ Hlt) as [Hm1 | (q & Hq & Hqrow & _)].
        + apply Hfree; [| exact Hlt | exact Hm1 | lia].
          destruct Hend as [-> | Hm]; [exact Hlt | lia].
        + destruct (Hbit _ q Hlt Hq) as [_ Hclear]. apply Hclear; lia.
      - apply Hhi; lia. }
    rewrite HA0.
    rewrite dotb_none by (intros; rewrite Z.bits_0; reflexivity).
    pose proof (inconsistent_false m st r Hcons Hr HA0) as Hy1.
    destruct (Hyb r Hr) as [E | E]; [rewrite E; reflexivity | contradiction].
Qed.

(** ** One bit-plane *)

Lemma gauss_inv (k bit : nat) (eqs : list PacketEquation) :
  let st := gauss (build_masks k eqs) eqs k bit in
  exists c, inv k (length eqs) (build_masks k eqs) (rhs_bits bit eqs) c st /\
            (c = k \/ row st = length eqs).
Proof.
  simpl. unfold gauss.
  destruct (gauss_cols_inv k (length eqs) (build_masks k eqs)
              (rhs_bits bit eqs) (seq 0 k) 0
              (mkSt (build_masks k eqs) (rhs_bits bit eqs)
                    (replicate k (-1)) 0)) as (c & I & _ & Hend).
  - f_equal. lia.
  - lia.
  - apply inv_init.
  - exists c. split; assumption.
Qed.

Lemma plane_sound (k bit : nat) (eqs : list PacketEquation) :
  plane_inconsistent k eqs bit = false ->
  sat k (length eqs) (xplane k eqs bit)
      (build_masks k eqs) (rhs_bits bit eqs).
Proof.
  intros Hcons. destruct (gauss_inv k bit eqs) as (c & I & Hend).
  apply (inv_sat _ _ _ _ _ _ I). eapply final_sat; eassumption.
Qed.

Lemma plane_consistent (k bit : nat) (eqs : list PacketEquation)
      (x : nat -> bool) :
  sat k (length eqs) x (build_masks k eqs) (rhs_bits bit eqs) ->
  plane_inconsistent k eqs bit = false.
Proof.
  intros Hx. destruct (gauss_inv k bit eqs) as (c & I & _).
  apply (inv_sat _ _ _ _ _ _ I) in Hx.
  unfold plane_inconsistent, inconsistent.
  apply not_true_is_false. intros E.
  apply existsb_exists in E as (r & Hr & E). apply in_seq in Hr.
  apply andb_true_iff in E as [EA Ey].
  apply Z.eqb_eq in EA, Ey. specialize (Hx r ltac:(lia)).
  rewrite EA, Ey in Hx.
  rewrite dotb_none in Hx by (intros; rewrite Z.bits_0; reflexivity).
  discriminate.
Qed.

Lemma back_subst_spec (k : nat) (st : elim_state) :
  length (back_subst k st) = k /\
  forall col, (col < k)%nat ->
    back_subst k st !!! col = Z.b2z (xsol st col).
Proof.
  unfold back_subst.
  set (F := fun (x_bits : list Z) (col : nat) =>
              if negb (pivot_row_for_col st !!! col =? -1)
              then <[col := Z.land (y st !!! Z.to_nat
                                      (pivot_row_for_col st !!! col)) 1]> x_bits
              else x_bits).
  pose (P := fun (n : nat) (xb : list Z) =>
    length xb = k /\
    forall col, (col < k)%nat ->
      xb !!! col = if bool_decide (col < n)%nat then Z.b2z (xsol st col)
                   else 0).
  assert (HP : P k (foldl F (replicate k 0) (seq 0 k))).
  { apply foldl_seq_ind.
    - split; [apply length_replicate |]. intros col Hcol.
      rewrite lookup_total_replicate_2 by exact Hcol.
      rewrite bool_decide_eq_false_2 by lia. reflexivity.
    - intros i xb Hi [Hlen Hxb]. unfold F, P.
      assert (Hother : forall col, (col < k)%nat -> col ≠ i ->
                xb !!! col = if bool_decide (col < S i)%nat
                             then Z.b2z (xsol st col) else 0).
      { intros col Hcol Hne. rewrite (Hxb col Hcol).
        destruct (decide (col < i)%nat).
        - rewrite !bool_decide_eq_true_2 by lia. reflexivity.
        - rewrite !bool_decide_eq_false_2 by lia. reflexivity. }
      destruct (negb (pivot_row_for_col st !!! i =? -1)) eqn:E.
      + rewrite length_insert. split; [exact Hlen |]. intros col Hcol.
        destruct (decide (col = i)) as [-> | Hne].
        * rewrite list_lookup_total_insert_eq by lia.
          rewrite bool_decide_eq_true_2 by lia.
          unfold xsol. rewrite E. simpl. apply land_1_b2z.
        * rewrite list_lookup_total_insert_ne by congruence.
          apply Hother; assumption.
      + split; [exact Hlen |]. intros col Hcol.
        destruct (decide (col = i)) as [-> | Hne].
        * rewrite (Hxb i Hcol). rewrite bool_decide_eq_false_2 by lia.
          rewrite bool_decide_eq_true_2 by lia.
          unfold xsol. rewrite E. reflexivity.
        * apply Hother; assumption. }
  destruct HP as [Hlen Hxb]. split; [exact Hlen |]. intros col Hcol.
  rewrite (Hxb col Hcol). rewrite bool_decide_eq_true_2 by lia. reflexivity.
Qed.

Lemma accumulate_spec (k bit : nat) (x_bits ids : list Z) :
  length ids = k ->
  length (accumulate k bit x_bits ids) = k /\
  forall i, (i < k)%nat ->
    accumulate k bit x_bits ids !!! i =
      if negb (x_bits !!! i =? 0)
      then Z.lor (ids !!! i) (Z.shiftl 1 (Z.of_nat bit)) else ids !!! i.
Proof.
  intros Hlen0. unfold accumulate.
  set (F := fun (ids : list Z) (i : nat) =>
              if negb (x_bits !!! i =? 0)
              then <[i := Z.lor (ids !!! i) (Z.shiftl 1 (Z.of_nat bit))]> ids
              else ids).
  pose (P := fun (n : nat) (l : list Z) =>
    length l = k /\
    forall i, (i < k)%nat ->
      l !!! i = if bool_decide (i < n)%nat && negb (x_bits !!! i =? 0)
                then Z.lor (ids !!! i) (Z.shiftl 1 (Z.of_nat bit))
                else ids !!! i).
  assert (HP : P k (foldl F ids (seq 0 k))).
  { apply foldl_seq_ind.
    - split; [exact Hlen0 |]. intros i Hi.
      rewrite bool_decide_eq_false_2 by lia. reflexivity.
    - intros i l Hi [Hlen Hl]. unfold F, P.
      assert (Hother : forall i', (i' < k)%nat -> i' ≠ i ->
                l !!! i' = if bool_decide (i' < S i)%nat
                              && negb (x_bits !!! i' =? 0)
                           then Z.lor (ids !!! i') (Z.shiftl 1 (Z.of_nat bit))
                           else ids !!! i').
      { intros i' Hi' Hne. rewrite (Hl i' Hi').
        destruct (decide (i' < i)%nat).
        - rewrite !(bool_decide_eq_true_2 (i' < _)%nat) by lia. reflexivity.
        - rewrite !(bool_decide_eq_false_2 (i' < _)%nat) by lia.
          reflexivity. }
      assert (Hli : l !!! i = ids !!! i).
      { rewrite (Hl i Hi). rewrite bool_decide_eq_false_2 by lia.
        reflexivity. }
      destruct (negb (x_bits !!! i =? 0)) eqn:E.
      + rewrite length_insert. split; [exact Hlen |]. intros i' Hi'.
        destruct (decide (i' = i)) as [-> | Hne].
        * rewrite list_lookup_total_insert_eq by lia.
          rewrite bool_decide_eq_true_2 by lia. rewrite E, Hli. reflexivity.
        * rewrite list_lookup_total_insert_ne by congruence.
          apply Hother; assumption.
      + split; [exact Hlen |]. intros i' Hi'.
        destruct (decide (i' = i)) as [-> | Hne].
        * rewrite Hli, E, andb_false_r. reflexivity.
        * apply Hother; assumption. }
  destruct HP as [Hlen Hl]. split; [exact Hlen |]. intros i Hi.
  rewrite (Hl i Hi). rewrite bool_decide_eq_true_2 by lia. reflexivity.
Qed.

(** ** The loop over the bit-planes *)

Lemma b2z_nonzero (b : bool) : negb (Z.b2z b =? 0) = b.
Proof. destruct b; reflexivity. Qed.

Lemma solve_bits_Solved (k : nat) (eqs : list PacketEquation)
      (bits : list nat) :
  forall ids ids', length ids = k ->
    solve_bits (build_masks k eqs) eqs k bits ids = Solved ids' ->
    length ids' = k /\
    (forall bit, bit ∈ bits -> plane_inconsistent k eqs bit = false) /\
    forall i j, (i < k)%nat ->
      Z.testbit (ids' !!! i) (Z.of_nat j) =
      Z.testbit (ids !!! i) (Z.of_nat j)
      || (bool_decide (j ∈ bits) && xplane k eqs j i).
Proof.
  induction bits as [| bit rest IH]; intros ids ids' Hlen H; simpl in H.
  - injection H as <-. split; [exact Hlen |]. split.
    + intros bit Hbit. apply elem_of_nil in Hbit. contradiction.
    + intros i j Hi. rewrite bool_decide_eq_false_2 by apply not_elem_of_nil.
      rewrite orb_false_r. reflexivity.
  - destruct (inconsistent _ _) eqn:Hinc; [discriminate |].
    destruct (back_subst_spec k (gauss (build_masks k eqs) eqs k bit))
      as [_ Hxb].
    destruct (accumulate_spec k bit
                (back_subst k (gauss (build_masks k eqs) eqs k bit))
                ids Hlen) as [Hlen1 Hacc].
    destruct (IH _ _ Hlen1 H) as (Hlen' & Hcons & Hbits).
    split; [exact Hlen' |]. split.
    + intros b Hb. apply elem_of_cons in Hb as [-> | Hb];
        [exact Hinc | apply Hcons; exact Hb].
    + intros i j Hi. rewrite (Hbits i j Hi), (Hacc i Hi), (Hxb i Hi).
      rewrite b2z_nonzero. fold (xplane k eqs bit i).
      destruct (decide (j = bit)) as [-> | Hne].
      * rewrite (bool_decide_eq_true_2 (bit ∈ bit :: rest))
          by apply list_elem_of_here.
        destruct (xplane k eqs bit i); simpl.
        -- rewrite Z.lor_spec, testbit_one_shiftl by lia.
           rewrite bool_decide_eq_true_2 by reflexivity.
           rewrite orb_true_r. reflexivity.
        -- rewrite orb_false_r.
           destruct (bool_decide (bit ∈ rest)); simpl;
             rewrite ?orb_false_r; reflexivity.
      * assert (Hin : bool_decide (j ∈ bit :: rest) = bool_decide (j ∈ rest)).
        { apply bool_decide_ext. rewrite elem_of_cons. tauto. }
        rewrite Hin.
        destruct (xplane k eqs bit i); [| reflexivity].
        rewrite Z.lor_spec, testbit_one_shiftl by lia.
        rewrite (bool_decide_eq_false_2 (Z.of_nat j = Z.of_nat bit)) by lia.
        rewrite orb_false_r. reflexivity.
Qed.

Lemma solve_bits_consistent (k : nat) (eqs : list PacketEquation)
      (bits : list nat) :
  forall ids,
    (forall bit, bit ∈ bits -> plane_inconsistent k eqs bit = false) ->
    exists ids', solve_bits (build_masks k eqs) eqs k bits ids = Solved ids'.
Proof.
  induction bits as [| bit rest IH]; intros ids H; simpl.
  - exists ids. reflexivity.
  - pose proof (H bit (list_elem_of_here _ _)) as Hb.
    unfold plane_inconsistent in Hb. rewrite Hb. apply IH.
    intros b Hin. apply H. apply list_elem_of_further. exact Hin.
Qed.

Lemma solve_bits_first_bad (k : nat) (eqs : list PacketEquation)
      (good : list nat) (bad : nat) (rest : list nat) :
  forall ids,
    (forall bit, bit ∈ good -> plane_inconsistent k eqs bit = false) ->
    plane_inconsistent k eqs bad = true ->
    solve_bits (build_masks k eqs) eqs k (good ++ bad :: rest) ids
    = Inconsistent bad.
Proof.
  induction good as [| bit good IH]; intros ids H Hbad; simpl.
  - unfold plane_inconsistent in Hbad. rewrite Hbad. reflexivity.
  - pose proof (H bit (list_elem_of_here _ _)) as Hb.
    unfold plane_inconsistent in Hb. rewrite Hb. apply IH; [| exact Hbad].
    intros b Hin. apply H. apply list_elem_of_further. exact Hin.
Qed.

(** every bit of a returned identifier *)
Lemma solve_switch_ids_bits (eqs : list PacketEquation)
      (num_hops id_bits : nat) (ids : list Z) :
  solve_switch_ids eqs num_hops id_bits = Some ids ->
  eqs ≠ [] /\ length ids = num_hops /\
  (forall bit, (bit < id_bits)%nat ->
     plane_inconsistent num_hops eqs bit = false) /\
  forall i j, (i < num_hops)%nat ->
    Z.testbit (ids !!! i) (Z.of_nat j) =
    bool_decide (j < id_bits)%nat && xplane num_hops eqs j i.
Proof.
  unfold solve_switch_ids, solve_switch_ids_report. intros H.
  destruct (decide (length eqs = 0%nat)) as [E | E]; [discriminate |].
  destruct (solve_bits _ _ _ _ _) as [| b | ids'] eqn:Hs; try discriminate.
  injection H as ->.
  apply solve_bits_Solved in Hs as (Hlen & Hcons & Hbits);
    [| apply length_replicate].
  split; [intros ->; apply E; reflexivity |].
  split; [exact Hlen |]. split.
  - intros bit Hbit. apply Hcons. apply elem_of_seq. lia.
  - intros i j Hi. rewrite (Hbits i j Hi).
    rewrite lookup_total_replicate_2 by exact Hi. rewrite Z.bits_0. simpl.
    f_equal. apply bool_decide_ext. rewrite elem_of_seq. lia.
Qed.

(** ** The equations as they are written: XOR of identifiers *)

Lemma dotb_bits_ext (k : nat) (a a' : Z) (x : nat -> bool) :
  (forall i, (i < k)%nat ->
     Z.testbit a (Z.of_nat i) = Z.testbit a' (Z.of_nat i)) ->
  dotb k a x = dotb k a' x.
Proof.
  induction k as [| k IH]; simpl; intros H; [reflexivity |].
  rewrite IH, (H k) by (try intros; auto with lia). reflexivity.
Qed.

Lemma dotb_unit (k c : nat) (x : nat -> bool) :
  (c < k)%nat -> dotb k (Z.shiftl 1 (Z.of_nat c)) x = x c.
Proof.
  intros Hc. rewrite (dotb_single k _ _ c Hc).
  - rewrite testbit_one_shiftl by lia.
    rewrite bool_decide_eq_true_2 by reflexivity. reflexivity.
  - intros i Hi Hne. rewrite testbit_one_shiftl by lia.
    rewrite bool_decide_eq_false_2 by lia. reflexivity.
Qed.

Lemma xor_ids_testbit (k : nat) (ids : list Z) (s : gset Z) (n : Z) :
  0 <= n ->
  Z.testbit (xor_ids k ids s) n =
  dotb k (row_mask k s) (fun i => Z.testbit (ids !!! i) n).
Proof.
  unfold xor_ids. intros Hn0.
  pose (P := fun (acc : Z) (X : gset Z) => forall n, 0 <= n ->
               Z.testbit acc n =
               dotb k (row_mask k X) (fun i => Z.testbit (ids !!! i) n)).
  enough (HP : P (set_fold (fun i acc =>
                  if decide (0 <= i < Z.of_nat k)
                  then Z.lxor acc (ids !!! Z.to_nat i) else acc) 0 s) s)
    by (apply HP; exact Hn0).
  clear n Hn0. apply (set_fold_ind_L P); unfold P.
  - intros n Hn. rewrite Z.bits_0. symmetry. apply dotb_none.
    intros i Hi. rewrite row_mask_testbit by lia.
    rewrite bool_decide_eq_false_2; [reflexivity |].
    rewrite elem_of_empty. tauto.
  - intros x X acc Hx IH n Hn. case_decide as Hxk.
    + rewrite Z.lxor_spec, IH by lia.
      rewrite <- (dotb_unit k (Z.to_nat x)
                    (fun i => Z.testbit (ids !!! i) n)) by lia.
      rewrite <- dotb_lxor. apply dotb_bits_ext. intros i Hi.
      rewrite Z.lxor_spec, !row_mask_testbit, testbit_one_shiftl by lia.
      rewrite Z2Nat.id by lia.
      destruct (decide (Z.of_nat i = x)) as [E | E].
      * rewrite (bool_decide_eq_true_2 (Z.of_nat i = x)) by exact E.
        rewrite (bool_decide_eq_false_2 (Z.of_nat i ∈ X /\ _))
          by (rewrite E; tauto).
        symmetry. apply bool_decide_eq_true_2.
        rewrite elem_of_union, elem_of_singleton. split; [tauto | lia].
      * rewrite (bool_decide_eq_false_2 (Z.of_nat i = x)) by exact E.
        rewrite xorb_false_r. apply bool_decide_ext.
        rewrite elem_of_union, elem_of_singleton. tauto.
    + rewrite IH by lia. apply dotb_bits_ext. intros i Hi.
      rewrite !row_mask_testbit by lia. apply bool_decide_ext.
      rewrite elem_of_union, elem_of_singleton. split; [tauto |].
      intros [[E | ?] ?]; [lia | tauto].
Qed.

Lemma odd_b2z (b : bool) : Z.odd (Z.b2z b) = b.
Proof. destruct b; reflexivity. Qed.

(** a vector of identifiers satisfies, on bit-plane [j], every row of the
    system exactly when its [j]-th bits are a solution *)
Lemma xor_ids_plane (k : nat) (ids : list Z) (eqs : list PacketEquation)
      (j r : nat) :
  (r < length eqs)%nat ->
  Z.testbit (xor_ids k ids (xor_set (eqs !!! r))) (Z.of_nat j) =
  dotb k (build_masks k eqs !!! r) (fun i => Z.testbit (ids !!! i) (Z.of_nat j)).
Proof.
  intros Hr. rewrite xor_ids_testbit by lia. unfold build_masks.
  rewrite (list_lookup_total_fmap _ eqs r Hr). reflexivity.
Qed.

Lemma rhs_bits_odd (eqs : list PacketEquation) (j r : nat) :
  (r < length eqs)%nat ->
  Z.odd (rhs_bits j eqs !!! r) = Z.testbit (final_pint (eqs !!! r)) (Z.of_nat j).
Proof.
  intros Hr. unfold rhs_bits. rewrite (list_lookup_total_fmap _ eqs r Hr).
  rewrite bit_at_b2z. apply odd_b2z.
Qed.

End Elimination.

(** * C7: the returned vector satisfies every equation *)

(** C7. Whenever [solve_switch_ids] returns a vector, the XOR of the
    returned identifiers over the hop indices of an equation's [xor_set]
    that lie in [0, num_hops) equals [final_pint] modulo [2^id_bits], for
    every input equation; the row mask of an equation is that of its
    [xor_set] restricted to [0, num_hops), so indices outside this range
    play no part. *)
Theorem solve_switch_ids_sound (eqs : list PacketEquation)
        (num_hops id_bits : nat) (ids : list Z) :
  Solver.solve_switch_ids eqs num_hops id_bits = Some ids ->
  forall eq, eq ∈ eqs ->
    xor_ids num_hops ids (xor_set eq)
      = final_pint eq mod 2 ^ Z.of_nat id_bits /\
    Solver.row_mask num_hops (xor_set eq)
      = Solver.row_mask num_hops
          (filter (fun i => 0 <= i < Z.of_nat num_hops) (xor_set eq)).
Proof.
  intros Hsolve eq Hin.
  apply solve_switch_ids_bits in Hsolve as (_ & Hlen & Hcons & Hbits).
  apply list_elem_of_lookup in Hin as [r Hr].
  pose proof (lookup_lt_Some _ _ _ Hr) as Hrm.
  apply list_lookup_total_correct in Hr. subst eq. split.
  - apply Z.bits_inj'. intros n Hn. rewrite <- (Z2Nat.id n Hn).
    set (j := Z.to_nat n). rewrite xor_ids_plane by exact Hrm.
    destruct (decide (j < id_bits)%nat) as [Hj | Hj].
    + rewrite Z.mod_pow2_bits_low by lia.
      rewrite <- rhs_bits_odd by exact Hrm.
      rewrite <- (plane_sound num_hops j eqs (Hcons j Hj) r Hrm).
      apply dotb_ext. intros i Hi. rewrite (Hbits i j Hi).
      rewrite bool_decide_eq_true_2 by exact Hj. reflexivity.
    + rewrite Z.mod_pow2_bits_high by lia. apply dotb_none.
      intros i Hi. rewrite (Hbits i j Hi).
      rewrite bool_decide_eq_false_2 by exact Hj. apply andb_false_r.
  - apply Z.bits_inj'. intros n Hn. rewrite !row_mask_testbit by exact Hn.
    apply bool_decide_ext. rewrite elem_of_filter. intuition lia.
Qed.

(** the scenario of the specification: two equations over two hops *)
Lemma solve_switch_ids_sound_witness :
  Solver.solve_switch_ids
    [mkEq 0 0x444C {[0; 1]}; mkEq 1 0x5678 {[1]}] 2 16
    = Some [0x1234; 0x5678] /\
  mkEq 1 0x5678 {[1]} ∈ [mkEq 0 0x444C {[0; 1]}; mkEq 1 0x5678 {[1]}] /\
  xor_ids 2 [0x1234; 0x5678] {[1]} = 0x5678 mod 2 ^ 16.
Proof.
  assert (H1 : Solver.solve_switch_ids
                 [mkEq 0 0x444C {[0; 1]}; mkEq 1 0x5678 {[1]}] 2 16
               = Some [0x1234; 0x5678]) by (vm_compute; reflexivity).
  assert (H2 : mkEq 1 0x5678 {[1]}
                 ∈ [mkEq 0 0x444C {[0; 1]}; mkEq 1 0x5678 {[1]}])
    by (apply list_elem_of_further, list_elem_of_here).
  split; [exact H1 | split; [exact H2 |]].
  exact (proj1 (solve_switch_ids_sound _ 2%nat 16%nat _ H1 _ H2)).
Defined.

(** * Full rank: the columns are linearly independent *)

Example gf2_rank_dependent : gf2_rank 2 [3; 3] = 1%nat.
Proof. reflexivity. Qed.

Example gf2_rank_three : gf2_rank 3 [1; 2; 3; 4] = 3%nat.
Proof. reflexivity. Qed.

Example gf2_rank_sum : gf2_rank 3 [3; 5; 6] = 2%nat.
Proof. reflexivity. Qed.

Section Rank.

Lemma take_pivot_Some (c : nat) (rows : list Z) (p : Z) (others : list Z) :
  take_pivot c rows = Some (p, others) ->
  Z.testbit p (Z.of_nat c) = true /\ p ∈ rows /\
  forall a, a ∈ others -> a ∈ rows.
Proof.
  revert p others. induction rows as [| a rest IH]; intros p others H;
    simpl in H; [discriminate |].
  destruct (Z.testbit a (Z.of_nat c)) eqn:E.
  - injection H as <- <-. split; [exact E |]. split.
    + apply list_elem_of_here.
    + intros b Hb. apply list_elem_of_further. exact Hb.
  - destruct (take_pivot c rest) as [[p' others'] |]; [| discriminate].
    injection H as <- <-. destruct (IH _ _ eq_refl) as (Hbit & Hin & Hsub).
    split; [exact Hbit |]. split.
    + apply list_elem_of_further. exact Hin.
    + intros b Hb. apply elem_of_cons in Hb as [-> | Hb].
      * apply list_elem_of_here.
      * apply list_elem_of_further. apply Hsub. exact Hb.
Qed.

Lemma rank_cols_le (cols : list nat) :
  forall rows, (rank_cols cols rows <= length cols)%nat.
Proof.
  induction cols as [| c cols IH]; intros rows; simpl; [lia |].
  destruct (take_pivot c rows) as [[p others] |].
  - specialize (IH (reduce_by c p <$> others)). lia.
  - specialize (IH rows). lia.
Qed.

Lemma dotb_agree (k : nat) (a : Z) (x x' : nat -> bool) :
  (forall i, (i < k)%nat -> Z.testbit a (Z.of_nat i) = true -> x i = x' i) ->
  dotb k a x = dotb k a x'.
Proof.
  induction k as [| k IH]; simpl; intros H; [reflexivity |].
  rewrite IH by (intros; apply H; auto with lia).
  destruct (Z.testbit a (Z.of_nat k)) eqn:E; [| reflexivity].
  rewrite (H k) by auto with lia. reflexivity.
Qed.

Lemma dotb_xor_r (k : nat) (a : Z) (x x' : nat -> bool) :
  dotb k a (fun i => xorb (x i) (x' i)) = xorb (dotb k a x) (dotb k a x').
Proof.
  induction k as [| k IH]; simpl; [reflexivity |].
  rewrite IH.
  destruct (dotb k a x), (dotb k a x'), (Z.testbit a (Z.of_nat k)),
    (x k), (x' k); reflexivity.
Qed.

Lemma rank_cols_kernel (k : nat) (cols : list nat) :
  forall (rows : list Z) (x : nat -> bool),
    NoDup cols -> (forall c, c ∈ cols -> (c < k)%nat) ->
    rank_cols cols rows = length cols ->
    (forall a, a ∈ rows -> dotb k a x = false) ->
    (forall i, (i < k)%nat -> i ∉ cols -> x i = false) ->
    forall i, i ∈ cols -> x i = false.
Proof.
  induction cols as [| c cols IH]; intros rows x Hnd Hlt Hrank Hker Hout i Hi.
  - apply elem_of_nil in Hi. contradiction.
  - simpl in Hrank. apply NoDup_cons in Hnd as [Hc Hnd].
    destruct (take_pivot c rows) as [[p others] |] eqn:Hp.
    2:{ pose proof (rank_cols_le cols rows). lia. }
    apply take_pivot_Some in Hp as (Hpbit & Hpin & Hsub).
    injection Hrank as Hrank.
    set (x' := fun i => if decide (i = c) then false else x i).
    assert (Hcols : forall i, i ∈ cols -> x i = false).
    { intros i' Hi'.
      assert (Hx' : x' i' = false).
      { apply (IH (reduce_by c p <$> others) x'); try assumption.
        - intros c' Hc'. apply Hlt. apply list_elem_of_further. exact Hc'.
        - intros a' Ha'. apply list_elem_of_fmap in Ha' as (a & -> & Ha).
          assert (Hclear : Z.testbit (reduce_by c p a) (Z.of_nat c) = false).
          { unfold reduce_by. destruct (Z.testbit a (Z.of_nat c)) eqn:E.
            - rewrite Z.lxor_spec, E, Hpbit. reflexivity.
            - exact E. }
          rewrite (dotb_agree k _ x' x).
          + unfold reduce_by. destruct (Z.testbit a (Z.of_nat c)).
            * rewrite dotb_lxor, (Hker a), (Hker p) by auto. reflexivity.
            * apply Hker. auto.
          + intros j Hj Hbit. unfold x'. case_decide; [| reflexivity].
            subst j. congruence.
        - intros j Hj Hnot. unfold x'. case_decide; [reflexivity |].
          apply Hout; [exact Hj |]. rewrite elem_of_cons. tauto. }
      unfold x' in Hx'. case_decide; [subst; contradiction | exact Hx']. }
    apply elem_of_cons in Hi as [-> | Hi]; [| apply Hcols; exact Hi].
    pose proof (Hker p Hpin) as Hp0.
    rewrite (dotb_single k p x c) in Hp0.
    + rewrite Hpbit in Hp0. exact Hp0.
    + apply Hlt. apply list_elem_of_here.
    + intros j Hj Hne. destruct (decide (j ∈ cols)) as [Hin | Hnin].
      * rewrite (Hcols j Hin). apply andb_false_r.
      * rewrite (Hout j Hj); [apply andb_false_r |].
        rewrite elem_of_cons. tauto.
Qed.

(** full rank: the columns are linearly independent *)
Lemma gf2_rank_full_kernel (k : nat) (rows : list Z) (x : nat -> bool) :
  gf2_rank k rows = k ->
  (forall a, a ∈ rows -> dotb k a x = false) ->
  forall i, (i < k)%nat -> x i = false.
Proof.
  unfold gf2_rank. intros Hrank Hker i Hi.
  apply (rank_cols_kernel k (seq 0 k) rows x).
  - apply NoDup_seq.
  - intros c Hc. apply elem_of_seq in Hc. lia.
  - rewrite length_seq. exact Hrank.
  - exact Hker.
  - intros j Hj Hnot. exfalso. apply Hnot. apply elem_of_seq. lia.
  - apply elem_of_seq. lia.
Qed.

End Rank.

(** * Path simulation *)

Section RunHops.

Context {S : Type} (step : nat -> S -> option (hop_result S)).

Lemma run_hops_reach_from (s0 : S) (len : nat) :
  forall start s s', reach step s0 start s ->
    run_hops step (seq start len) s = Some s' ->
    exists n, (start <= n <= start + len)%nat /\ reach step s0 n s'.
Proof.
  induction len as [| len IH]; intros start s s' Hs Hrun; simpl in Hrun.
  - injection Hrun as <-. exists start. split; [lia | exact Hs].
  - destruct (step start s) as [[| act s1] |] eqn:E; try discriminate.
    + injection Hrun as <-. exists start. split; [lia | exact Hs].
    + destruct (IH (Datatypes.S start) s1 s') as (n & Hn & Hr).
      * eapply reach_next; eassumption.
      * exact Hrun.
      * exists n. split; [lia | exact Hr].
Qed.

(** the state returned by the loop is one of the states it went through *)
Lemma run_hops_reach (s0 s' : S) (num_hops : nat) :
  run_hops step (seq 0 num_hops) s0 = Some s' ->
  exists n, (n <= num_hops)%nat /\ reach step s0 n s'.
Proof.
  intros H.
  destruct (run_hops_reach_from s0 num_hops 0 s0 s' (reach_start step s0) H)
    as (n & Hn & Hr).
  exists n. split; [lia | exact Hr].
Qed.

End RunHops.

Lemma py_getitem_nat {T : Type} `{!Inhabited T} (l : list T) (n : nat) (v : T) :
  py_getitem l (Z.of_nat n) = Some v -> l !!! n = v /\ (n < length l)%nat.
Proof.
  unfold py_getitem. rewrite (proj2 (Z.leb_le 0 (Z.of_nat n))) by lia.
  rewrite Nat2Z.id. intros H. split.
  - apply list_lookup_total_correct. exact H.
  - eapply lookup_lt_Some. exact H.
Qed.

(** ** Generation mode: the accumulator is the XOR over the XOR-set *)

Section Generation.

Import Solver.

Lemma row_mask_insert_bits (k : nat) (x : Z) (X : gset Z) (i : nat) :
  x ∉ X -> 0 <= x < Z.of_nat k ->
  Z.testbit (row_mask k ({[x]} ∪ X)) (Z.of_nat i) =
  Z.testbit (Z.lxor (row_mask k X) (Z.shiftl 1 x)) (Z.of_nat i).
Proof.
  intros Hx Hxk.
  rewrite Z.lxor_spec, !row_mask_testbit, testbit_one_shiftl by lia.
  destruct (decide (Z.of_nat i = x)) as [E | E].
  - rewrite (bool_decide_eq_true_2 (Z.of_nat i = x)) by exact E.
    rewrite (bool_decide_eq_false_2 (Z.of_nat i ∈ X /\ _))
      by (rewrite E; tauto).
    apply bool_decide_eq_true_2.
    rewrite elem_of_union, elem_of_singleton. split; [tauto | lia].
  - rewrite (bool_decide_eq_false_2 (Z.of_nat i = x)) by exact E.
    rewrite xorb_false_r. apply bool_decide_ext.
    rewrite elem_of_union, elem_of_singleton. tauto.
Qed.

Lemma xor_ids_empty (k : nat) (ids : list Z) : xor_ids k ids ∅ = 0.
Proof. unfold xor_ids. apply set_fold_empty. Qed.

Lemma xor_ids_insert (k : nat) (ids : list Z) (n : nat) (X : gset Z) :
  Z.of_nat n ∉ X -> (n < k)%nat ->
  xor_ids k ids ({[Z.of_nat n]} ∪ X) = Z.lxor (xor_ids k ids X) (ids !!! n).
Proof.
  intros Hn Hk. apply Z.bits_inj'. intros j Hj.
  rewrite Z.lxor_spec, !xor_ids_testbit by exact Hj.
  rewrite <- (dotb_unit k n (fun i => Z.testbit (ids !!! i) j)) by exact Hk.
  rewrite <- dotb_lxor. apply dotb_bits_ext. intros i Hi.
  apply row_mask_insert_bits; [exact Hn | lia].
Qed.

Variables (apa : Murmur.APA) (max_degree : Z) (switch_id : list Z)
          (num_hops : nat).

(** on entering hop [n], the XOR-set holds hops below [n] only and the
    accumulator is the XOR of their identifiers *)
Lemma generation_reach_inv (pktid : Z) (n : nat) (s : Murmur.loop_state) :
  reach (Murmur.hop apa max_degree switch_id pktid) Murmur.init_state n s ->
  (n <= num_hops)%nat ->
  (forall i, i ∈ Murmur.cur_xor_set s -> 0 <= i < Z.of_nat n) /\
  Murmur.pint s = xor_ids num_hops switch_id (Murmur.cur_xor_set s).
Proof.
  induction 1 as [| n s act s' Hreach IH Hstep]; intros Hn.
  - simpl. split; [intros i Hi; apply elem_of_empty in Hi; contradiction |].
    symmetry. apply xor_ids_empty.
  - destruct (IH ltac:(lia)) as [Hsub Hpint].
    unfold Murmur.hop in Hstep.
    destruct (_ >=? _); [discriminate |].
    destruct (py_getitem (Murmur.add_thresh apa) _) as [add_thr |];
      [| discriminate].
    destruct (py_getitem (Murmur.replace_thresh apa) _) as [rep_thr |];
      [| discriminate].
    cbv beta iota delta [mbind option_bind] in Hstep.
    assert (Hfresh : Z.of_nat n ∉ Murmur.cur_xor_set s)
      by (intros Hin; apply Hsub in Hin; lia).
    destruct (Murmur.threshold_action _ _ _).
    + destruct (py_getitem switch_id (Z.of_nat n)) as [id |] eqn:Hid;
        [| discriminate].
      apply py_getitem_nat in Hid as [Hid _].
      cbv beta iota delta [mbind option_bind] in Hstep.
      injection Hstep as _ <-. simpl. split.
      * intros i Hi. apply elem_of_union in Hi as [Hi | Hi].
        -- apply Hsub in Hi. lia.
        -- apply elem_of_singleton in Hi. lia.
      * rewrite (union_comm_L (Murmur.cur_xor_set s)).
        rewrite xor_ids_insert by (try assumption; lia).
        rewrite Hpint, Hid. reflexivity.
    + destruct (py_getitem switch_id (Z.of_nat n)) as [id |] eqn:Hid;
        [| discriminate].
      apply py_getitem_nat in Hid as [Hid _].
      cbv beta iota delta [mbind option_bind] in Hstep.
      injection Hstep as _ <-. simpl. split.
      * intros i Hi. apply elem_of_singleton in Hi. lia.
      * rewrite <- (right_id_L ∅ (∪) {[Z.of_nat n]}).
        rewrite xor_ids_insert by (try apply not_elem_of_empty; lia).
        rewrite xor_ids_empty, Hid. reflexivity.
    + injection Hstep as _ <-. split; [| exact Hpint].
      intros i Hi. apply Hsub in Hi. lia.
Qed.

(** every generated equation holds of the true identifiers *)
Lemma simulate_equations_hold (N : nat) (eqs : list PacketEquation) :
  Murmur.simulate_equations N apa num_hops max_degree switch_id = Some eqs ->
  length eqs = N /\
  forall eq, eq ∈ eqs ->
    xor_ids num_hops switch_id (xor_set eq) = final_pint eq.
Proof.
  unfold Murmur.simulate_equations. intros H.
  apply mapM_Some in H. split.
  - apply Forall2_length in H. rewrite length_seq in H. lia.
  - intros eq Hin. apply list_elem_of_lookup in Hin as [r Hr].
    destruct (Forall2_lookup_r _ _ _ _ _ H Hr) as (p & _ & Hp).
    destruct (Murmur.simulate_packet _ _ _ _ _) as [s |] eqn:Hs;
      [| discriminate].
    simpl in Hp. injection Hp as <-. simpl.
    unfold Murmur.simulate_packet in Hs.
    apply run_hops_reach in Hs as (n & Hn & Hreach).
    symmetry. exact (proj2 (generation_reach_inv _ n s Hreach Hn)).
Qed.

End Generation.

(** * C1: decoding the generated packets recovers the identifiers *)

Section RoundTrip.

Import Solver.

(** a vector that satisfies every equation solves every bit-plane *)
Lemma equations_sat (k : nat) (ids : list Z) (eqs : list PacketEquation)
      (j : nat) :
  (forall eq, eq ∈ eqs -> xor_ids k ids (xor_set eq) = final_pint eq) ->
  sat k (length eqs) (fun i => Z.testbit (ids !!! i) (Z.of_nat j))
      (build_masks k eqs) (rhs_bits j eqs).
Proof.
  intros Hhold r Hr. rewrite <- xor_ids_plane by exact Hr.
  rewrite rhs_bits_odd by exact Hr. f_equal. apply Hhold.
  apply list_elem_of_lookup. exists r.
  apply list_lookup_lookup_total_lt. exact Hr.
Qed.

Lemma solve_succeeds (k id_bits : nat) (ids : list Z)
      (eqs : list PacketEquation) :
  eqs ≠ [] ->
  (forall eq, eq ∈ eqs -> xor_ids k ids (xor_set eq) = final_pint eq) ->
  exists ids', solve_switch_ids eqs k id_bits = Some ids'.
Proof.
  intros Hne Hhold. unfold solve_switch_ids, solve_switch_ids_report.
  destruct (decide (length eqs = 0%nat)) as [E | E].
  { destruct eqs; [congruence | discriminate]. }
  destruct (solve_bits_consistent k eqs (seq 0 id_bits) (replicate k 0))
    as [ids' ->].
  - intros bit _. eapply plane_consistent. apply equations_sat. exact Hhold.
  - exists ids'. reflexivity.
Qed.

Lemma testbit_above (v : Z) (n j : nat) :
  0 <= v < 2 ^ Z.of_nat n -> (n <= j)%nat -> Z.testbit v (Z.of_nat j) = false.
Proof.
  intros Hv Hj. rewrite <- (Z.mod_small v (2 ^ Z.of_nat n)) by exact Hv.
  apply Z.mod_pow2_bits_high. lia.
Qed.

(** with full rank the solution of the system is unique *)
Lemma solve_unique (k id_bits : nat) (ids ids' : list Z)
      (eqs : list PacketEquation) :
  length ids = k ->
  (forall id, id ∈ ids -> 0 <= id < 2 ^ Z.of_nat id_bits) ->
  (forall eq, eq ∈ eqs -> xor_ids k ids (xor_set eq) = final_pint eq) ->
  gf2_rank k (build_masks k eqs) = k ->
  solve_switch_ids eqs k id_bits = Some ids' ->
  ids' = ids.
Proof.
  intros Hlen Hwide Hhold Hrank Hsolve.
  apply solve_switch_ids_bits in Hsolve as (_ & Hlen' & Hcons & Hbits).
  apply (list_eq_same_length _ _ k); [exact Hlen | exact Hlen' |].
  intros i v' v Hi Hv' Hv.
  apply list_lookup_total_correct in Hv', Hv. subst v v'.
  assert (Hrange : 0 <= ids !!! i < 2 ^ Z.of_nat id_bits).
  { apply Hwide. apply list_elem_of_lookup. exists i.
    apply list_lookup_lookup_total_lt. lia. }
  apply Z.bits_inj'. intros n Hn. rewrite <- (Z2Nat.id n Hn).
  set (j := Z.to_nat n). rewrite (Hbits i j Hi).
  destruct (decide (j < id_bits)%nat) as [Hj | Hj].
  - rewrite bool_decide_eq_true_2 by exact Hj. simpl.
    apply xorb_eq.
    apply (gf2_rank_full_kernel k (build_masks k eqs)
             (fun i => xorb (xplane k eqs j i)
                            (Z.testbit (ids !!! i) (Z.of_nat j))));
      [exact Hrank | | exact Hi].
    intros a Ha. apply list_elem_of_lookup in Ha as [r Hr].
    pose proof (lookup_lt_Some _ _ _ Hr) as Hrm.
    unfold build_masks in Hrm. rewrite length_fmap in Hrm.
    apply list_lookup_total_correct in Hr. subst a.
    rewrite dotb_xor_r.
    rewrite (plane_sound k j eqs (Hcons j Hj) r Hrm).
    rewrite (equations_sat k ids eqs j Hhold r Hrm).
    apply xorb_nilpotent.
  - rewrite bool_decide_eq_false_2 by exact Hj. simpl. symmetry.
    apply (testbit_above _ id_bits); [exact Hrange | lia].
Qed.

End RoundTrip.

(** C1 (amended). For every [id_bits]-wide identifier vector and every APA,
    if [N >= num_hops] packets, and at least one, are generated by the path
    simulator in generation mode and the row masks of the resulting
    equations have rank [num_hops] over GF(2), then [solve_switch_ids]
    returns exactly the original identifier vector. *)
Theorem generation_round_trip (apa : Murmur.APA) (max_degree : Z)
        (num_hops id_bits N : nat) (switch_id : list Z)
        (eqs : list PacketEquation) :
  length switch_id = num_hops ->
  (forall id, id ∈ switch_id -> 0 <= id < 2 ^ Z.of_nat id_bits) ->
  (num_hops <= N)%nat -> (1 <= N)%nat ->
  Murmur.simulate_equations N apa num_hops max_degree switch_id = Some eqs ->
  gf2_rank num_hops (Solver.build_masks num_hops eqs) = num_hops ->
  Solver.solve_switch_ids eqs num_hops id_bits = Some switch_id.
Proof.
  intros Hlen Hwide _ HN Hsim Hrank.
  apply simulate_equations_hold in Hsim as [HlenN Hhold].
  assert (Hne : eqs ≠ []) by (intros ->; simpl in HlenN; lia).
  destruct (solve_succeeds num_hops id_bits switch_id eqs Hne Hhold)
    as [ids' Hsolve].
  rewrite Hsolve. f_equal.
  eapply solve_unique; eassumption.
Qed.

Lemma generation_round_trip_witness :
  exists eqs,
    Murmur.simulate_equations 2
      (Murmur.mkAPA 2 2 (replicate 4 0x80000000) (replicate 4 0xC0000000))
      2 2 [0x1234; 0x5678] = Some eqs /\
    gf2_rank 2 (Solver.build_masks 2 eqs) = 2%nat /\
    Solver.solve_switch_ids eqs 2 16 = Some [0x1234; 0x5678].
Proof.
  eexists. split; [vm_compute; reflexivity |].
  split; [vm_compute; reflexivity |].
  apply (generation_round_trip
           (Murmur.mkAPA 2 2 (replicate 4 0x80000000) (replicate 4 0xC0000000))
           2 2 16 2 [0x1234; 0x5678]).
  - reflexivity.
  - intros id Hid. repeat (apply elem_of_cons in Hid as [-> | Hid]; [lia |]).
    apply elem_of_nil in Hid. contradiction.
  - lia.
  - lia.
  - vm_compute. reflexivity.
  - vm_compute. reflexivity.
Defined.

(** With no hop and no packet the hypotheses of the round trip hold (the
    empty system has rank 0), and the solver returns [None], not the empty
    identifier vector. *)
Lemma round_trip_fails_without_packets :
  Murmur.simulate_equations 0 (Murmur.mkAPA 0 32 [] []) 0 32 [] = Some [] /\
  (0 <= 0)%nat /\
  gf2_rank 0 (Solver.build_masks 0 []) = 0%nat /\
  Solver.solve_switch_ids [] 0 16 = None /\
  Solver.solve_switch_ids [] 0 16 ≠ Some [].
Proof.
  repeat split; try reflexivity; try lia. discriminate.
Qed.

(** * C6: one equation for two hops *)

Section SingleEquation.

Import Solver.

Lemma testbit_mod_pow2 (v : Z) (n j : nat) :
  Z.testbit (v mod 2 ^ Z.of_nat n) (Z.of_nat j) =
  bool_decide (j < n)%nat && Z.testbit v (Z.of_nat j).
Proof.
  destruct (decide (j < n)%nat) as [H | H].
  - rewrite bool_decide_eq_true_2 by exact H.
    apply Z.mod_pow2_bits_low. lia.
  - rewrite bool_decide_eq_false_2 by exact H.
    apply Z.mod_pow2_bits_high. lia.
Qed.

Lemma row_mask_two (s : gset Z) :
  row_mask 2 s = (if decide (0 ∈ s) then 1 else 0)
                 + (if decide (1 ∈ s) then 2 else 0).
Proof.
  apply Z.bits_inj'. intros n Hn. rewrite row_mask_testbit by exact Hn.
  destruct (decide (n = 0)) as [-> | H0];
    [| destruct (decide (n = 1)) as [-> | H1]].
  - destruct (decide (0 ∈ s)), (decide (1 ∈ s)); simpl;
      try (apply bool_decide_eq_true_2; split; [assumption | lia]);
      apply bool_decide_eq_false_2; tauto.
  - destruct (decide (0 ∈ s)), (decide (1 ∈ s)); simpl;
      try (apply bool_decide_eq_true_2; split; [assumption | lia]);
      apply bool_decide_eq_false_2; tauto.
  - rewrite bool_decide_eq_false_2 by lia. symmetry.
    rewrite <- (Z2Nat.id n Hn). apply (testbit_above _ 2); [| lia].
    destruct (decide (0 ∈ s)), (decide (1 ∈ s)); simpl; lia.
Qed.

(** the elimination of one row over two columns, for each non-zero mask *)
Lemma single_plane (mask b : Z) :
  mask = 1 \/ mask = 2 \/ mask = 3 -> is_bit b ->
  let st := gauss_cols 1 (seq 0 2) (mkSt [mask] [b] (replicate 2 (-1)) 0) in
  inconsistent 1 st = false /\
  xsol st 0 = Z.odd mask && Z.odd b /\
  xsol st 1 = negb (Z.odd mask) && Z.odd b.
Proof.
  intros [-> | [-> | ->]] [-> | ->]; vm_compute; repeat split; reflexivity.
Qed.

End SingleEquation.

(** C6. For [num_hops = 2] and a single equation whose [xor_set] meets
    [0, 2), [solve_switch_ids] returns a vector for every [final_pint]: the
    pivot hop (hop 0 when it is in the [xor_set], hop 1 otherwise) carries
    [final_pint] on its [id_bits] low bits and every bit of the other hop,
    which has no pivot, is zero. *)
Theorem single_equation_zero_fill (eq : PacketEquation) (id_bits : nat) :
  (exists i, i ∈ xor_set eq /\ 0 <= i < 2) ->
  Solver.solve_switch_ids [eq] 2 id_bits =
    Some (if decide (0 ∈ xor_set eq)
          then [final_pint eq mod 2 ^ Z.of_nat id_bits; 0]
          else [0; final_pint eq mod 2 ^ Z.of_nat id_bits]).
Proof.
  intros (i & Hi & Hrange).
  assert (Hmask : Solver.row_mask 2 (xor_set eq) = 1
                  \/ Solver.row_mask 2 (xor_set eq) = 2
                  \/ Solver.row_mask 2 (xor_set eq) = 3).
  { rewrite row_mask_two.
    destruct (decide (0 ∈ xor_set eq)), (decide (1 ∈ xor_set eq)); simpl;
      auto.
    assert (i = 0 \/ i = 1) as [-> | ->] by lia; contradiction. }
  assert (Hodd : Z.odd (Solver.row_mask 2 (xor_set eq))
                 = bool_decide (0 ∈ xor_set eq)).
  { rewrite <- Z.bit0_odd, row_mask_testbit by lia.
    apply bool_decide_ext. intuition lia. }
  assert (Hplane : forall j,
            plane_inconsistent 2 [eq] j = false /\
            xplane 2 [eq] j 0
              = bool_decide (0 ∈ xor_set eq)
                && Z.testbit (final_pint eq) (Z.of_nat j) /\
            xplane 2 [eq] j 1
              = negb (bool_decide (0 ∈ xor_set eq))
                && Z.testbit (final_pint eq) (Z.of_nat j)).
  { intros j. unfold plane_inconsistent, xplane, Solver.gauss. simpl.
    rewrite <- Hodd, <- (odd_b2z (Z.testbit (final_pint eq) (Z.of_nat j))).
    rewrite <- bit_at_b2z.
    apply (single_plane _ _ Hmask). rewrite bit_at_b2z. apply is_bit_b2z. }
  destruct (solve_bits_consistent 2 [eq] (seq 0 id_bits) (replicate 2 0))
    as [ids Hids]; [intros bit _; apply Hplane |].
  assert (Hsolve : Solver.solve_switch_ids [eq] 2 id_bits = Some ids).
  { unfold Solver.solve_switch_ids, Solver.solve_switch_ids_report. simpl.
    simpl in Hids. rewrite Hids. reflexivity. }
  rewrite Hsolve. f_equal.
  apply solve_switch_ids_bits in Hsolve as (_ & Hlen & _ & Hbits).
  destruct ids as [| v0 [| v1 [| ? ?]]]; try discriminate.
  assert (H0 : v0 = if decide (0 ∈ xor_set eq)
                    then final_pint eq mod 2 ^ Z.of_nat id_bits else 0).
  { apply Z.bits_inj'. intros n Hn. rewrite <- (Z2Nat.id n Hn).
    pose proof (Hbits 0%nat (Z.to_nat n) ltac:(lia)) as Hb. simpl in Hb.
    rewrite Hb, (proj1 (proj2 (Hplane _))).
    destruct (decide (0 ∈ xor_set eq)).
    - rewrite (bool_decide_eq_true_2 (0 ∈ xor_set eq)) by assumption.
      rewrite testbit_mod_pow2. reflexivity.
    - rewrite (bool_decide_eq_false_2 (0 ∈ xor_set eq)) by assumption.
      rewrite Z.bits_0. apply andb_false_r. }
  assert (H1 : v1 = if decide (0 ∈ xor_set eq)
                    then 0 else final_pint eq mod 2 ^ Z.of_nat id_bits).
  { apply Z.bits_inj'. intros n Hn. rewrite <- (Z2Nat.id n Hn).
    pose proof (Hbits 1%nat (Z.to_nat n) ltac:(lia)) as Hb. simpl in Hb.
    rewrite Hb, (proj2 (proj2 (Hplane _))).
    destruct (decide (0 ∈ xor_set eq)).
    - rewrite (bool_decide_eq_true_2 (0 ∈ xor_set eq)) by assumption.
      rewrite Z.bits_0. apply andb_false_r.
    - rewrite (bool_decide_eq_false_2 (0 ∈ xor_set eq)) by assumption.
      rewrite testbit_mod_pow2. reflexivity. }
  rewrite H0, H1. destruct (decide (0 ∈ xor_set eq)); reflexivity.
Qed.

Lemma single_equation_zero_fill_witness :
  (exists i, i ∈ xor_set (mkEq 7 0x444C {[0; 1]}) /\ 0 <= i < 2) /\
  Solver.solve_switch_ids [mkEq 7 0x444C {[0; 1]}] 2 16 = Some [0x444C; 0].
Proof.
  assert (H : exists i, i ∈ xor_set (mkEq 7 0x444C {[0; 1]}) /\ 0 <= i < 2).
  { exists 1. split; [simpl; set_solver | lia]. }
  split; [exact H |].
  exact (single_equation_zero_fill (mkEq 7 0x444C {[0; 1]}) 16 H).
Defined.

(** * C5: two equations that contradict each other *)

Section Contradiction.

Import Solver.

Lemma bounded_search (p : nat -> bool) (k : nat) :
  (exists c, (c < k)%nat /\ p c = true) \/
  (forall c, (c < k)%nat -> p c = false).
Proof.
  induction k as [| k [(c & Hc & Hp) | IH]].
  - right. intros c Hc. lia.
  - left. exists c. split; [lia | exact Hp].
  - destruct (p k) eqn:E.
    + left. exists k. split; [lia | exact E].
    + right. intros c Hc. destruct (decide (c = k)) as [-> | Hne];
        [exact E | apply IH; lia].
Qed.

Lemma row_mask_nonzero_bit (k : nat) (s : gset Z) :
  row_mask k s ≠ 0 ->
  exists c, (c < k)%nat /\ Z.testbit (row_mask k s) (Z.of_nat c) = true.
Proof.
  intros Hne.
  destruct (bounded_search (fun c => Z.testbit (row_mask k s) (Z.of_nat c)) k)
    as [H | H]; [exact H |].
  exfalso. apply Hne. apply Z.bits_inj'. intros n Hn. rewrite Z.bits_0.
  destruct (decide (n < Z.of_nat k)) as [Hlt | Hge].
  - rewrite <- (Z2Nat.id n Hn). apply H. lia.
  - rewrite row_mask_testbit by exact Hn. apply bool_decide_eq_false_2. lia.
Qed.

(** the first inconsistent plane stops the loop over the bit-planes *)
Lemma solve_bits_stops (k : nat) (eqs : list PacketEquation) (len : nat) :
  forall start ids j,
    (start <= j < start + len)%nat ->
    plane_inconsistent k eqs j = true ->
    exists b, (start <= b <= j)%nat /\
      solve_bits (build_masks k eqs) eqs k (seq start len) ids
        = Inconsistent b /\
      plane_inconsistent k eqs b = true.
Proof.
  induction len as [| len IH]; intros start ids j Hj Hbad; [lia |].
  simpl. fold (plane_inconsistent k eqs start).
  destruct (plane_inconsistent k eqs start) eqn:E.
  - exists start. split; [lia |]. split; [reflexivity | exact E].
  - assert (start ≠ j) by congruence.
    destruct (IH (S start)
                 (accumulate k start
                    (back_subst k (gauss (build_masks k eqs) eqs k start))
                    ids) j ltac:(lia) Hbad) as (b & Hb & Hs & Hbb).
    exists b. split; [lia |]. split; assumption.
Qed.

Lemma pair_plane_bad (k b : nat) (e1 e2 : PacketEquation) :
  row_mask k (xor_set e1) = row_mask k (xor_set e2) ->
  Z.testbit (final_pint e1) (Z.of_nat b)
    ≠ Z.testbit (final_pint e2) (Z.of_nat b) ->
  plane_inconsistent k [e1; e2] b = true.
Proof.
  intros Hmask Hdiff.
  destruct (plane_inconsistent k [e1; e2] b) eqn:E; [reflexivity |].
  exfalso. apply Hdiff. pose proof (plane_sound k b [e1; e2] E) as Hsat.
  pose proof (Hsat 0%nat ltac:(simpl; lia)) as H0.
  pose proof (Hsat 1%nat ltac:(simpl; lia)) as H1.
  rewrite rhs_bits_odd in H0, H1 by (simpl; lia). simpl in H0, H1.
  rewrite <- H0, <- H1, Hmask. reflexivity.
Qed.

Lemma pair_plane_good (k j : nat) (e1 e2 : PacketEquation) :
  row_mask k (xor_set e1) = row_mask k (xor_set e2) ->
  row_mask k (xor_set e1) ≠ 0 ->
  Z.testbit (final_pint e1) (Z.of_nat j)
    = Z.testbit (final_pint e2) (Z.of_nat j) ->
  plane_inconsistent k [e1; e2] j = false.
Proof.
  intros Hmask Hne Hsame.
  destruct (row_mask_nonzero_bit k _ Hne) as (c & Hc & Hbit).
  apply (plane_consistent k j [e1; e2]
           (fun i => bool_decide (i = c)
                     && Z.testbit (final_pint e1) (Z.of_nat j))).
  assert (Hrow : dotb k (row_mask k (xor_set e1))
                   (fun i => bool_decide (i = c)
                             && Z.testbit (final_pint e1) (Z.of_nat j))
                 = Z.testbit (final_pint e1) (Z.of_nat j)).
  { rewrite (dotb_single k _ _ c Hc).
    - rewrite Hbit, bool_decide_eq_true_2 by reflexivity. reflexivity.
    - intros i Hi Hic. rewrite (bool_decide_eq_false_2 (i = c)) by exact Hic.
      apply andb_false_r. }
  intros r Hr. rewrite rhs_bits_odd by exact Hr.
  destruct r as [| [| r]]; simpl in *; [exact Hrow | | lia].
  rewrite <- Hmask, <- Hsame. exact Hrow.
Qed.

End Contradiction.

(** C5 (amended). Two equations with the same row mask whose [final_pint]
    differ at a bit [b < id_bits], [b] being the smallest such bit, make
    [solve_switch_ids] fail: it returns [None] and reports an inconsistent
    bit-plane that is at most [b], and that is [b] itself when the common
    row mask is not zero. *)
Theorem contradicting_pair_fails (e1 e2 : PacketEquation)
        (num_hops id_bits b : nat) :
  Solver.row_mask num_hops (xor_set e1) = Solver.row_mask num_hops (xor_set e2) ->
  (b < id_bits)%nat ->
  Z.testbit (final_pint e1) (Z.of_nat b)
    ≠ Z.testbit (final_pint e2) (Z.of_nat b) ->
  (forall j, (j < b)%nat ->
     Z.testbit (final_pint e1) (Z.of_nat j)
       = Z.testbit (final_pint e2) (Z.of_nat j)) ->
  exists b', (b' <= b)%nat /\
    Solver.solve_switch_ids_report [e1; e2] num_hops id_bits
      = Solver.Inconsistent b' /\
    Solver.solve_switch_ids [e1; e2] num_hops id_bits = None /\
    (Solver.row_mask num_hops (xor_set e1) ≠ 0 -> b' = b).
Proof.
  intros Hmask Hb Hdiff Hlow.
  pose proof (pair_plane_bad num_hops b e1 e2 Hmask Hdiff) as Hbad.
  destruct (solve_bits_stops num_hops [e1; e2] id_bits 0
              (replicate num_hops 0) b ltac:(lia) Hbad)
    as (b' & Hb' & Hs & Hbb).
  assert (Hrep : Solver.solve_switch_ids_report [e1; e2] num_hops id_bits
                 = Solver.Inconsistent b').
  { unfold Solver.solve_switch_ids_report. simpl. exact Hs. }
  exists b'. split; [lia |]. split; [exact Hrep |]. split.
  - unfold Solver.solve_switch_ids. rewrite Hrep. reflexivity.
  - intros Hne. destruct (decide (b' = b)) as [E | E]; [exact E |].
    rewrite (pair_plane_good num_hops b' e1 e2 Hmask Hne) in Hbb;
      [discriminate |].
    apply Hlow. lia.
Qed.

Lemma contradicting_pair_fails_witness :
  exists b', (b' <= 1)%nat /\
    Solver.solve_switch_ids_report [mkEq 0 1 {[0]}; mkEq 1 3 {[0]}] 1 16
      = Solver.Inconsistent b' /\
    Solver.solve_switch_ids [mkEq 0 1 {[0]}; mkEq 1 3 {[0]}] 1 16 = None /\
    (Solver.row_mask 1 (xor_set (mkEq 0 1 {[0]})) ≠ 0 -> b' = 1%nat).
Proof.
  apply (contradicting_pair_fails (mkEq 0 1 {[0]}) (mkEq 1 3 {[0]}) 1 16 1).
  - reflexivity.
  - lia.
  - simpl. discriminate.
  - intros j Hj. assert (j = 0%nat) as -> by lia. reflexivity.
Defined.

(** Two equations with empty XOR-sets and [final_pint] 1 and 3 differ at
    bit 1 only; the solver reports bit-plane 0, where both say [0 = 1]. *)
Lemma contradicting_pair_reports_lower_plane :
  Solver.row_mask 1 (xor_set (mkEq 0 1 ∅))
    = Solver.row_mask 1 (xor_set (mkEq 1 3 ∅)) /\
  Z.testbit 1 0 = Z.testbit 3 0 /\
  Z.testbit 1 1 ≠ Z.testbit 3 1 /\
  Solver.solve_switch_ids_report [mkEq 0 1 ∅; mkEq 1 3 ∅] 1 16
    = Solver.Inconsistent 0 /\
  Solver.solve_switch_ids_report [mkEq 0 1 ∅; mkEq 1 3 ∅] 1 16
    ≠ Solver.Inconsistent 1.
Proof.
  repeat split; try reflexivity; discriminate.
Qed.

(** * C4: the ADD step and the degree counter *)

Section DegreeCounter.

Lemma decoding_hop_ADD (apa : Decoding.APA) (max_degree pktid : Z) (n : nat)
      (s s' : Decoding.loop_state) :
  Decoding.hop apa max_degree pktid n s = Some (Next ADD s') ->
  Decoding.cur_xor_set s' = toggle (Z.of_nat n) (Decoding.cur_xor_set s) /\
  Decoding.xor_degree s' = (Decoding.xor_degree s + 1) mod max_degree.
Proof.
  unfold Decoding.hop. intros H.
  destruct (_ >=? _); [discriminate |].
  destruct (py_getitem (Decoding.probs_a apa) _); [| discriminate].
  destruct (py_getitem (Decoding.probs_cum apa) _); [| discriminate].
  destruct (Decoding.recipe_hash_v4 _ _); [| discriminate].
  cbv beta iota delta [mbind option_bind] in H.
  destruct (Decoding._p4_add_decision _ _).
  - destruct (max_degree =? 0); [discriminate |].
    injection H as <-. simpl. split; reflexivity.
  - destruct (Decoding._p4_replace_decision _ _); discriminate.
Qed.

Lemma decoding_degree_range (apa : Decoding.APA) (max_degree pktid : Z)
      (n : nat) (s : Decoding.loop_state) :
  2 <= max_degree ->
  reach (Decoding.hop apa max_degree pktid) Decoding.init_state n s ->
  0 <= Decoding.xor_degree s < max_degree.
Proof.
  intros Hmd. induction 1 as [| n s act s' Hreach IH Hstep]; [simpl; lia |].
  unfold Decoding.hop in Hstep.
  destruct (_ >=? _); [discriminate |].
  destruct (py_getitem (Decoding.probs_a apa) _); [| discriminate].
  destruct (py_getitem (Decoding.probs_cum apa) _); [| discriminate].
  destruct (Decoding.recipe_hash_v4 _ _); [| discriminate].
  cbv beta iota delta [mbind option_bind] in Hstep.
  destruct (Decoding._p4_add_decision _ _).
  - destruct (max_degree =? 0); [discriminate |].
    injection Hstep as _ <-. simpl. apply Z.mod_pos_bound. lia.
  - destruct (Decoding._p4_replace_decision _ _);
      injection Hstep as _ <-; simpl; [lia | exact IH].
Qed.

Lemma generation_hop_ADD (apa : Murmur.APA) (max_degree : Z)
      (switch_id : list Z) (pktid : Z) (n : nat) (s s' : Murmur.loop_state) :
  reach (Murmur.hop apa max_degree switch_id pktid) Murmur.init_state n s ->
  Murmur.hop apa max_degree switch_id pktid n s = Some (Next ADD s') ->
  Murmur.cur_xor_set s' = toggle (Z.of_nat n) (Murmur.cur_xor_set s).
Proof.
  intros Hreach H.
  destruct (generation_reach_inv apa max_degree switch_id n pktid n s
              Hreach ltac:(lia)) as [Hsub _].
  assert (Hfresh : Z.of_nat n ∉ Murmur.cur_xor_set s)
    by (intros Hin; apply Hsub in Hin; lia).
  unfold toggle. rewrite decide_False by exact Hfresh.
  unfold Murmur.hop in H.
  destruct (_ >=? _); [discriminate |].
  destruct (py_getitem (Murmur.add_thresh apa) _); [| discriminate].
  destruct (py_getitem (Murmur.replace_thresh apa) _); [| discriminate].
  cbv beta iota delta [mbind option_bind] in H.
  destruct (Murmur.threshold_action _ _ _).
  - destruct (py_getitem switch_id _); [| discriminate].
    cbv beta iota delta [mbind option_bind] in H.
    injection H as <-. reflexivity.
  - destruct (py_getitem switch_id _); discriminate.
  - discriminate.
Qed.

End DegreeCounter.

(** C4 (amended). In the decode-mode simulation of the Equation Builder,
    an ADD at a hop toggles the hop's membership in the XOR-set and
    increments [xor_degree] modulo [max_degree]; when [max_degree >= 2],
    [xor_degree] stays in [0, max_degree) at every step and the APA index
    [hop * max_degree + xor_degree] stays among the cells of that hop. In
    the generation-mode simulation an ADD toggles the hop's membership in
    the XOR-set as well. *)
Theorem add_step_and_degree_range :
  (forall (apa : Decoding.APA) (max_degree pktid : Z) (n : nat)
          (s : Decoding.loop_state),
      2 <= max_degree ->
      reach (Decoding.hop apa max_degree pktid) Decoding.init_state n s ->
      0 <= Decoding.xor_degree s < max_degree /\
      Z.of_nat n * max_degree
        <= Z.of_nat n * max_degree + Decoding.xor_degree s
        < (Z.of_nat n + 1) * max_degree /\
      forall s', Decoding.hop apa max_degree pktid n s = Some (Next ADD s') ->
        Decoding.cur_xor_set s'
          = toggle (Z.of_nat n) (Decoding.cur_xor_set s) /\
        Decoding.xor_degree s'
          = (Decoding.xor_degree s + 1) mod max_degree) /\
  (forall (apa : Murmur.APA) (max_degree : Z) (switch_id : list Z)
          (pktid : Z) (n : nat) (s s' : Murmur.loop_state),
      reach (Murmur.hop apa max_degree switch_id pktid)
            Murmur.init_state n s ->
      Murmur.hop apa max_degree switch_id pktid n s = Some (Next ADD s') ->
      Murmur.cur_xor_set s' = toggle (Z.of_nat n) (Murmur.cur_xor_set s)).
Proof.
  split.
  - intros apa max_degree pktid n s Hmd Hreach.
    pose proof (decoding_degree_range apa max_degree pktid n s Hmd Hreach).
    split; [assumption |]. split; [rewrite Z.mul_add_distr_r; lia |].
    intros s'. apply decoding_hop_ADD.
  - intros apa max_degree switch_id pktid n s s'. apply generation_hop_ADD.
Qed.

(** packet 0 over a table whose first cell always adds *)
Lemma add_step_and_degree_range_witness :
  exists s s',
    reach (Decoding.hop (Decoding.mkAPA 2 2 (replicate 4 0xFFFFFFFF)
                                        (replicate 4 0xFFFFFFFF)) 2 0)
          Decoding.init_state 1 s /\
    0 <= Decoding.xor_degree s < 2 /\
    Decoding.hop (Decoding.mkAPA 2 2 (replicate 4 0xFFFFFFFF)
                                 (replicate 4 0xFFFFFFFF)) 2 0 1 s
      = Some (Next ADD s') /\
    Decoding.xor_degree s' = (Decoding.xor_degree s + 1) mod 2.
Proof.
  eexists. eexists.
  assert (Hreach :
    reach (Decoding.hop (Decoding.mkAPA 2 2 (replicate 4 0xFFFFFFFF)
                                        (replicate 4 0xFFFFFFFF)) 2 0)
          Decoding.init_state 1
          (Decoding.mkLoop 1 (Decoding.cur_xor_set Decoding.init_state
                              ∪ {[Z.of_nat 0]}))).
  { eapply reach_next; [apply reach_start | vm_compute; reflexivity]. }
  destruct (proj1 add_step_and_degree_range _ 2 0 1%nat _ ltac:(lia) Hreach)
    as (Hrange & _ & Hadd).
  split; [exact Hreach |]. split; [exact Hrange |].
  assert (Hstep :
    Decoding.hop (Decoding.mkAPA 2 2 (replicate 4 0xFFFFFFFF)
                                 (replicate 4 0xFFFFFFFF)) 2 0 1
                 (Decoding.mkLoop 1 (Decoding.cur_xor_set Decoding.init_state
                                     ∪ {[Z.of_nat 0]}))
    = Some (Next ADD (Decoding.mkLoop 0
              (Decoding.cur_xor_set Decoding.init_state
               ∪ {[Z.of_nat 0]} ∪ {[Z.of_nat 1]}))))
    by (vm_compute; reflexivity).
  split; [exact Hstep |]. exact (proj2 (Hadd _ Hstep)).
Defined.

(** In generation mode three ADDs in a row with [max_degree = 2] bring
    [xor_degree] to 2, and the index of hop 2 is then the first cell of
    hop 3; in decode mode a REPLACE with [max_degree = 1] sets [xor_degree]
    to 1, and the index of hop 1 is then the cell of hop 2. *)
Lemma xor_degree_leaves_its_range :
  (exists s,
     reach (Murmur.hop (Murmur.mkAPA 4 2 (replicate 8 0xFFFFFFFF)
                                     (replicate 8 0xFFFFFFFF))
                       2 [1; 2; 3] 0)
           Murmur.init_state 2 s /\
     Murmur.xor_degree s = 2 /\
     ~ (0 <= Murmur.xor_degree s < 2) /\
     2 * 2 + Murmur.xor_degree s = 3 * 2 + 0) /\
  (exists s,
     reach (Decoding.hop (Decoding.mkAPA 3 1 [0; 0; 0] [0; 0; 0]) 1 0)
           Decoding.init_state 1 s /\
     Decoding.xor_degree s = 1 /\
     ~ (0 <= Decoding.xor_degree s < 1) /\
     1 * 1 + Decoding.xor_degree s = 2 * 1 + 0).
Proof.
  split.
  - eexists. split.
    + eapply reach_next;
        [eapply reach_next; [apply reach_start | vm_compute; reflexivity]
        | vm_compute; reflexivity].
    + simpl. repeat split; lia.
  - eexists. split.
    + eapply reach_next; [apply reach_start | vm_compute; reflexivity].
    + simpl. repeat split; lia.
Qed.

(** * C2 and C3: the two decision policies *)

Section Policies.

Lemma sign_bit_range (x : Z) :
  0 <= x < 2 ^ 32 ->
  Decoding._sign_bit x = if x <? 2 ^ 31 then 0 else 1.
Proof.
  intros Hx. unfold Decoding._sign_bit.
  rewrite Z.shiftr_div_pow2 by lia.
  destruct (Z.ltb_spec x (2 ^ 31)).
  - rewrite Z.div_small by lia. reflexivity.
  - replace (x / 2 ^ 31) with 1; [reflexivity |].
    apply (Z.div_unique x (2 ^ 31) 1 (x - 2 ^ 31)); lia.
Qed.

Lemma land_mask32 (x : Z) : Z.land x 0xFFFFFFFF = x mod 2 ^ 32.
Proof. change 0xFFFFFFFF with (Z.ones 32). apply Z.land_ones. lia. Qed.

(** the REPLACE decision of the source only compares the two sign bits *)
Lemma p4_replace_is_sign_equality (hash_id cum_prob : Z) :
  Decoding._p4_replace_decision hash_id cum_prob =
  (Decoding._sign_bit (Z.land hash_id 0xFFFFFFFF)
   =? Decoding._sign_bit (Z.land cum_prob 0xFFFFFFFF)).
Proof.
  unfold Decoding._p4_replace_decision. cbv zeta.
  assert (Hbit : forall x, Decoding._sign_bit x = 0 \/ Decoding._sign_bit x = 1).
  { intros x. unfold Decoding._sign_bit. rewrite land_1_b2z.
    destruct (Z.odd _); auto. }
  destruct (Hbit (Z.land hash_id 0xFFFFFFFF)) as [-> | ->],
    (Hbit (Z.land cum_prob 0xFFFFFFFF)) as [-> | ->]; reflexivity.
Qed.

(** the ADD decision of the source is the unsigned comparison *)
Lemma p4_add_is_unsigned_lt (h a : Z) :
  0 <= h < 2 ^ 32 -> 0 <= a < 2 ^ 32 ->
  Decoding._p4_add_decision h a = (h <? a).
Proof.
  intros Hh Ha. unfold Decoding._p4_add_decision. cbv zeta.
  rewrite !land_mask32.
  rewrite (Z.mod_small h), (Z.mod_small a) by assumption.
  assert (Hres : 0 <= (h - a) mod 2 ^ 32 < 2 ^ 32)
    by (apply Z.mod_pos_bound; lia).
  rewrite !sign_bit_range by assumption.
  destruct (Z.ltb_spec h (2 ^ 31)), (Z.ltb_spec a (2 ^ 31)); simpl.
  - destruct (Z.ltb_spec h a).
    + replace ((h - a) mod 2 ^ 32) with (h - a + 2 ^ 32)
        by (apply Z.mod_unique with (-1); lia).
      destruct (Z.ltb_spec (h - a + 2 ^ 32) (2 ^ 31)); [lia | reflexivity].
    + rewrite Z.mod_small by lia.
      destruct (Z.ltb_spec (h - a) (2 ^ 31)); [reflexivity | lia].
  - symmetry. apply Z.ltb_lt. lia.
  - symmetry. apply Z.ltb_ge. lia.
  - destruct (Z.ltb_spec h a).
    + replace ((h - a) mod 2 ^ 32) with (h - a + 2 ^ 32)
        by (apply Z.mod_unique with (-1); lia).
      destruct (Z.ltb_spec (h - a + 2 ^ 32) (2 ^ 31)); [lia | reflexivity].
    + rewrite Z.mod_small by lia.
      destruct (Z.ltb_spec (h - a) (2 ^ 31)); [reflexivity | lia].
Qed.

End Policies.

Example symmetric_rule_is_add_rule :
  symmetric_replace_rule 0x10000000 0x20000000
  = Decoding._p4_add_decision 0x20000000 0x10000000.
Proof. reflexivity. Qed.

(** C2. At [h = 0x10000000] and [replace_threshold = 0x20000000] the
    threshold is not below [h]: the symmetric sign-overflow rule does not
    decide REPLACE, and [_p4_replace_decision] does. *)
Theorem p4_replace_differs_from_symmetric_rule :
  Decoding._p4_replace_decision 0x10000000 0x20000000 = true /\
  symmetric_replace_rule 0x10000000 0x20000000 = false.
Proof. split; reflexivity. Qed.

(** C3. Policy A (plain unsigned compare) and Policy B (signed-subtraction
    emulation) are not equivalent: for some 32-bit hash and thresholds the
    two policies take different actions. *)
Theorem policies_not_equivalent :
  exists h add_threshold replace_threshold : Z,
    (0 <= h < 2 ^ 32) /\
    (0 <= add_threshold < 2 ^ 32) /\
    (0 <= replace_threshold < 2 ^ 32) /\
    Murmur.threshold_action h add_threshold replace_threshold
      ≠ Decoding.p4_action h add_threshold replace_threshold.
Proof.
  exists 0x10000000, 0, 0x20000000.
  repeat split; try lia. vm_compute. discriminate.
Qed.

(** * C10: the domain of the checksum hash *)

Section HashDomain.

Lemma pack_be_Some (nbytes : nat) (x : Z) :
  is_Some (Decoding.pack_be nbytes x) <-> 0 <= x < 2 ^ (8 * Z.of_nat nbytes).
Proof.
  unfold Decoding.pack_be.
  destruct (Z.leb_spec 0 x), (Z.ltb_spec x (2 ^ (8 * Z.of_nat nbytes)));
    simpl; split; intros Hs; try lia; try (eexists; reflexivity);
    destruct Hs; discriminate.
Qed.

End HashDomain.

(** C10. [recipe_hash_v4] of [decoding.py] returns a value in [0, 2^32)
    when [packet_id] is in [0, 2^16) and [hop_id] in [0, 2^8), and raises
    the packing error for every other pair of integers. *)
Theorem recipe_hash_v4_domain (packet_id hop_id : Z) :
  (0 <= packet_id < 2 ^ 16 /\ 0 <= hop_id < 2 ^ 8 /\
   exists v, Decoding.recipe_hash_v4 packet_id hop_id = Some v /\
             0 <= v < 2 ^ 32) \/
  (~ (0 <= packet_id < 2 ^ 16 /\ 0 <= hop_id < 2 ^ 8) /\
   Decoding.recipe_hash_v4 packet_id hop_id = None).
Proof.
  unfold Decoding.recipe_hash_v4. cbv zeta.
  change (Decoding.pack_be 4 Decoding.SRC_IP_U32) with (Some [10; 0; 0; 1]).
  change (Decoding.pack_be 4 Decoding.DST_IP_U32) with (Some [10; 0; 0; 2]).
  change (Decoding.pack_be 1 Decoding.IP_PROTO_RECIPE) with (Some [146]).
  cbv beta iota delta [mbind option_bind].
  destruct (Decoding.pack_be 2 packet_id) as [b_id |] eqn:Eid.
  - destruct (Decoding.pack_be 1 hop_id) as [b_hop |] eqn:Ehop.
    + left.
      assert (Hid : is_Some (Decoding.pack_be 2 packet_id)) by eauto.
      assert (Hhop : is_Some (Decoding.pack_be 1 hop_id)) by eauto.
      apply pack_be_Some in Hid, Hhop.
      split; [exact Hid |]. split; [exact Hhop |].
      eexists. split; [reflexivity |].
      rewrite land_mask32. apply Z.mod_pos_bound. lia.
    + right. split; [| reflexivity]. intros [_ Hhop].
      apply (pack_be_Some 1) in Hhop. rewrite Ehop in Hhop.
      destruct Hhop. discriminate.
  - right. split; [| reflexivity]. intros [Hid _].
    apply (pack_be_Some 2) in Hid. rewrite Eid in Hid.
    destruct Hid. discriminate.
Qed.

(** * C9: the outcomes of [load_apa] *)

Section LoadApa.

Import Loader.

Variable float_of_string : string -> option spec_float.

Lemma py_setitem_in_range (l : list Z) (i v : Z) :
  0 <= i < Z.of_nat (length l) ->
  exists l', py_setitem l i v = Some l' /\ length l' = length l.
Proof.
  intros Hi. unfold py_setitem.
  rewrite (proj2 (Z.leb_le 0 i)), (proj2 (Z.ltb_lt i _)) by lia. simpl.
  eexists. split; [reflexivity | apply length_insert].
Qed.

Lemma fill_degree_ok (parts : list string) (hop_idx : nat) (max_degree : Z)
      (d L : nat) (arrs : list Z * list Z) :
  length arrs.1 = L -> length arrs.2 = L ->
  (2 * d + 1 < length parts)%nat ->
  (forall field, field ∈ parts ->
     exists x, float_of_string field = Some x /\ is_Some (fixed32 x)) ->
  0 <= Z.of_nat hop_idx * max_degree + Z.of_nat d < Z.of_nat L ->
  exists arrs', fill_degree float_of_string parts hop_idx max_degree d arrs
                = Some arrs' /\
                length arrs'.1 = L /\ length arrs'.2 = L.
Proof.
  intros H1 H2 Hd Hconv Hidx. unfold fill_degree.
  destruct (lookup_lt_is_Some_2 parts (2 * d)%nat ltac:(lia)) as [s_add Hs1].
  destruct (lookup_lt_is_Some_2 parts (2 * d + 1)%nat ltac:(lia))
    as [s_cum Hs2].
  destruct (Hconv s_add) as (p_add & Hp1 & [v_add Hv1]);
    [eapply list_elem_of_lookup_2; exact Hs1 |].
  destruct (Hconv s_cum) as (p_cum & Hp2 & [v_cum Hv2]);
    [eapply list_elem_of_lookup_2; exact Hs2 |].
  destruct (py_setitem_in_range arrs.1
              (Z.of_nat hop_idx * max_degree + Z.of_nat d) v_add)
    as (a' & Ha & Hla); [lia |].
  destruct (py_setitem_in_range arrs.2
              (Z.of_nat hop_idx * max_degree + Z.of_nat d) v_cum)
    as (c' & Hc & Hlc); [lia |].
  rewrite Hs1. cbv beta iota delta [mbind option_bind].
  rewrite Hp1, Hs2. cbv beta iota delta [mbind option_bind].
  rewrite Hp2, Hv1. cbv beta iota delta [mbind option_bind].
  rewrite Ha, Hv2. cbv beta iota delta [mbind option_bind].
  rewrite Hc. exists (a', c'). simpl. repeat split; lia.
Qed.

Lemma fill_degrees_ok (parts : list string) (hop_idx : nat) (max_degree : Z)
      (L : nat) (ds : list nat) :
  forall arrs,
    length arrs.1 = L -> length arrs.2 = L ->
    (forall field, field ∈ parts ->
       exists x, float_of_string field = Some x /\ is_Some (fixed32 x)) ->
    (forall d, d ∈ ds ->
       (2 * d + 1 < length parts)%nat /\
       0 <= Z.of_nat hop_idx * max_degree + Z.of_nat d < Z.of_nat L) ->
    exists arrs', fill_degrees float_of_string parts hop_idx max_degree ds arrs
                  = Some arrs' /\
                  length arrs'.1 = L /\ length arrs'.2 = L.
Proof.
  induction ds as [| d ds IH]; intros arrs H1 H2 Hconv Hds; simpl.
  - exists arrs. repeat split; assumption.
  - destruct (Hds d (list_elem_of_here _ _)) as [Hd Hidx].
    destruct (fill_degree_ok parts hop_idx max_degree d L arrs
                H1 H2 Hd Hconv Hidx) as (arrs1 & -> & L1 & L2).
    cbv beta iota delta [mbind option_bind].
    apply IH; try assumption.
    intros d' Hd'. apply Hds. apply list_elem_of_further. exact Hd'.
Qed.

Lemma load_line_violates (max_degree : Z) (hop_idx : nat) (line : string)
      (arrs : list Z * list Z) :
  violates max_degree line ->
  exists e, load_line float_of_string max_degree hop_idx line arrs = inl e /\
            error_line e = Some hop_idx.
Proof.
  unfold violates, load_line. cbv zeta. intros Hv.
  destruct (Z.eqb_spec (Z.of_nat (length (parts_of line)) mod 2) 0) as [E | E];
    cbv beta iota delta [negb].
  - destruct Hv as [Hodd | Hdeg]; [contradiction |].
    rewrite (proj2 (Z.gtb_gt _ _)) by exact Hdeg.
    eexists. split; reflexivity.
  - eexists. split; reflexivity.
Qed.

Lemma load_line_ok (max_degree : Z) (hop_idx : nat) (line : string)
      (L : nat) (arrs : list Z * list Z) :
  ~ violates max_degree line -> converts float_of_string line ->
  length arrs.1 = L -> length arrs.2 = L ->
  (Z.of_nat hop_idx + 1) * max_degree <= Z.of_nat L ->
  exists arrs', load_line float_of_string max_degree hop_idx line arrs
                = inr arrs' /\
                length arrs'.1 = L /\ length arrs'.2 = L.
Proof.
  unfold violates, load_line. cbv zeta. intros Hv Hconv H1 H2 HL.
  destruct (Z.eqb_spec (Z.of_nat (length (parts_of line)) mod 2) 0) as [E | E];
    [| tauto]. cbv beta iota delta [negb].
  destruct (Z.gtb_spec (Z.of_nat (length (parts_of line) / 2)) max_degree)
    as [Hgt | Hle]; [exfalso; apply Hv; right; lia |].
  destruct (fill_degrees_ok (parts_of line) hop_idx max_degree L
              (seq 0 (length (parts_of line) / 2)) arrs H1 H2 Hconv)
    as (arrs' & -> & L1 & L2).
  - intros d Hd. apply elem_of_seq in Hd.
    pose proof (Nat.div_mod_eq (length (parts_of line)) 2).
    split; [lia | nia].
  - exists arrs'. repeat split; assumption.
Qed.

Lemma load_lines_error (max_degree : Z) (L : nat) (lines : list string) :
  forall (hop_idx : nat) (arrs : list Z * list Z) (i : nat) (line : string),
    length arrs.1 = L -> length arrs.2 = L ->
    (Z.of_nat (hop_idx + length lines)) * max_degree <= Z.of_nat L ->
    lines !! i = Some line -> violates max_degree line ->
    (forall j l, (j < i)%nat -> lines !! j = Some l ->
       ~ violates max_degree l /\ converts float_of_string l) ->
    exists e, load_lines float_of_string max_degree hop_idx lines arrs = inl e /\
              error_line e = Some (hop_idx + i)%nat.
Proof.
  induction lines as [| l0 rest IH];
    intros hop_idx arrs i line H1 H2 HL Hi Hv Hbefore; [discriminate |].
  simpl. destruct i as [| i].
  - injection Hi as ->.
    destruct (load_line_violates max_degree hop_idx line arrs Hv)
      as (e & -> & He).
    exists e. split; [reflexivity |]. rewrite Nat.add_0_r. exact He.
  - destruct (Hbefore 0%nat l0 ltac:(lia) eq_refl) as [Hok Hconv].
    assert (Hmd : 0 <= max_degree).
    { unfold violates in Hok.
      destruct (Z.gtb_spec (Z.of_nat (length (parts_of l0) / 2)) max_degree);
        [exfalso; apply Hok; right; lia | lia]. }
    simpl in HL.
    destruct (load_line_ok max_degree hop_idx l0 L arrs Hok Hconv H1 H2)
      as (arrs' & -> & L1 & L2); [nia |].
    destruct (IH (S hop_idx) arrs' i line L1 L2) as (e & -> & He);
      try assumption.
    + rewrite <- HL. f_equal. lia.
    + intros j l Hj Hl. apply (Hbefore (S j) l); [lia | exact Hl].
    + exists e. split; [reflexivity |]. rewrite He. f_equal. lia.
Qed.

Lemma load_lines_ok (max_degree : Z) (L : nat) (lines : list string) :
  forall (hop_idx : nat) (arrs : list Z * list Z),
    length arrs.1 = L -> length arrs.2 = L ->
    (Z.of_nat (hop_idx + length lines)) * max_degree <= Z.of_nat L ->
    (forall l, l ∈ lines ->
       ~ violates max_degree l /\ converts float_of_string l) ->
    exists arrs', load_lines float_of_string max_degree hop_idx lines arrs
                  = inr arrs' /\
                  length arrs'.1 = L /\ length arrs'.2 = L.
Proof.
  induction lines as [| l0 rest IH]; intros hop_idx arrs H1 H2 HL Hall; simpl.
  - exists arrs. repeat split; assumption.
  - destruct (Hall l0 (list_elem_of_here _ _)) as [Hok Hconv].
    assert (Hmd : 0 <= max_degree).
    { unfold violates in Hok.
      destruct (Z.gtb_spec (Z.of_nat (length (parts_of l0) / 2)) max_degree);
        [exfalso; apply Hok; right; lia | lia]. }
    simpl in HL.
    destruct (load_line_ok max_degree hop_idx l0 L arrs Hok Hconv H1 H2)
      as (arrs' & -> & L1 & L2); [nia |].
    apply IH; try assumption.
    + rewrite <- HL. f_equal. lia.
    + intros l Hl. apply Hall. apply list_elem_of_further. exact Hl.
Qed.

End LoadApa.

(** ** What the loader stores in a cell *)

Section Cells.

Import Loader.

Variable float_of_string : string -> option spec_float.

Lemma py_setitem_nonneg (l l' : list Z) (i v : Z) :
  0 <= i -> py_setitem l i v = Some l' ->
  i < Z.of_nat (length l) /\ l' = <[Z.to_nat i := v]> l.
Proof.
  intros Hi. unfold py_setitem.
  rewrite (proj2 (Z.leb_le 0 i)) by lia.
  rewrite (proj2 (Z.ltb_ge i 0)) by lia. simpl.
  destruct (Z.ltb_spec i (Z.of_nat (length l))) as [Hlt | Hge];
    [| discriminate].
  intros Hs. injection Hs as <-. split; [assumption | reflexivity].
Qed.

Lemma py_getitem_nonneg {T : Type} (l : list T) (i : Z) :
  0 <= i -> py_getitem l i = l !! Z.to_nat i.
Proof.
  intros Hi. unfold py_getitem. rewrite (proj2 (Z.leb_le 0 i)) by lia.
  reflexivity.
Qed.

(** what one iteration of the degree loop writes, and what it leaves *)
Lemma fill_degree_cell (parts : list string) (hop_idx : nat) (max_degree : Z)
      (d : nat) (arrs arrs' : list Z * list Z) :
  0 <= max_degree ->
  fill_degree float_of_string parts hop_idx max_degree d arrs = Some arrs' ->
  cell_written float_of_string parts d arrs'.1 arrs'.2
               (Z.of_nat hop_idx * max_degree + Z.of_nat d) /\
  length arrs'.1 = length arrs.1 /\ length arrs'.2 = length arrs.2 /\
  forall i : nat, Z.of_nat i ≠ Z.of_nat hop_idx * max_degree + Z.of_nat d ->
    arrs'.1 !! i = arrs.1 !! i /\ arrs'.2 !! i = arrs.2 !! i.
Proof.
  intros Hmd. unfold fill_degree.
  set (idx := Z.of_nat hop_idx * max_degree + Z.of_nat d).
  assert (Hidx : 0 <= idx) by (unfold idx; nia).
  destruct (parts !! (2 * d)%nat) as [s_add |] eqn:E1; [| discriminate].
  cbv beta iota delta [mbind option_bind].
  destruct (float_of_string s_add) as [p_add |] eqn:E2; [| discriminate].
  destruct (parts !! (2 * d + 1)%nat) as [s_cum |] eqn:E3; [| discriminate].
  destruct (float_of_string s_cum) as [p_cum |] eqn:E4; [| discriminate].
  destruct (fixed32 p_add) as [v_add |] eqn:E5; [| discriminate].
  destruct (py_setitem arrs.1 idx v_add) as [a' |] eqn:E6; [| discriminate].
  destruct (fixed32 p_cum) as [v_cum |] eqn:E7; [| discriminate].
  destruct (py_setitem arrs.2 idx v_cum) as [c' |] eqn:E8; [| discriminate].
  intros H. injection H as <-. simpl.
  apply py_setitem_nonneg in E6 as [La ->]; [| exact Hidx].
  apply py_setitem_nonneg in E8 as [Lc ->]; [| exact Hidx].
  split; [| split; [apply length_insert | split; [apply length_insert |]]].
  - exists s_add, s_cum, p_add, p_cum, v_add, v_cum.
    rewrite !py_getitem_nonneg by exact Hidx.
    rewrite !list_lookup_insert_eq by lia. repeat split; assumption.
  - intros i Hi. rewrite !list_lookup_insert_ne by lia. split; reflexivity.
Qed.

Lemma cell_written_frame (parts : list string) (d : nat)
      (a c a' c' : list Z) (idx : Z) :
  0 <= idx ->
  a' !! Z.to_nat idx = a !! Z.to_nat idx ->
  c' !! Z.to_nat idx = c !! Z.to_nat idx ->
  cell_written float_of_string parts d a c idx ->
  cell_written float_of_string parts d a' c' idx.
Proof.
  intros Hidx Ha Hc (s1 & s2 & p1 & p2 & v1 & v2 & H).
  exists s1, s2, p1, p2, v1, v2.
  rewrite !py_getitem_nonneg in * by exact Hidx. rewrite Ha, Hc. exact H.
Qed.

Lemma fill_degrees_cells (parts : list string) (hop_idx : nat)
      (max_degree : Z) (ds : list nat) :
  forall arrs arrs',
    0 <= max_degree -> NoDup ds ->
    fill_degrees float_of_string parts hop_idx max_degree ds arrs
      = Some arrs' ->
    (forall d, d ∈ ds ->
       cell_written float_of_string parts d arrs'.1 arrs'.2
                    (Z.of_nat hop_idx * max_degree + Z.of_nat d)) /\
    length arrs'.1 = length arrs.1 /\ length arrs'.2 = length arrs.2 /\
    forall i : nat,
      (forall d, d ∈ ds ->
         Z.of_nat i ≠ Z.of_nat hop_idx * max_degree + Z.of_nat d) ->
      arrs'.1 !! i = arrs.1 !! i /\ arrs'.2 !! i = arrs.2 !! i.
Proof.
  induction ds as [| d ds IH]; intros arrs arrs' Hmd Hnd H; simpl in H.
  - injection H as <-. split; [intros d Hd; apply elem_of_nil in Hd; tauto |].
    repeat split; reflexivity.
  - apply NoDup_cons in Hnd as [Hd Hnd].
    destruct (fill_degree _ _ _ _ _ _) as [arrs1 |] eqn:E; [| discriminate].
    cbv beta iota delta [mbind option_bind] in H.
    destruct (fill_degree_cell _ _ _ _ _ _ Hmd E) as (Hcell & L1 & L2 & Hframe).
    destruct (IH _ _ Hmd Hnd H) as (Hcells & L1' & L2' & Hframe').
    split; [| split; [congruence | split; [congruence |]]].
    + intros d' Hd'. apply elem_of_cons in Hd' as [-> | Hd'];
        [| apply Hcells; exact Hd'].
      assert (Hkeep : forall d', d' ∈ ds ->
                Z.of_nat (Z.to_nat (Z.of_nat hop_idx * max_degree + Z.of_nat d))
                ≠ Z.of_nat hop_idx * max_degree + Z.of_nat d').
      { intros d' Hd' Heq. rewrite Z2Nat.id in Heq by nia.
        assert (d = d') by lia. subst d'. contradiction. }
      destruct (Hframe' _ Hkeep) as [Ha Hc].
      eapply cell_written_frame; [nia | exact Ha | exact Hc | exact Hcell].
    + intros i Hi.
      destruct (Hframe i (Hi d (list_elem_of_here _ _))) as [Ha Hc].
      destruct (Hframe' i) as [Ha' Hc'].
      * intros d' Hd'. apply Hi. apply list_elem_of_further. exact Hd'.
      * split; congruence.
Qed.

Lemma load_line_cells (max_degree : Z) (hop_idx : nat) (line : string)
      (arrs arrs' : list Z * list Z) :
  load_line float_of_string max_degree hop_idx line arrs = inr arrs' ->
  (Z.of_nat (length (parts_of line) / 2) <= max_degree) /\
  (forall d, (d < length (parts_of line) / 2)%nat ->
     cell_written float_of_string (parts_of line) d arrs'.1 arrs'.2
                  (Z.of_nat hop_idx * max_degree + Z.of_nat d)) /\
  length arrs'.1 = length arrs.1 /\ length arrs'.2 = length arrs.2 /\
  forall i : nat,
    (Z.of_nat i < Z.of_nat hop_idx * max_degree \/
     (Z.of_nat hop_idx + 1) * max_degree <= Z.of_nat i) ->
    arrs'.1 !! i = arrs.1 !! i /\ arrs'.2 !! i = arrs.2 !! i.
Proof.
  unfold load_line. cbv zeta.
  destruct (negb _); [discriminate |].
  destruct (Z.gtb_spec (Z.of_nat (length (parts_of line) / 2)) max_degree)
    as [Hgt | Hle]; [discriminate |].
  destruct (fill_degrees _ _ _ _ _ _) as [arrs1 |] eqn:E; [| discriminate].
  intros H. injection H as <-.
  assert (Hmd : 0 <= max_degree) by lia.
  destruct (fill_degrees_cells _ _ _ _ _ _ Hmd (NoDup_seq _ _) E)
    as (Hcells & L1 & L2 & Hframe).
  split; [exact Hle |]. split; [| split; [exact L1 | split; [exact L2 |]]].
  - intros d Hd. apply Hcells. apply elem_of_seq. lia.
  - intros i Hi. apply Hframe. intros d Hd. apply elem_of_seq in Hd. nia.
Qed.

Lemma load_lines_cells (max_degree : Z) (lines : list string) :
  forall (hop_idx : nat) (arrs arrs' : list Z * list Z),
    load_lines float_of_string max_degree hop_idx lines arrs = inr arrs' ->
    (forall j line d, lines !! j = Some line ->
       (d < length (parts_of line) / 2)%nat ->
       cell_written float_of_string (parts_of line) d arrs'.1 arrs'.2
                    (Z.of_nat (hop_idx + j) * max_degree + Z.of_nat d)) /\
    forall i : nat,
      (lines = [] \/ Z.of_nat i < Z.of_nat hop_idx * max_degree) ->
      arrs'.1 !! i = arrs.1 !! i /\ arrs'.2 !! i = arrs.2 !! i.
Proof.
  induction lines as [| l0 rest IH]; intros hop_idx arrs arrs' H; simpl in H.
  - injection H as <-. split; [intros j line d Hj; discriminate |].
    intros i _. split; reflexivity.
  - destruct (load_line float_of_string max_degree hop_idx l0 arrs)
      as [e | arrs1] eqn:E; [discriminate |].
    apply load_line_cells in E as (Hle & Hcells0 & _ & _ & Hframe0).
    destruct (IH _ _ _ H) as (Hcells & Hframe).
    split.
    + intros j line d Hj Hd. destruct j as [| j].
      * injection Hj as <-. rewrite Nat.add_0_r.
        destruct (Hframe (Z.to_nat (Z.of_nat hop_idx * max_degree + Z.of_nat d)))
          as [Ha Hc].
        { right. rewrite Z2Nat.id by nia. nia. }
        eapply cell_written_frame; [nia | exact Ha | exact Hc |].
        apply Hcells0. exact Hd.
      * replace (hop_idx + S j)%nat with (S hop_idx + j)%nat by lia.
        apply (Hcells j line d Hj Hd).
    + intros i [Hnil | Hi]; [discriminate |].
      destruct (Hframe0 i) as [Ha0 Hc0]; [left; exact Hi |].
      destruct (Hframe i) as [Ha Hc].
      { right. assert (0 <= max_degree) by lia. nia. }
      split; congruence.
Qed.

End Cells.

(** every cell configured by the file holds the fixed-point encodings of its
    two fields, in both variants of the loader *)
Lemma load_apa_cells (float_of_string : string -> option spec_float)
      (file_lines : list string) (max_degree : Z) :
  (forall apa, Decoding.load_apa float_of_string file_lines max_degree
               = inr apa ->
     forall h line d,
       Loader.nonblank_lines file_lines !! h = Some line ->
       (d < length (Loader.parts_of line) / 2)%nat ->
       cell_written float_of_string (Loader.parts_of line) d
                    (Decoding.probs_a apa) (Decoding.probs_cum apa)
                    (Z.of_nat h * max_degree + Z.of_nat d)) /\
  (forall apa, Murmur.load_apa float_of_string file_lines max_degree
               = inr apa ->
     forall h line d,
       Loader.nonblank_lines file_lines !! h = Some line ->
       (d < length (Loader.parts_of line) / 2)%nat ->
       cell_written float_of_string (Loader.parts_of line) d
                    (Murmur.add_thresh apa) (Murmur.replace_thresh apa)
                    (Z.of_nat h * max_degree + Z.of_nat d)).
Proof.
  split; intros apa Hload h line d Hh Hd;
    unfold Decoding.load_apa, Murmur.load_apa, Loader.load_arrays in Hload;
    destruct (Loader.load_lines _ _ _ _ _) as [e | [a c]] eqn:E;
    try discriminate; injection Hload as <-; simpl;
    apply (proj1 (load_lines_cells _ _ _ _ _ _ E) h line d Hh Hd).
Qed.


Section Lines.

Import Loader.

Lemma lstrip_nil (l : list ascii) :
  lstrip l = [] <-> forallb is_space l = true.
Proof.
  induction l as [| c l IH]; simpl; [tauto |].
  destruct (is_space c); simpl; [exact IH | split; discriminate].
Qed.

Lemma lstrip_space_app (pre l : list ascii) :
  forallb is_space pre = true -> lstrip (pre ++ l) = lstrip l.
Proof.
  induction pre as [| c pre IH]; simpl; [reflexivity |].
  destruct (is_space c); simpl; [exact IH | discriminate].
Qed.

Lemma lstrip_app (l x : list ascii) :
  lstrip l ≠ [] -> lstrip (l ++ x) = lstrip l ++ x.
Proof.
  induction l as [| c l IH]; simpl; [congruence |].
  destruct (is_space c); [exact IH | reflexivity].
Qed.

Lemma lstrip_decompose (l : list ascii) :
  exists pre, l = pre ++ lstrip l /\ forallb is_space pre = true.
Proof.
  induction l as [| c l (pre & E & Hpre)]; simpl.
  - exists []. split; reflexivity.
  - destruct (is_space c) eqn:Hc.
    + exists (c :: pre). simpl. rewrite Hc, Hpre, <- E. split; reflexivity.
    + exists []. split; reflexivity.
Qed.

Lemma forallb_rev (f : ascii -> bool) (l : list ascii) :
  forallb f (rev l) = forallb f l.
Proof.
  induction l as [| c l IH]; simpl; [reflexivity |].
  rewrite forallb_app, IH. simpl. rewrite andb_true_r. apply andb_comm.
Qed.

Lemma append_cons (c : ascii) (a b : string) :
  String.append (String c a) b = String c (String.append a b).
Proof. reflexivity. Qed.

Lemma append_nil (b : string) : String.append EmptyString b = b.
Proof. reflexivity. Qed.

Lemma chars_append (a b : string) :
  list_ascii_of_string (String.append a b)
  = list_ascii_of_string a ++ list_ascii_of_string b.
Proof.
  induction a as [| c a IH]; [reflexivity |].
  rewrite append_cons. simpl. f_equal. exact IH.
Qed.

Lemma of_chars_app (a b : list ascii) :
  string_of_list_ascii (a ++ b)
  = String.append (string_of_list_ascii a) (string_of_list_ascii b).
Proof.
  induction a as [| c a IH]; [reflexivity |].
  simpl. rewrite append_cons. f_equal. exact IH.
Qed.

Lemma of_chars_nil (l : list ascii) :
  string_of_list_ascii l = EmptyString <-> l = [].
Proof. destruct l; simpl; split; congruence. Qed.

(** a text is blank when nothing is left of it without the white space
    around it *)
Lemma strip_blank (s : string) : strip s = EmptyString <-> blank s = true.
Proof.
  unfold strip, blank. rewrite of_chars_nil.
  set (l := list_ascii_of_string s). split.
  - intros H. apply (f_equal (@rev ascii)) in H. rewrite rev_involutive in H.
    simpl in H. apply lstrip_nil in H. rewrite forallb_rev in H.
    destruct (lstrip_decompose l) as (pre & E & Hpre).
    rewrite E, forallb_app, Hpre, H. reflexivity.
  - intros H. apply lstrip_nil in H. rewrite H. reflexivity.
Qed.

Lemma strip_not_blank (s : string) : strip s ≠ EmptyString <-> blank s = false.
Proof.
  rewrite strip_blank. destruct (blank s); split; congruence.
Qed.

(** white space before or after a text is not part of what is left *)
Lemma strip_prefix (pre s : string) :
  blank pre = true -> strip (String.append pre s) = strip s.
Proof.
  unfold strip, blank. intros H. rewrite chars_append, lstrip_space_app by exact H.
  reflexivity.
Qed.

Lemma strip_suffix (s post : string) :
  blank post = true -> strip (String.append s post) = strip s.
Proof.
  unfold strip, blank. intros H. rewrite chars_append. f_equal. f_equal.
  set (l := list_ascii_of_string s). set (p := list_ascii_of_string post) in *.
  destruct (lstrip l) as [| c t] eqn:El.
  - apply lstrip_nil in El.
    assert (E : lstrip (l ++ p) = []).
    { apply lstrip_nil. rewrite forallb_app, El, H. reflexivity. }
    rewrite E. reflexivity.
  - rewrite lstrip_app by (rewrite El; discriminate). rewrite El.
    rewrite rev_app_distr. apply lstrip_space_app. rewrite forallb_rev. exact H.
Qed.

Lemma strip_decompose (s : string) :
  exists pre post,
    s = String.append pre (String.append (strip s) post) /\
    blank pre = true /\ blank post = true.
Proof.
  destruct (lstrip_decompose (list_ascii_of_string s)) as (pre & E & Hpre).
  destruct (lstrip_decompose (rev (lstrip (list_ascii_of_string s))))
    as (post & E' & Hpost).
  exists (string_of_list_ascii pre), (string_of_list_ascii (rev post)).
  unfold blank. rewrite !list_ascii_of_string_of_list_ascii, forallb_rev.
  split; [| split; assumption].
  unfold strip. rewrite <- !of_chars_app, <- rev_app_distr, <- E'.
  rewrite rev_involutive, <- E. symmetry. apply string_of_list_ascii_of_string.
Qed.

Lemma is_space_comma (c : ascii) : is_space c = true -> Ascii.eqb c "," = false.
Proof.
  intros H. destruct (Ascii.eqb_spec c ","%char) as [-> | Hne]; [| reflexivity].
  vm_compute in H. discriminate.
Qed.

Lemma split_cons (sep : ascii) (s : string) :
  exists w ws, split sep s = w :: ws.
Proof.
  induction s as [| c s (w & ws & E)]; simpl; [eauto |].
  destruct (Ascii.eqb c sep); [eauto |]. rewrite E. eauto.
Qed.

Lemma split_blank (s : string) : blank s = true -> split "," s = [s].
Proof.
  unfold blank. induction s as [| c s IH]; simpl; [reflexivity |].
  intros H. apply andb_true_iff in H as [Hc Hs].
  rewrite (is_space_comma c Hc), (IH Hs). reflexivity.
Qed.

Lemma split_prefix (pre s : string) :
  blank pre = true ->
  map strip (split "," (String.append pre s)) = map strip (split "," s).
Proof.
  unfold blank. induction pre as [| c pre IH]; [reflexivity |].
  rewrite append_cons. simpl.
  intros H. apply andb_true_iff in H as [Hc Hpre].
  rewrite (is_space_comma c Hc). specialize (IH Hpre).
  destruct (split_cons "," (String.append pre s)) as (w & ws & E).
  rewrite E in IH |- *. rewrite <- IH. simpl. f_equal.
  apply (strip_prefix (String c EmptyString) w). unfold blank. simpl.
  rewrite Hc. reflexivity.
Qed.

Lemma split_suffix (s post : string) :
  blank post = true ->
  exists init w,
    split "," s = init ++ [w] /\
    split "," (String.append s post) = init ++ [String.append w post].
Proof.
  intros H. induction s as [| c s (init & w & E & E')].
  - exists [], EmptyString. split; [reflexivity |].
    rewrite !append_nil. apply split_blank. exact H.
  - rewrite append_cons. simpl. destruct (Ascii.eqb c ",").
    + exists (EmptyString :: init), w. rewrite E, E'. split; reflexivity.
    + rewrite E, E'. destruct init as [| i0 init]; simpl.
      * exists [], (String c w). split; reflexivity.
      * exists (String c i0 :: init), w. split; reflexivity.
Qed.

(** the fields of a line and of the line without the white space around it
    differ by white space only *)
Lemma split_strip (line : string) :
  map strip (split "," (strip line)) = map strip (split "," line).
Proof.
  destruct (strip_decompose line) as (pre & post & E & Hpre & Hpost).
  rewrite E at 2. rewrite (split_prefix pre _ Hpre).
  destruct (split_suffix (strip line) post Hpost) as (init & w & E1 & E2).
  rewrite E1, E2, !map_app. simpl. rewrite (strip_suffix w post Hpost).
  reflexivity.
Qed.

Lemma strip_filter (l : list string) :
  map strip (filter (fun p => strip p ≠ EmptyString) l)
  = filter (fun p => p ≠ EmptyString) (map strip l).
Proof.
  induction l as [| p l IH]; [reflexivity |].
  rewrite filter_cons. simpl map. rewrite filter_cons.
  destruct (decide (strip p ≠ EmptyString)); simpl; rewrite IH; reflexivity.
Qed.

(** the parts the loader keeps of a line are the fields that count, each
    without the white space around it *)
Lemma parts_of_counted (line : string) :
  parts_of (strip line) = map strip (counted_fields line).
Proof.
  unfold parts_of, counted_fields, comma_fields.
  rewrite strip_filter, split_strip, <- strip_filter. f_equal.
  apply list_filter_iff. intros p. apply strip_not_blank.
Qed.

(** the lines the loader keeps are the lines that are not blank, each
    without the white space around it *)
Lemma nonblank_lines_filter (file_lines : list string) :
  nonblank_lines file_lines
  = map strip (filter (fun l => blank l = false) file_lines).
Proof.
  unfold nonblank_lines. rewrite <- strip_filter. f_equal.
  symmetry. apply list_filter_iff. intros p. symmetry. apply strip_not_blank.
Qed.

Lemma violates_counted (max_degree : Z) (line : string) :
  violates max_degree (strip line) <-> line_violates max_degree line.
Proof.
  unfold violates, line_violates. rewrite parts_of_counted, length_map.
  reflexivity.
Qed.

Lemma converts_counted (float_of_string : string -> option spec_float)
      (line : string) :
  converts float_of_string (strip line) <-> line_converts float_of_string line.
Proof.
  unfold converts, line_converts. rewrite parts_of_counted. split.
  - intros H field Hf. apply H. apply list_elem_of_fmap. eauto.
  - intros H field Hf. apply list_elem_of_fmap in Hf as (p & -> & Hp).
    apply H. exact Hp.
Qed.

Lemma nonblank_lines_app (a b : list string) :
  nonblank_lines (a ++ b) = nonblank_lines a ++ nonblank_lines b.
Proof. unfold nonblank_lines. rewrite map_app, filter_app. reflexivity. Qed.

(** the place of a line among the lines the loader keeps *)
Lemma kept_line_index (file_lines : list string) (n : nat) (line : string) :
  file_lines !! n = Some line -> blank line = false ->
  nonblank_lines file_lines !! length (nonblank_lines (take n file_lines))
  = Some (strip line).
Proof.
  intros Hn Hb.
  assert (E : nonblank_lines file_lines
              = nonblank_lines (take n file_lines)
                ++ strip line :: nonblank_lines (drop (S n) file_lines)).
  { rewrite <- (take_drop_middle file_lines n line Hn) at 1.
    rewrite nonblank_lines_app. f_equal.
    unfold nonblank_lines. simpl map. rewrite filter_cons.
    destruct (decide (strip line ≠ EmptyString)) as [_ | H]; [reflexivity |].
    exfalso. apply H. apply strip_not_blank. exact Hb. }
  rewrite E. apply list_lookup_middle. reflexivity.
Qed.

Lemma kept_line_before (file_lines : list string) (n j : nat) (l : string) :
  (n < length file_lines)%nat ->
  (j < length (nonblank_lines (take n file_lines)))%nat ->
  nonblank_lines file_lines !! j = Some l ->
  exists m l0, (m < n)%nat /\ file_lines !! m = Some l0 /\
               blank l0 = false /\ l = strip l0.
Proof.
  intros Hn Hj Hl. rewrite <- (take_drop n file_lines) in Hl.
  rewrite nonblank_lines_app, lookup_app_l in Hl by exact Hj.
  rewrite nonblank_lines_filter in Hl.
  apply list_elem_of_lookup_2 in Hl.
  apply list_elem_of_fmap in Hl as (l0 & -> & Hl0).
  apply list_elem_of_filter in Hl0 as [Hb Hin].
  apply list_elem_of_lookup in Hin as [m Hm].
  apply lookup_take_Some in Hm as [Hm Hlt].
  exists m, l0. repeat split; assumption.
Qed.

Lemma kept_line_number (file_lines : list string) (n : nat) :
  (n <= length file_lines)%nat ->
  (forall m l, (m < n)%nat -> file_lines !! m = Some l -> blank l = false) ->
  length (nonblank_lines (take n file_lines)) = n.
Proof.
  revert n. induction file_lines as [| l0 rest IH]; intros n Hn Hall.
  - simpl in Hn. assert (n = 0%nat) by lia. subst n. reflexivity.
  - destruct n as [| n]; [reflexivity |].
    simpl take. change (l0 :: take n rest) with ([l0] ++ take n rest).
    rewrite nonblank_lines_app, length_app, IH.
    + unfold nonblank_lines. simpl map. rewrite filter_cons.
      destruct (decide (strip l0 ≠ EmptyString)) as [_ | H]; [reflexivity |].
      exfalso. apply H. apply strip_not_blank.
      apply (Hall 0%nat l0); [lia | reflexivity].
    + simpl in Hn. lia.
    + intros m l Hm Hl. apply (Hall (S m) l); [lia | exact Hl].
Qed.

End Lines.

(** C9 (amended). [load_apa], in both variants, raises a format error for
    the first non-blank line whose fields that count (the comma-separated
    fields that are not blank) are odd in number or give more degrees than
    [max_degree], provided the fields that count of the non-blank lines
    before it all convert; when no blank line precedes that line in the
    file, the error carries its number, counted from 0. When no non-blank
    line violates these conditions and all fields that count convert, the
    load succeeds and returns an APA whose two flattened arrays have length
    [max_hops * max_degree], [max_hops] being the number of non-blank
    lines. A file is the list [file_lines] of its lines. *)
Theorem load_apa_outcome (float_of_string : string -> option spec_float)
        (file_lines : list string) (max_degree : Z) :
  (forall (n : nat) (line : string),
      file_lines !! n = Some line -> blank line = false ->
      line_violates max_degree line ->
      (forall m l, (m < n)%nat -> file_lines !! m = Some l ->
         blank l = false ->
         ~ line_violates max_degree l /\ line_converts float_of_string l) ->
      exists e,
        Decoding.load_apa float_of_string file_lines max_degree = inl e /\
        Murmur.load_apa float_of_string file_lines max_degree = inl e /\
        is_Some (Loader.error_line e) /\
        ((forall m l, (m < n)%nat -> file_lines !! m = Some l ->
            blank l = false) ->
         Loader.error_line e = Some n)) /\
  ((forall l, l ∈ file_lines -> blank l = false ->
      ~ line_violates max_degree l /\ line_converts float_of_string l) ->
   exists a c,
     let max_hops :=
       Z.of_nat (length (filter (fun l => blank l = false) file_lines)) in
     Decoding.load_apa float_of_string file_lines max_degree
       = inr (Decoding.mkAPA max_hops max_degree a c) /\
     Murmur.load_apa float_of_string file_lines max_degree
       = inr (Murmur.mkAPA max_hops max_degree a c) /\
     Z.of_nat (length a) = max_hops * max_degree /\
     Z.of_nat (length c) = max_hops * max_degree).
Proof.
  set (lines := Loader.nonblank_lines file_lines).
  set (L := Z.to_nat (Z.of_nat (length lines) * max_degree)).
  assert (HL : Z.of_nat (0 + length lines) * max_degree <= Z.of_nat L)
    by (unfold L; simpl; lia).
  split.
  - intros n line Hn Hb Hv Hbefore.
    pose proof (lookup_lt_Some _ _ _ Hn) as Hlen.
    set (i := length (Loader.nonblank_lines (take n file_lines))).
    destruct (load_lines_error float_of_string max_degree L lines 0
                (replicate L 0, replicate L 0) i (Loader.strip line))
      as (e & He & Hline);
      try apply length_replicate; try exact HL.
    + apply kept_line_index; assumption.
    + apply violates_counted. exact Hv.
    + intros j l Hj Hl.
      destruct (kept_line_before file_lines n j l Hlen Hj Hl)
        as (m & l0 & Hm & Hl0 & Hb0 & ->).
      destruct (Hbefore m l0 Hm Hl0 Hb0) as [H1 H2]. split.
      * rewrite violates_counted. exact H1.
      * apply converts_counted. exact H2.
    + exists e. unfold Decoding.load_apa, Murmur.load_apa, Loader.load_arrays.
      fold lines. fold L. rewrite He. simpl in Hline.
      split; [reflexivity |]. split; [reflexivity |].
      split; [rewrite Hline; eexists; reflexivity |].
      intros Hnb. rewrite Hline. f_equal. unfold i.
      apply kept_line_number; [lia | exact Hnb].
  - intros Hall.
    assert (Hall' : forall l, l ∈ lines ->
              ~ violates max_degree l /\ converts float_of_string l).
    { intros l Hl. unfold lines in Hl. rewrite nonblank_lines_filter in Hl.
      apply list_elem_of_fmap in Hl as (l0 & -> & Hl0).
      apply list_elem_of_filter in Hl0 as [Hb Hin].
      destruct (Hall l0 Hin Hb) as [H1 H2]. split.
      - rewrite violates_counted. exact H1.
      - apply converts_counted. exact H2. }
    destruct (load_lines_ok float_of_string max_degree L lines 0
                (replicate L 0, replicate L 0)) as ([a c] & Hok & La & Lc);
      try assumption; try apply length_replicate.
    simpl in La, Lc. exists a, c.
    unfold Decoding.load_apa, Murmur.load_apa, Loader.load_arrays.
    fold lines. fold L. rewrite Hok. cbv zeta.
    assert (Hcount : length (filter (fun l => blank l = false) file_lines)
                     = length lines).
    { unfold lines. rewrite nonblank_lines_filter, length_map. reflexivity. }
    rewrite Hcount.
    assert (Hnonneg : 0 <= Z.of_nat (length lines) * max_degree).
    { destruct lines as [| l0 rest] eqn:E; [simpl; lia |].
      destruct (Hall' l0 (list_elem_of_here _ _)) as [Hv _].
      unfold violates in Hv.
      destruct (Z.gtb_spec (Z.of_nat (length (Loader.parts_of l0) / 2))
                           max_degree);
        [exfalso; apply Hv; right; lia | nia]. }
    repeat split; unfold L in *; lia.
Qed.

Lemma load_apa_outcome_witness :
  (exists e,
     Decoding.load_apa example_float
       ["0.5,0.25"%string; "0.5,0.25,0.5"%string] 32 = inl e /\
     Murmur.load_apa example_float
       ["0.5,0.25"%string; "0.5,0.25,0.5"%string] 32 = inl e /\
     Loader.error_line e = Some 1%nat) /\
  (exists a c,
     Decoding.load_apa example_float ["0.5, ,0.25"%string; " "%string] 2
       = inr (Decoding.mkAPA 1 2 a c) /\
     Murmur.load_apa example_float ["0.5, ,0.25"%string; " "%string] 2
       = inr (Murmur.mkAPA 1 2 a c) /\
     Z.of_nat (length a) = 1 * 2 /\ Z.of_nat (length c) = 1 * 2).
Proof.
  assert (Hfirst : ~ line_violates 32 "0.5,0.25" /\
                   line_converts example_float "0.5,0.25").
  { split.
    - intros [H | H]; vm_compute in H; congruence.
    - intros field Hf.
      change (counted_fields "0.5,0.25") with ["0.5"%string; "0.25"%string]
        in Hf.
      apply elem_of_cons in Hf as [-> | Hf];
        [| apply list_elem_of_singleton in Hf; subst field];
        eexists; (split; [reflexivity | vm_compute; eexists; reflexivity]). }
  split.
  - destruct (proj1 (load_apa_outcome example_float
                       ["0.5,0.25"%string; "0.5,0.25,0.5"%string] 32)
                    1%nat "0.5,0.25,0.5"%string)
      as (e & H1 & H2 & _ & Hnum).
    + reflexivity.
    + reflexivity.
    + left. vm_compute. discriminate.
    + intros m l Hm Hl _. destruct m as [| m]; [| lia].
      injection Hl as <-. exact Hfirst.
    + exists e. split; [exact H1 |]. split; [exact H2 |].
      apply Hnum. intros m l Hm Hl. destruct m as [| m]; [| lia].
      injection Hl as <-. reflexivity.
  - apply (proj2 (load_apa_outcome example_float
                    ["0.5, ,0.25"%string; " "%string] 2)).
    intros l Hl Hb. apply elem_of_cons in Hl as [-> | Hl].
    + split.
      * intros [H | H]; vm_compute in H; congruence.
      * intros field Hf.
        change (counted_fields "0.5, ,0.25")
          with ["0.5"%string; "0.25"%string] in Hf.
        apply elem_of_cons in Hf as [-> | Hf];
          [| apply list_elem_of_singleton in Hf; subst field];
          eexists; (split; [reflexivity | vm_compute; eexists; reflexivity]).
    + apply list_elem_of_singleton in Hl. subst l. discriminate.
Defined.

(** Four files on which the claim as it is stated fails.
    In [x,0.5 / 0.5] the second line has one field, an odd number; the
    error raised is the one of [float] on the first line, which names no
    line. In [1e400,0.5] the line has two fields and one degree and
    [float] reads both fields; the load fails in [int], on the infinity.
    The lines [0.5,,0.25] and [0.5, ,0.25] have three comma-separated
    fields each, an odd number, and the file of the two loads: the field
    that is empty and the one that holds a space are dropped. In the file
    of the four lines (empty) / [0.5,0.25] / (one space) / [0.25,0.5,0.5]
    the last line has three fields; it is the line at place 3 counted from
    0, the fourth line, and the error carries the number 1. *)
Lemma load_apa_claim_fails :
  (["x,0.5"%string; "0.5"%string] !! 1%nat = Some "0.5"%string /\
   blank "0.5" = false /\ stated_violates 32 "0.5" /\
   Decoding.load_apa example_float ["x,0.5"%string; "0.5"%string] 32
     = inl Loader.ConversionError /\
   Murmur.load_apa example_float ["x,0.5"%string; "0.5"%string] 32
     = inl Loader.ConversionError /\
   Loader.error_line Loader.ConversionError = None) /\
  (blank "1e400,0.5" = false /\ ~ stated_violates 32 "1e400,0.5" /\
   comma_fields "1e400,0.5" = ["1e400"%string; "0.5"%string] /\
   is_Some (example_float "1e400") /\ is_Some (example_float "0.5") /\
   Decoding.load_apa example_float ["1e400,0.5"%string] 32
     = inl Loader.ConversionError /\
   Murmur.load_apa example_float ["1e400,0.5"%string] 32
     = inl Loader.ConversionError) /\
  (blank "0.5,,0.25" = false /\ blank "0.5, ,0.25" = false /\
   comma_fields "0.5,,0.25" = ["0.5"%string; ""%string; "0.25"%string] /\
   comma_fields "0.5, ,0.25" = ["0.5"%string; " "%string; "0.25"%string] /\
   stated_violates 32 "0.5,,0.25" /\ stated_violates 32 "0.5, ,0.25" /\
   (exists a c,
      Decoding.load_apa example_float
        ["0.5,,0.25"%string; "0.5, ,0.25"%string] 32
        = inr (Decoding.mkAPA 2 32 a c) /\
      Murmur.load_apa example_float
        ["0.5,,0.25"%string; "0.5, ,0.25"%string] 32
        = inr (Murmur.mkAPA 2 32 a c))) /\
  ([""%string; "0.5,0.25"%string; " "%string; "0.25,0.5,0.5"%string]
     !! 3%nat = Some "0.25,0.5,0.5"%string /\
   blank "0.25,0.5,0.5" = false /\ stated_violates 32 "0.25,0.5,0.5" /\
   Decoding.load_apa example_float
     [""%string; "0.5,0.25"%string; " "%string; "0.25,0.5,0.5"%string] 32
     = inl (Loader.OddColumns 1 3) /\
   Murmur.load_apa example_float
     [""%string; "0.5,0.25"%string; " "%string; "0.25,0.5,0.5"%string] 32
     = inl (Loader.OddColumns 1 3) /\
   Loader.error_line (Loader.OddColumns 1 3) = Some 1%nat).
Proof.
  split; [| split; [| split]].
  - split; [reflexivity |]. split; [reflexivity |].
    split; [left; vm_compute; discriminate |].
    repeat split; vm_compute; reflexivity.
  - split; [reflexivity |].
    split; [intros [H | H]; vm_compute in H; congruence |].
    split; [reflexivity |].
    split; [vm_compute; eexists; reflexivity |].
    split; [vm_compute; eexists; reflexivity |].
    split; vm_compute; reflexivity.
  - split; [reflexivity |]. split; [reflexivity |].
    split; [reflexivity |]. split; [reflexivity |].
    split; [left; vm_compute; discriminate |].
    split; [left; vm_compute; discriminate |].
    eexists _, _. split; vm_compute; reflexivity.
  - split; [reflexivity |]. split; [reflexivity |].
    split; [left; vm_compute; discriminate |].
    repeat split; vm_compute; reflexivity.
Qed.

(** * C8: the fixed-point encoding of a probability *)

Section FixedPoint.

Lemma digits2_pos_spec (m : positive) :
  2 ^ (Z.pos (digits2_pos m) - 1) <= Z.pos m < 2 ^ Z.pos (digits2_pos m).
Proof.
  induction m as [m IH | m IH |]; simpl digits2_pos.
  - rewrite Pos2Z.inj_succ, Z.pow_succ_r by lia.
    replace (Z.succ (Z.pos (digits2_pos m)) - 1)
      with (Z.succ (Z.pos (digits2_pos m) - 1)) by lia.
    rewrite Z.pow_succ_r by lia. lia.
  - rewrite Pos2Z.inj_succ, Z.pow_succ_r by lia.
    replace (Z.succ (Z.pos (digits2_pos m)) - 1)
      with (Z.succ (Z.pos (digits2_pos m) - 1)) by lia.
    rewrite Z.pow_succ_r by lia. lia.
  - simpl. lia.
Qed.

Lemma digits2_unique (x d d' : Z) :
  0 < d -> 0 < d' ->
  2 ^ (d - 1) <= x < 2 ^ d -> 2 ^ (d' - 1) <= x < 2 ^ d' -> d = d'.
Proof.
  intros Hd Hd' H H'.
  destruct (Z.lt_trichotomy d d') as [Hlt | [E | Hgt]]; [| exact E |].
  - assert (2 ^ d <= 2 ^ (d' - 1)) by (apply Z.pow_le_mono_r; lia). lia.
  - assert (2 ^ d' <= 2 ^ (d - 1)) by (apply Z.pow_le_mono_r; lia). lia.
Qed.

Lemma digits2_shift (m M : positive) (n : Z) :
  0 <= n -> Z.pos M = 2 ^ n * Z.pos m ->
  Z.pos (digits2_pos M) = Z.pos (digits2_pos m) + n.
Proof.
  intros Hn HM.
  apply (digits2_unique (Z.pos M)); try lia.
  - apply digits2_pos_spec.
  - pose proof (digits2_pos_spec m) as [Hlo Hhi]. rewrite HM.
    replace (Z.pos (digits2_pos m) + n - 1)
      with (n + (Z.pos (digits2_pos m) - 1)) by lia.
    rewrite (Z.add_comm (Z.pos (digits2_pos m)) n).
    rewrite !Z.pow_add_r by lia.
    assert (0 < 2 ^ n) by (apply Z.pow_pos_nonneg; lia). nia.
Qed.

Lemma shr_1_even (q : positive) :
  shr_1 (Build_shr_record (2 * Z.pos q) false false)
  = Build_shr_record (Z.pos q) false false.
Proof. reflexivity. Qed.

Lemma iter_shr_exact (p : positive) :
  forall q : positive,
    SpecFloat.iter_pos shr_1 p (Build_shr_record (2 ^ Z.pos p * Z.pos q) false false)
    = Build_shr_record (Z.pos q) false false.
Proof.
  induction p as [p IH | p IH |]; intros q.
  - cbn [SpecFloat.iter_pos].
    replace (2 ^ Z.pos p~1 * Z.pos q)
      with (2 * Z.pos (Z.to_pos (2 ^ Z.pos p * Z.pos (Z.to_pos (2 ^ Z.pos p * Z.pos q))))).
    + rewrite shr_1_even. 
      rewrite Z2Pos.id by (apply Z.mul_pos_pos; [apply Z.pow_pos_nonneg; lia | lia]).
      rewrite IH.
      rewrite Z2Pos.id by (apply Z.mul_pos_pos; [apply Z.pow_pos_nonneg; lia | lia]).
      apply IH.
    + assert (0 < 2 ^ Z.pos p) by (apply Z.pow_pos_nonneg; lia).
      rewrite !Z2Pos.id by nia.
      replace (Z.pos p~1) with (Z.pos p + Z.pos p + 1) by lia.
      rewrite !Z.pow_add_r by lia. change (2 ^ 1) with 2. ring.
  - cbn [SpecFloat.iter_pos].
    replace (2 ^ Z.pos p~0 * Z.pos q)
      with (2 ^ Z.pos p * Z.pos (Z.to_pos (2 ^ Z.pos p * Z.pos q))).
    + rewrite IH.
      rewrite Z2Pos.id by (apply Z.mul_pos_pos; [apply Z.pow_pos_nonneg; lia | lia]).
      apply IH.
    + assert (0 < 2 ^ Z.pos p) by (apply Z.pow_pos_nonneg; lia).
      rewrite !Z2Pos.id by nia.
      replace (Z.pos p~0) with (Z.pos p + Z.pos p) by lia.
      rewrite !Z.pow_add_r by lia. ring.
  - cbn [SpecFloat.iter_pos]. change (2 ^ 1) with 2. apply shr_1_even.
Qed.

Lemma shr_fexp_exact (M : positive) (e n : Z) :
  0 <= n ->
  fexp Loader.prec Loader.emax (Z.pos (digits2_pos M) + n + e) - e = n ->
  shr_fexp Loader.prec Loader.emax (2 ^ n * Z.pos M) e loc_Exact
  = (Build_shr_record (Z.pos M) false false, e + n).
Proof.
  intros Hn Hf. unfold shr_fexp.
  assert (Hpos : 0 < 2 ^ n * Z.pos M)
    by (apply Z.mul_pos_pos; [apply Z.pow_pos_nonneg; lia | lia]).
  destruct (2 ^ n * Z.pos M) as [| P | P] eqn:EP; try lia.
  assert (Hd : Zdigits2 (Z.pos P) = Z.pos (digits2_pos M) + n).
  { simpl. apply (digits2_shift M P n Hn). lia. }
  rewrite Hd, Hf. unfold shr. simpl shr_record_of_loc.
  destruct n as [| p | p]; try lia.
  - change (2 ^ 0) with 1 in EP.
    assert (HPM : Z.pos P = Z.pos M) by lia. injection HPM as ->.
    rewrite Z.add_0_r. reflexivity.
  - rewrite <- EP, iter_shr_exact. reflexivity.
Qed.

Lemma binary_round_aux_exact (sx : bool) (M : positive) (e n : Z) :
  0 <= n ->
  fexp Loader.prec Loader.emax (Z.pos (digits2_pos M) + (e + n)) = e + n ->
  e + n <= Loader.emax - Loader.prec ->
  binary_round_aux Loader.prec Loader.emax sx (2 ^ n * Z.pos M) e loc_Exact
  = S754_finite sx M (e + n).
Proof.
  intros Hn Hf Hmax. unfold binary_round_aux.
  rewrite (shr_fexp_exact M e n Hn)
    by (replace (Z.pos (digits2_pos M) + n + e)
          with (Z.pos (digits2_pos M) + (e + n)) by lia; lia).
  cbn [shr_m loc_of_shr_record round_nearest_even].
  replace (Z.pos M) with (2 ^ 0 * Z.pos M) at 1 by (simpl; lia).
  rewrite (shr_fexp_exact M (e + n) 0)
    by (try lia; rewrite Z.add_0_r; lia).
  cbn [shr_m]. rewrite Z.add_0_r.
  rewrite (proj2 (Z.leb_le _ _)) by exact Hmax. reflexivity.
Qed.

Lemma SFmul_two32 (m : positive) (e : Z) :
  valid_binary Loader.prec Loader.emax (S754_finite false m e) = true ->
  e < 0 -> Z.pos m < 2 ^ (- e) ->
  exists (M : positive) (n : Z),
    0 <= n <= 52 /\
    Z.pos M = Z.pos m * 2 ^ (52 - n) /\
    SFmul Loader.prec Loader.emax (S754_finite false m e) Loader.two32
    = S754_finite false M (e - 20 + n).
Proof.
  intros Hvalid He Hm. simpl in Hvalid. unfold bounded, canonical_mantissa in Hvalid.
  apply andb_true_iff in Hvalid as [Hc Hb].
  apply Z.eqb_eq in Hc. apply Z.leb_le in Hb.
  unfold fexp, emin, Loader.prec, Loader.emax in Hc, Hb.
  pose proof (digits2_pos_spec m) as [Hlo Hhi].
  set (d := Z.pos (digits2_pos m)) in *.
  assert (Hde : d - 1 < - e).
  { apply (Z.pow_lt_mono_r_iff 2); lia. }
  set (n := Z.max (d + e - 21) (-1074) - e + 20).
  assert (Hn : 0 <= n <= 52) by (unfold n; lia).
  assert (Hpow : 0 < 2 ^ (52 - n)) by (apply Z.pow_pos_nonneg; lia).
  set (M := Z.to_pos (Z.pos m * 2 ^ (52 - n))).
  assert (HM : Z.pos M = Z.pos m * 2 ^ (52 - n))
    by (unfold M; apply Z2Pos.id; nia).
  exists M, n. split; [exact Hn |]. split; [exact HM |].
  unfold SFmul, Loader.two32. cbn [xorb].
  replace (Z.pos (m * 2 ^ 52)) with (2 ^ n * Z.pos M).
  - replace (e - 20 + n) with (e + -20 + n) by lia.
    apply binary_round_aux_exact; [lia | |].
    + rewrite (digits2_shift m M (52 - n)) by lia.
      fold d. unfold fexp, emin, Loader.prec, Loader.emax.
      unfold n. lia.
    + unfold Loader.prec, Loader.emax. unfold n. lia.
  - rewrite HM, Pos2Z.inj_mul, Pos2Z.inj_pow.
    replace (Z.pos 2 ^ Z.pos 52) with (2 ^ n * 2 ^ (52 - n))
      by (rewrite <- Z.pow_add_r by lia; f_equal; lia).
    ring.
Qed.

Lemma floor_scaled (m M E n : Z) :
  0 < m -> 0 < E -> 0 <= n <= 52 -> M = m * 2 ^ (52 - n) ->
  (if 0 <=? - E - 20 + n then M * 2 ^ (- E - 20 + n)
   else M / 2 ^ (- (- E - 20 + n)))
  = (m * 2 ^ 32) / 2 ^ E.
Proof.
  intros Hm HE Hn ->.
  assert (HpE : 0 < 2 ^ E) by (apply Z.pow_pos_nonneg; lia).
  destruct (Z.leb_spec 0 (- E - 20 + n)) as [Hpos | Hneg].
  - rewrite <- Z.mul_assoc, <- Z.pow_add_r by lia.
    replace (2 ^ 32) with (2 ^ (52 - n + (- E - 20 + n)) * 2 ^ E)
      by (rewrite <- Z.pow_add_r by lia; f_equal; lia).
    rewrite Z.mul_assoc, Z.div_mul by lia. reflexivity.
  - replace (- (- E - 20 + n)) with (E + 20 - n) by lia.
    destruct (Z.le_ge_cases n 20) as [Hle | Hge].
    + replace (2 ^ (52 - n)) with (2 ^ 32 * 2 ^ (20 - n))
        by (rewrite <- Z.pow_add_r by lia; f_equal; lia).
      replace (2 ^ (E + 20 - n)) with (2 ^ E * 2 ^ (20 - n))
        by (rewrite <- Z.pow_add_r by lia; f_equal; lia).
      rewrite Z.mul_assoc.
      apply Z.div_mul_cancel_r; [lia |].
      assert (0 < 2 ^ (20 - n)) by (apply Z.pow_pos_nonneg; lia). lia.
    + replace (2 ^ 32) with (2 ^ (52 - n) * 2 ^ (n - 20))
        by (rewrite <- Z.pow_add_r by lia; f_equal; lia).
      replace (2 ^ E) with (2 ^ (E + 20 - n) * 2 ^ (n - 20))
        by (rewrite <- Z.pow_add_r by lia; f_equal; lia).
      rewrite Z.mul_assoc. symmetry.
      apply Z.div_mul_cancel_r.
      * assert (0 < 2 ^ (E + 20 - n)) by (apply Z.pow_pos_nonneg; lia). lia.
      * assert (0 < 2 ^ (n - 20)) by (apply Z.pow_pos_nonneg; lia). lia.
Qed.

End FixedPoint.

(** the encoding of a binary64 number of [0, 1) is the floor of its scaled
    value *)
Lemma fixed32_floor (p : spec_float) (q : Q) :
  valid_binary Loader.prec Loader.emax p = true ->
  SF2Q p = Some q -> (0 <= q)%Q -> (q < 1)%Q ->
  Loader.fixed32 p = Some (Qfloor (q * inject_Z (2 ^ 32)) mod 2 ^ 32).
Proof.
  intros Hvalid Hq H0 H1. destruct p as [s | s | | s m e]; try discriminate.
  - injection Hq as <-. destruct s; reflexivity.
  - injection Hq as <-.
    assert (Hs : s = false).
    { destruct s; [| reflexivity]. exfalso.
      destruct (0 <=? e) eqn:E; unfold Qle in H0; simpl in H0.
      - apply Z.leb_le in E.
        assert (0 < 2 ^ e) by (apply Z.pow_pos_nonneg; lia). nia.
      - lia. }
    subst s. cbn [cond_Zopp] in *.
    destruct (Z.leb_spec 0 e) as [He | He].
    { exfalso. unfold Qlt in H1. simpl in H1.
      assert (0 < 2 ^ e) by (apply Z.pow_pos_nonneg; lia). nia. }
    assert (HpE : 0 < 2 ^ (- e)) by (apply Z.pow_pos_nonneg; lia).
    assert (Hm : Z.pos m < 2 ^ (- e)).
    { unfold Qlt in H1. simpl in H1. rewrite Z2Pos.id in H1 by lia. lia. }
    destruct (SFmul_two32 m e Hvalid He Hm) as (M & n & Hn & HM & Hmul).
    unfold Loader.fixed32. rewrite Hmul.
    cbv beta iota delta [mbind option_bind Loader.int_of_float cond_Zopp].
    f_equal. rewrite land_mask32. f_equal.
    unfold Qfloor, Qmult, inject_Z. cbn [Qnum Qden].
    rewrite Pos.mul_1_r, Z2Pos.id by lia.
    replace (e - 20 + n) with (- (- e) - 20 + n) by lia.
    apply floor_scaled; lia.
Qed.

(** C8. For every binary64 probability [p] in [0, 1) read from the APA
    file, whose exact rational value is [q], the 32-bit fixed-point encoding
    [int(p * 2**32) & 0xFFFFFFFF] is [floor(q * 2^32) mod 2^32]; and in both
    variants of the loader every configured cell of the two arrays holds
    this encoding of its two fields. *)
Theorem fixed_point_encoding :
  (forall (p : spec_float) (q : Q),
      valid_binary Loader.prec Loader.emax p = true ->
      SF2Q p = Some q -> (0 <= q)%Q -> (q < 1)%Q ->
      Loader.fixed32 p = Some (Qfloor (q * inject_Z (2 ^ 32)) mod 2 ^ 32)) /\
  (forall (float_of_string : string -> option spec_float)
          (file_lines : list string) (max_degree : Z),
      (forall apa, Decoding.load_apa float_of_string file_lines max_degree
                   = inr apa ->
         forall h line d,
           Loader.nonblank_lines file_lines !! h = Some line ->
           (d < length (Loader.parts_of line) / 2)%nat ->
           cell_written float_of_string (Loader.parts_of line) d
                        (Decoding.probs_a apa) (Decoding.probs_cum apa)
                        (Z.of_nat h * max_degree + Z.of_nat d)) /\
      (forall apa, Murmur.load_apa float_of_string file_lines max_degree
                   = inr apa ->
         forall h line d,
           Loader.nonblank_lines file_lines !! h = Some line ->
           (d < length (Loader.parts_of line) / 2)%nat ->
           cell_written float_of_string (Loader.parts_of line) d
                        (Murmur.add_thresh apa) (Murmur.replace_thresh apa)
                        (Z.of_nat h * max_degree + Z.of_nat d))).
Proof.
  split.
  - exact fixed32_floor.
  - exact load_apa_cells.
Qed.

(** the probability 0.5 is encoded as [2^31] *)
Lemma fixed_point_encoding_witness :
  Loader.fixed32 (S754_finite false (2 ^ 52)%positive (-53))
  = Some (Qfloor (Qmake (2 ^ 52) (2 ^ 53)%positive * inject_Z (2 ^ 32))
          mod 2 ^ 32).
Proof.
  apply (proj1 fixed_point_encoding
               (S754_finite false (2 ^ 52)%positive (-53))
               (Qmake (2 ^ 52) (2 ^ 53)%positive)).
  - vm_compute. reflexivity.
  - vm_compute. reflexivity.
  - unfold Qle. simpl. lia.
  - unfold Qlt. simpl. lia.
Defined.

Example fixed32_half :
  Loader.fixed32 (S754_finite false (2 ^ 52)%positive (-53)) = Some (2 ^ 31).
Proof. vm_compute. reflexivity. Qed.

Example fixed32_largest_below_one :
  Loader.fixed32 (S754_finite false (2 ^ 53 - 1)%positive (-53))
  = Some 0xFFFFFFFF.
Proof. vm_compute. reflexivity. Qed.

(** * Further properties of the decode engine *)

Section SolverMore.

Import Solver.

(** a value whose bits at and above [n] are all clear lies in [0, 2^n) *)
Lemma bits_above_clear (v : Z) (n : nat) :
  (forall j, (n <= j)%nat -> Z.testbit v (Z.of_nat j) = false) ->
  0 <= v < 2 ^ Z.of_nat n.
Proof.
  intros Hhigh.
  assert (E : v = v mod 2 ^ Z.of_nat n).
  { apply Z.bits_inj'. intros i Hi. rewrite <- (Z2Nat.id i Hi).
    rewrite testbit_mod_pow2.
    destruct (decide (Z.to_nat i < n)%nat) as [Hlt | Hge].
    - rewrite bool_decide_eq_true_2 by exact Hlt. reflexivity.
    - rewrite bool_decide_eq_false_2 by exact Hge. apply Hhigh. lia. }
  rewrite E. apply Z.mod_pos_bound. apply Z.pow_pos_nonneg; lia.
Qed.

(** agreement of two values on the low [n] bits *)
Lemma mod_pow2_testbit (a b : Z) (n : nat) :
  a mod 2 ^ Z.of_nat n = b mod 2 ^ Z.of_nat n <->
  forall j, (j < n)%nat -> Z.testbit a (Z.of_nat j) = Z.testbit b (Z.of_nat j).
Proof.
  split.
  - intros E j Hj.
    pose proof (testbit_mod_pow2 a n j) as Ha.
    pose proof (testbit_mod_pow2 b n j) as Hb.
    rewrite bool_decide_eq_true_2 in Ha, Hb by exact Hj.
    simpl in Ha, Hb. rewrite <- Ha, <- Hb, E. reflexivity.
  - intros H. apply Z.bits_inj'. intros i Hi. rewrite <- (Z2Nat.id i Hi).
    rewrite !testbit_mod_pow2.
    destruct (decide (Z.to_nat i < n)%nat) as [Hlt | Hge].
    + rewrite bool_decide_eq_true_2 by exact Hlt. simpl. apply H. exact Hlt.
    + rewrite bool_decide_eq_false_2 by exact Hge. reflexivity.
Qed.

(** a vector that satisfies every equation on bit [j] solves plane [j] *)
Lemma plane_sat_of_bits (k : nat) (ids : list Z) (eqs : list PacketEquation)
      (j : nat) :
  (forall eq, eq ∈ eqs ->
     Z.testbit (xor_ids k ids (xor_set eq)) (Z.of_nat j)
     = Z.testbit (final_pint eq) (Z.of_nat j)) ->
  sat k (length eqs) (fun i => Z.testbit (ids !!! i) (Z.of_nat j))
      (build_masks k eqs) (rhs_bits j eqs).
Proof.
  intros Hhold r Hr. rewrite <- xor_ids_plane by exact Hr.
  rewrite rhs_bits_odd by exact Hr. apply Hhold.
  apply list_elem_of_lookup. exists r.
  apply list_lookup_lookup_total_lt. exact Hr.
Qed.

(** the identifier vector that carries the 0/1 assignment [x] on bit [j] *)
Lemma plane_bits_of_sat (k : nat) (x : nat -> bool)
      (eqs : list PacketEquation) (j : nat) :
  sat k (length eqs) x (build_masks k eqs) (rhs_bits j eqs) ->
  exists ids, length ids = k /\
    forall eq, eq ∈ eqs ->
      Z.testbit (xor_ids k ids (xor_set eq)) (Z.of_nat j)
      = Z.testbit (final_pint eq) (Z.of_nat j).
Proof.
  intros Hsat.
  exists ((fun i => if x i then Z.shiftl 1 (Z.of_nat j) else 0) <$> seq 0 k).
  split. { rewrite length_fmap, length_seq. reflexivity. }
  intros eq Hin. apply list_elem_of_lookup in Hin as [r Hr].
  pose proof (lookup_lt_Some _ _ _ Hr) as Hrm.
  apply list_lookup_total_correct in Hr. subst eq.
  rewrite xor_ids_plane by exact Hrm.
  rewrite <- rhs_bits_odd by exact Hrm.
  rewrite <- (Hsat r Hrm). apply dotb_ext. intros i Hi.
  rewrite (list_lookup_total_fmap _ (seq 0 k) i)
    by (rewrite length_seq; exact Hi).
  rewrite lookup_total_seq_lt by exact Hi. simpl.
  destruct (x i).
  - rewrite Z.shiftl_1_l, Z.pow2_bits_true; [reflexivity | lia].
  - apply Z.bits_0.
Qed.

(** where the loop over the bit-planes stops *)
Lemma solve_bits_Inconsistent (k : nat) (eqs : list PacketEquation)
      (len : nat) :
  forall start ids b,
    solve_bits (build_masks k eqs) eqs k (seq start len) ids = Inconsistent b ->
    (start <= b < start + len)%nat /\
    plane_inconsistent k eqs b = true /\
    forall j, (start <= j < b)%nat -> plane_inconsistent k eqs j = false.
Proof.
  induction len as [| len IH]; intros start ids b H; simpl in H.
  { discriminate. }
  fold (plane_inconsistent k eqs start) in H.
  destruct (plane_inconsistent k eqs start) eqn:E.
  - injection H as <-. repeat split; try lia. exact E.
  - apply IH in H as (Hb & Hbad & Hlow). repeat split; try lia; try exact Hbad.
    intros j Hj. destruct (decide (j = start)) as [-> | Hne]; [exact E |].
    apply Hlow. lia.
Qed.


(** a pivot is never placed in a column that is clear in every row mask *)
Lemma xplane_clear_column (k : nat) (eqs : list PacketEquation)
      (j i : nat) :
  (i < k)%nat ->
  plane_inconsistent k eqs j = false ->
  (forall eq, eq ∈ eqs -> Z.of_nat i ∉ xor_set eq) ->
  xplane k eqs j i = false.
Proof.
  intros Hi Hcons Hfree.
  destruct (gauss_inv k j eqs) as (c & Hinv & Hend).
  cbv zeta in Hinv, Hend.
  set (st := gauss (build_masks k eqs) eqs k j) in *.
  unfold xplane. fold st. unfold xsol.
  destruct (inv_piv_range _ _ _ _ _ _ Hinv i Hi) as [E | (p & E & Hp & _)].
  { rewrite E. reflexivity. }
  exfalso.
  destruct (inv_piv_bit _ _ _ _ _ _ Hinv i p Hi E) as [Hbit _].
  pose proof (inv_row _ _ _ _ _ _ Hinv) as Hrow.
  assert (Hpm : (p < length eqs)%nat) by lia.
  pose proof (final_sat _ _ _ _ _ _ Hinv Hend Hcons) as Hsat.
  set (x1 := fun c' : nat => xorb (xsol st c') (bool_decide (c' = i))).
  assert (Hsat1 : sat k (length eqs) x1 (A st) (y st)).
  { apply (inv_sat _ _ _ _ _ _ Hinv).
    apply (inv_sat _ _ _ _ _ _ Hinv) in Hsat.
    intros r Hr. rewrite <- (Hsat r Hr). apply dotb_agree.
    intros c' Hc' Hset. unfold x1.
    destruct (decide (c' = i)) as [-> | Hne].
    - exfalso. unfold build_masks in Hset.
      rewrite (list_lookup_total_fmap _ eqs r Hr) in Hset.
      rewrite row_mask_testbit in Hset by lia.
      apply bool_decide_eq_true in Hset as [Hin _].
      apply (Hfree (eqs !!! r)); [| exact Hin].
      apply list_elem_of_lookup. exists r.
      apply list_lookup_lookup_total_lt. exact Hr.
    - rewrite bool_decide_eq_false_2 by exact Hne. apply xorb_false_r. }
  pose proof (Hsat p Hpm) as H0. pose proof (Hsat1 p Hpm) as H1.
  unfold x1 in H1. rewrite dotb_xor_r, H0 in H1.
  rewrite (dotb_single k _ _ i Hi) in H1.
  - rewrite Hbit, bool_decide_eq_true_2 in H1 by reflexivity.
    destruct (Z.odd (y st !!! p)); discriminate.
  - intros c' _ Hne. rewrite bool_decide_eq_false_2 by exact Hne.
    apply andb_false_r.
Qed.

(** the elimination reads the equations through their length, their row
    masks and the bits of the plane *)
Lemma solve_bits_ext (masks : list Z) (eqs eqs' : list PacketEquation)
      (k : nat) (bits : list nat) :
  length eqs = length eqs' ->
  (forall bit, bit ∈ bits -> rhs_bits bit eqs = rhs_bits bit eqs') ->
  forall ids, solve_bits masks eqs k bits ids = solve_bits masks eqs' k bits ids.
Proof.
  intros Hlen. induction bits as [| bit rest IH]; intros Hrhs ids.
  { reflexivity. }
  simpl. unfold gauss. rewrite <- Hlen.
  rewrite <- (Hrhs bit) by apply list_elem_of_here.
  destruct (inconsistent _ _); [reflexivity |].
  apply IH. intros b Hb. apply Hrhs. apply list_elem_of_further. exact Hb.
Qed.

End SolverMore.

(** X1. A vector returned by [solve_switch_ids] has one identifier per hop,
    and every identifier lies in [0, 2^id_bits). *)
Theorem solve_switch_ids_shape (eqs : list PacketEquation)
        (num_hops id_bits : nat) (ids : list Z) :
  Solver.solve_switch_ids eqs num_hops id_bits = Some ids ->
  length ids = num_hops /\
  forall id, id ∈ ids -> 0 <= id < 2 ^ Z.of_nat id_bits.
Proof.
  intros Hsolve.
  apply solve_switch_ids_bits in Hsolve as (_ & Hlen & _ & Hbits).
  split; [exact Hlen |]. intros id Hin.
  apply list_elem_of_lookup in Hin as [i Hi].
  pose proof (lookup_lt_Some _ _ _ Hi) as Hlt.
  apply list_lookup_total_correct in Hi. subst id.
  apply bits_above_clear. intros j Hj.
  rewrite Hbits by lia.
  rewrite bool_decide_eq_false_2 by lia. reflexivity.
Qed.

Lemma solve_switch_ids_shape_witness :
  exists ids,
    Solver.solve_switch_ids
      [mkEq 0 0x444C {[0; 1]}; mkEq 1 0x5678 {[1]}] 2 16 = Some ids /\
    length ids = 2%nat /\
    forall id, id ∈ ids -> 0 <= id < 2 ^ Z.of_nat 16.
Proof.
  eexists. split; [vm_compute; reflexivity |].
  apply (solve_switch_ids_shape
           [mkEq 0 0x444C {[0; 1]}; mkEq 1 0x5678 {[1]}] 2 16).
  vm_compute. reflexivity.
Defined.

(** X2. Completeness of the solver: when the list of equations is not
    empty and some identifier vector satisfies every equation modulo
    [2^id_bits], [solve_switch_ids] returns a vector; it returns [None] on
    a non-empty list only when no such vector exists. *)
Theorem solve_switch_ids_complete (eqs : list PacketEquation)
        (num_hops id_bits : nat) (ids : list Z) :
  eqs ≠ [] ->
  (forall eq, eq ∈ eqs ->
     xor_ids num_hops ids (xor_set eq) mod 2 ^ Z.of_nat id_bits
     = final_pint eq mod 2 ^ Z.of_nat id_bits) ->
  is_Some (Solver.solve_switch_ids eqs num_hops id_bits).
Proof.
  intros Hne Hhold.
  unfold Solver.solve_switch_ids, Solver.solve_switch_ids_report.
  destruct (decide (length eqs = 0%nat)) as [E | E].
  { destruct eqs; [congruence | discriminate]. }
  destruct (solve_bits_consistent num_hops eqs (seq 0 id_bits)
              (replicate num_hops 0)) as [ids' ->].
  - intros bit Hbit. apply elem_of_seq in Hbit.
    eapply plane_consistent. apply (plane_sat_of_bits num_hops ids).
    intros eq Hin. apply (mod_pow2_testbit _ _ id_bits); [| lia].
    apply Hhold. exact Hin.
  - eexists. reflexivity.
Qed.

(** the identifiers 0xFFFF1234 and 0x5678 satisfy the two equations on
    the low 16 bits only *)
Lemma solve_switch_ids_complete_witness :
  is_Some (Solver.solve_switch_ids
             [mkEq 0 0x444C {[0; 1]}; mkEq 1 0x5678 {[1]}] 2 16).
Proof.
  apply (solve_switch_ids_complete _ 2 16 [0xFFFF1234; 0x5678]).
  - discriminate.
  - intros eq Hin.
    repeat (apply elem_of_cons in Hin as [-> | Hin];
            [vm_compute; reflexivity |]).
    apply elem_of_nil in Hin. contradiction.
Defined.

(** X3. The bit-plane named in the warning of [solve_switch_ids] is the
    lowest plane below [id_bits] for which no identifier vector satisfies
    all equations on that bit; on every lower plane some vector does. *)
Theorem inconsistent_report_is_first_unsolvable (eqs : list PacketEquation)
        (num_hops id_bits bit : nat) :
  Solver.solve_switch_ids_report eqs num_hops id_bits
  = Solver.Inconsistent bit ->
  (bit < id_bits)%nat /\
  (forall ids,
     ~ forall eq, eq ∈ eqs ->
         Z.testbit (xor_ids num_hops ids (xor_set eq)) (Z.of_nat bit)
         = Z.testbit (final_pint eq) (Z.of_nat bit)) /\
  (forall j, (j < bit)%nat ->
     exists ids, length ids = num_hops /\
       forall eq, eq ∈ eqs ->
         Z.testbit (xor_ids num_hops ids (xor_set eq)) (Z.of_nat j)
         = Z.testbit (final_pint eq) (Z.of_nat j)).
Proof.
  unfold Solver.solve_switch_ids_report.
  destruct (decide (length eqs = 0%nat)) as [E | E]; [discriminate |].
  intros H. apply solve_bits_Inconsistent in H as (Hb & Hbad & Hlow).
  split; [lia |]. split.
  - intros ids Hhold.
    pose proof (plane_consistent num_hops bit eqs _
                  (plane_sat_of_bits num_hops ids eqs bit Hhold)) as Hgood.
    rewrite Hbad in Hgood. discriminate.
  - intros j Hj. apply (plane_bits_of_sat num_hops (xplane num_hops eqs j)).
    apply plane_sound. apply Hlow. lia.
Qed.

(** two equations over the same hop whose values differ on bit 1 only *)
Lemma inconsistent_report_is_first_unsolvable_witness :
  Solver.solve_switch_ids_report [mkEq 0 1 {[0]}; mkEq 1 3 {[0]}] 1 16
  = Solver.Inconsistent 1 /\
  (1 < 16)%nat /\
  exists ids, length ids = 1%nat /\
    forall eq, eq ∈ [mkEq 0 1 {[0]}; mkEq 1 3 {[0]}] ->
      Z.testbit (xor_ids 1 ids (xor_set eq)) (Z.of_nat 0)
      = Z.testbit (final_pint eq) (Z.of_nat 0).
Proof.
  assert (H : Solver.solve_switch_ids_report
                [mkEq 0 1 {[0]}; mkEq 1 3 {[0]}] 1 16
              = Solver.Inconsistent 1) by (vm_compute; reflexivity).
  split; [exact H |].
  destruct (inconsistent_report_is_first_unsolvable _ _ _ _ H)
    as (Hlt & _ & Hlow).
  split; [exact Hlt |]. apply Hlow. lia.
Defined.

(** X4. A hop that occurs in no equation's [xor_set] is reported with the
    identifier 0. *)
Theorem unused_hop_gets_zero (eqs : list PacketEquation)
        (num_hops id_bits : nat) (ids : list Z) (i : nat) :
  Solver.solve_switch_ids eqs num_hops id_bits = Some ids ->
  (i < num_hops)%nat ->
  (forall eq, eq ∈ eqs -> Z.of_nat i ∉ xor_set eq) ->
  ids !! i = Some 0.
Proof.
  intros Hsolve Hi Hfree.
  apply solve_switch_ids_bits in Hsolve as (_ & Hlen & Hcons & Hbits).
  rewrite list_lookup_lookup_total_lt by lia. f_equal.
  apply Z.bits_inj'. intros n Hn. rewrite <- (Z2Nat.id n Hn).
  rewrite Z.bits_0, (Hbits i _ Hi).
  destruct (decide (Z.to_nat n < id_bits)%nat) as [Hj | Hj].
  - rewrite xplane_clear_column; [apply andb_false_r | exact Hi | | exact Hfree].
    apply Hcons. exact Hj.
  - rewrite bool_decide_eq_false_2 by exact Hj. reflexivity.
Qed.

Lemma unused_hop_gets_zero_witness :
  Solver.solve_switch_ids [mkEq 0 0x1234 {[0]}; mkEq 1 0x5678 {[2]}] 3 16
  = Some [0x1234; 0; 0x5678] /\
  [0x1234; 0; 0x5678] !! 1%nat = Some 0.
Proof.
  assert (H : Solver.solve_switch_ids
                [mkEq 0 0x1234 {[0]}; mkEq 1 0x5678 {[2]}] 3 16
              = Some [0x1234; 0; 0x5678]) by (vm_compute; reflexivity).
  split; [exact H |].
  apply (unused_hop_gets_zero _ _ _ _ 1 H); [lia |].
  intros eq Hin.
  repeat (apply elem_of_cons in Hin as [-> | Hin];
          [simpl; rewrite elem_of_singleton; lia |]).
  apply elem_of_nil in Hin. contradiction.
Defined.

(** X5. [solve_switch_ids] reads an equation only through the hop indices
    of its [xor_set] that lie in [0, num_hops) and the low [id_bits] bits
    of its [final_pint]: two lists of equations that agree on these,
    position by position, give the same result and the same warning. The
    packet identifiers play no part. *)
Theorem solve_reads_relevant_parts_only (eqs eqs' : list PacketEquation)
        (num_hops id_bits : nat) :
  Forall2 (fun e e' =>
             (forall i, 0 <= i < Z.of_nat num_hops ->
                        i ∈ xor_set e <-> i ∈ xor_set e') /\
             final_pint e mod 2 ^ Z.of_nat id_bits
             = final_pint e' mod 2 ^ Z.of_nat id_bits) eqs eqs' ->
  Solver.solve_switch_ids_report eqs num_hops id_bits
  = Solver.solve_switch_ids_report eqs' num_hops id_bits.
Proof.
  intros Hrel. pose proof (Forall2_length _ _ _ Hrel) as Hlen.
  assert (Hmasks : Solver.build_masks num_hops eqs
                   = Solver.build_masks num_hops eqs').
  { unfold Solver.build_masks. induction Hrel as [| e e' l l' [Hset _] _ IH].
    - reflexivity.
    - simpl. f_equal; [| apply IH; simpl in Hlen; lia].
      apply Z.bits_inj'. intros n Hn. rewrite !row_mask_testbit by exact Hn.
      apply bool_decide_ext. split; intros [Hin Hlt]; (split; [| exact Hlt]);
        apply (Hset n); (lia || exact Hin). }
  assert (Hrhs : forall bit, bit ∈ seq 0 id_bits ->
            Solver.rhs_bits bit eqs = Solver.rhs_bits bit eqs').
  { intros bit Hbit. apply elem_of_seq in Hbit. unfold Solver.rhs_bits.
    clear Hmasks Hlen. induction Hrel as [| e e' l l' [_ Hpint] _ IH].
    - reflexivity.
    - simpl. f_equal; [| exact IH].
      rewrite !bit_at_b2z. f_equal.
      apply (mod_pow2_testbit _ _ id_bits); [exact Hpint | lia]. }
  unfold Solver.solve_switch_ids_report. rewrite <- Hlen, <- Hmasks.
  destruct (decide (length eqs = 0%nat)); [reflexivity |].
  apply solve_bits_ext; assumption.
Qed.

Lemma solve_reads_relevant_parts_only_witness :
  Solver.solve_switch_ids_report
    [mkEq 0 0x444C {[0; 1]}; mkEq 1 0x5678 {[1]}] 2 16
  = Solver.solve_switch_ids_report
      [mkEq 7 0xA444C {[0; 1; 5]}; mkEq 7 0x5678 {[-1; 1]}] 2 16.
Proof.
  apply solve_reads_relevant_parts_only.
  constructor; [| constructor; [| constructor]].
  - split; [| reflexivity]. intros i Hi. cbn [xor_set].
    rewrite !elem_of_union, !elem_of_singleton. lia.
  - split; [| reflexivity]. intros i Hi. cbn [xor_set].
    rewrite !elem_of_union, !elem_of_singleton. lia.
Defined.

Section Words.

Lemma lxor_range (a b : Z) (n : nat) :
  0 <= a < 2 ^ Z.of_nat n -> 0 <= b < 2 ^ Z.of_nat n ->
  0 <= Z.lxor a b < 2 ^ Z.of_nat n.
Proof.
  intros Ha Hb. apply bits_above_clear. intros j Hj.
  rewrite Z.lxor_spec, (testbit_above a n j Ha Hj), (testbit_above b n j Hb Hj).
  reflexivity.
Qed.

Lemma shiftr_range (a s : Z) (n : nat) :
  0 <= s -> 0 <= a < 2 ^ Z.of_nat n -> 0 <= Z.shiftr a s < 2 ^ Z.of_nat n.
Proof.
  intros Hs Ha. rewrite Z.shiftr_div_pow2 by exact Hs.
  assert (0 < 2 ^ s) by (apply Z.pow_pos_nonneg; lia).
  split; [apply Z.div_pos; lia |].
  apply Z.le_lt_trans with a; [| lia].
  apply Z.div_le_upper_bound; [lia | nia].
Qed.

Lemma land_mask32_range (x : Z) : 0 <= Z.land x 0xFFFFFFFF < 2 ^ 32.
Proof. rewrite land_mask32. apply Z.mod_pos_bound. lia. Qed.

Lemma land_mask32_small (x : Z) :
  0 <= x < 2 ^ 32 -> Z.land x 0xFFFFFFFF = x.
Proof. intros Hx. rewrite land_mask32. apply Z.mod_small. exact Hx. Qed.

(** [x ^ (x >> s)] is one-to-one on the non-negative integers *)
Lemma xorshift_inj (x y s : Z) :
  0 < s -> 0 <= x -> 0 <= y ->
  Z.lxor x (Z.shiftr x s) = Z.lxor y (Z.shiftr y s) -> x = y.
Proof.
  intros Hs Hx Hy E. apply Z.lxor_eq.
  set (d := Z.lxor x y).
  assert (Hd : 0 <= d) by (apply Z.lxor_nonneg; lia).
  assert (Ed : Z.lxor d (Z.shiftr d s) = 0).
  { unfold d. rewrite Z.shiftr_lxor.
    replace (Z.lxor (Z.lxor x y) (Z.lxor (Z.shiftr x s) (Z.shiftr y s)))
      with (Z.lxor (Z.lxor x (Z.shiftr x s)) (Z.lxor y (Z.shiftr y s))).
    - rewrite E. apply Z.lxor_nilpotent.
    - rewrite !Z.lxor_assoc. f_equal.
      rewrite <- !Z.lxor_assoc. f_equal. apply Z.lxor_comm. }
  apply Z.lxor_eq in Ed. rewrite Z.shiftr_div_pow2 in Ed by lia.
  destruct (Z.eq_dec d 0) as [E0 | Hne]; [exact E0 | exfalso].
  assert (d / 2 ^ s < d).
  { apply Z.div_lt; [lia |]. apply Z.pow_gt_1; lia. }
  lia.
Qed.

(** multiplication by a unit modulo [2^32] is one-to-one on 32-bit values *)
Lemma mul_unit_inj (c c' x y : Z) :
  (c * c') mod 2 ^ 32 = 1 ->
  0 <= x < 2 ^ 32 -> 0 <= y < 2 ^ 32 ->
  Z.land (x * c) 0xFFFFFFFF = Z.land (y * c) 0xFFFFFFFF -> x = y.
Proof.
  intros Hc Hx Hy E. rewrite !land_mask32 in E.
  assert (Hinv : forall v, 0 <= v < 2 ^ 32 ->
            (((v * c) mod 2 ^ 32) * c') mod 2 ^ 32 = v).
  { intros v Hv. rewrite Z.mul_mod_idemp_l by lia.
    rewrite <- Z.mul_assoc, <- Z.mul_mod_idemp_r by lia.
    rewrite Hc, Z.mul_1_r. apply Z.mod_small. exact Hv. }
  rewrite <- (Hinv x Hx), <- (Hinv y Hy), E. reflexivity.
Qed.

Lemma lxor_cancel_r (a a' b : Z) : Z.lxor a b = Z.lxor a' b -> a = a'.
Proof.
  intros E.
  rewrite <- (Z.lxor_0_r a), <- (Z.lxor_0_r a'), <- (Z.lxor_nilpotent b).
  rewrite <- !Z.lxor_assoc, E. reflexivity.
Qed.

Lemma lxor_cancel_l (a b b' : Z) : Z.lxor a b = Z.lxor a b' -> b = b'.
Proof.
  rewrite (Z.lxor_comm a b), (Z.lxor_comm a b'). apply lxor_cancel_r.
Qed.

End Words.

Section MurmurHash.

Import Murmur.

Lemma mix32_range (x : Z) : 0 <= mix32 x < 2 ^ 32.
Proof.
  unfold mix32. cbv zeta.
  apply (lxor_range _ _ 32); [| apply (shiftr_range _ _ 32); [lia |]];
    apply land_mask32_range.
Qed.

Lemma mix32_mask (x : Z) : mix32 (Z.land x 0xFFFFFFFF) = mix32 x.
Proof.
  unfold mix32. cbv zeta.
  rewrite <- (Z.land_assoc x), Z.land_diag. reflexivity.
Qed.

Lemma mix32_inj (x y : Z) :
  0 <= x < 2 ^ 32 -> 0 <= y < 2 ^ 32 -> mix32 x = mix32 y -> x = y.
Proof.
  intros Hx Hy. unfold mix32. cbv zeta.
  rewrite (land_mask32_small x Hx), (land_mask32_small y Hy).
  intros E.
  apply xorshift_inj in E; [| lia | apply land_mask32_range ..].
  apply (mul_unit_inj 0x846CA68B 0x43021123) in E;
    [| reflexivity
     | apply (lxor_range _ _ 32); [| apply (shiftr_range _ _ 32); [lia |]];
       apply land_mask32_range ..].
  apply xorshift_inj in E; [| lia | apply land_mask32_range ..].
  apply (mul_unit_inj 0x7FEB352D 0x1D69E2A5) in E;
    [| reflexivity
     | apply (lxor_range _ _ 32); [| apply (shiftr_range _ _ 32); lia];
       assumption ..].
  apply xorshift_inj in E; lia.
Qed.

(** the value mixed last by [recipe_hash_v4] *)
Lemma combined_range (pid k : Z) :
  0 <= pid < 2 ^ 32 -> 0 <= k < 2 ^ 32 ->
  0 <= Z.lxor (Z.lxor pid k) 0xA5A5A5A5 < 2 ^ 32.
Proof.
  intros Hp Hk. apply (lxor_range _ _ 32); [| lia].
  apply (lxor_range _ _ 32); assumption.
Qed.

Lemma murmur_hash_range (pktid hopid : Z) :
  0 <= recipe_hash_v4 pktid hopid < 2 ^ 32.
Proof. unfold recipe_hash_v4. cbv zeta. apply mix32_range. Qed.

End MurmurHash.

(** equal hashes at a hop, or for a packet, mean equal low 32 bits *)
Lemma murmur_hash_separates (pktid pktid' hopid hopid' : Z) :
  (Murmur.recipe_hash_v4 pktid hopid = Murmur.recipe_hash_v4 pktid' hopid
   -> pktid mod 2 ^ 32 = pktid' mod 2 ^ 32) /\
  (Murmur.recipe_hash_v4 pktid hopid = Murmur.recipe_hash_v4 pktid hopid'
   -> hopid mod 2 ^ 32 = hopid' mod 2 ^ 32).
Proof.
  assert (Hcomb : forall p h,
            Murmur.recipe_hash_v4 p h =
            Murmur.mix32
              (Z.lxor (Z.lxor (Murmur.mix32 (Z.land p 0xFFFFFFFF))
                              (Z.land (h * 0x9E3779B9) 0xFFFFFFFF))
                      0xA5A5A5A5)).
  { intros p h. unfold Murmur.recipe_hash_v4. cbv zeta. f_equal.
    apply land_mask32_small. apply combined_range;
      [apply mix32_range | apply land_mask32_range]. }
  rewrite !Hcomb. split.
  - intros E. apply mix32_inj in E;
      [| apply combined_range; [apply mix32_range | apply land_mask32_range] ..].
    apply lxor_cancel_r, lxor_cancel_r in E.
    apply mix32_inj in E; [| apply land_mask32_range ..].
    rewrite !land_mask32 in E. exact E.
  - intros E. apply mix32_inj in E;
      [| apply combined_range; [apply mix32_range | apply land_mask32_range] ..].
    apply lxor_cancel_r, lxor_cancel_l in E.
    apply (mul_unit_inj 0x9E3779B9 0x144CBC89);
      [reflexivity | apply Z.mod_pos_bound; lia ..|].
    rewrite !land_mask32, !Z.mul_mod_idemp_l by lia.
    rewrite !land_mask32 in E. exact E.
Qed.

(** X6. The avalanche-mix hash [recipe_hash_v4] returns a 32-bit value, so
    the mask applied to it by its callers changes nothing, and it reads
    only the low 32 bits of the packet id and of the hop index. *)
Theorem murmur_hash_is_32_bit (pktid hopid : Z) :
  0 <= Murmur.recipe_hash_v4 pktid hopid < 2 ^ 32 /\
  Z.land (Murmur.recipe_hash_v4 pktid hopid) 0xFFFFFFFF
  = Murmur.recipe_hash_v4 pktid hopid /\
  Murmur.recipe_hash_v4 (pktid mod 2 ^ 32) (hopid mod 2 ^ 32)
  = Murmur.recipe_hash_v4 pktid hopid.
Proof.
  pose proof (murmur_hash_range pktid hopid) as Hr.
  split; [exact Hr |]. split; [apply land_mask32_small; exact Hr |].
  unfold Murmur.recipe_hash_v4. cbv zeta.
  rewrite !(land_mask32 (_ * _)), Z.mul_mod_idemp_l by lia.
  rewrite !(land_mask32 pktid), !(land_mask32 (pktid mod _)).
  rewrite Z.mod_mod by lia. reflexivity.
Qed.

(** X7. The avalanche-mix hash separates packets and hops: at a given hop
    two packet ids hash to the same value exactly when they agree modulo
    [2^32], and for a given packet two hop indices hash to the same value
    exactly when they agree modulo [2^32]. *)
Theorem murmur_hash_is_one_to_one (pktid pktid' hopid hopid' : Z) :
  (Murmur.recipe_hash_v4 pktid hopid = Murmur.recipe_hash_v4 pktid' hopid
   <-> pktid mod 2 ^ 32 = pktid' mod 2 ^ 32) /\
  (Murmur.recipe_hash_v4 pktid hopid = Murmur.recipe_hash_v4 pktid hopid'
   <-> hopid mod 2 ^ 32 = hopid' mod 2 ^ 32).
Proof.
  destruct (murmur_hash_separates pktid pktid' hopid hopid') as [Hp Hh].
  split; split; try assumption; intros E;
    unfold Murmur.recipe_hash_v4; cbv zeta.
  - rewrite !(land_mask32 pktid), !(land_mask32 pktid'), E. reflexivity.
  - rewrite !(land_mask32 (_ * _)).
    rewrite <- (Z.mul_mod_idemp_l hopid), <- (Z.mul_mod_idemp_l hopid'), E
      by lia.
    reflexivity.
Qed.

(** X8. For all integers, [_p4_add_decision] is the unsigned comparison of
    the low 32 bits of the hash with the low 32 bits of the threshold: the
    sign-bit case analysis on the wrapped difference decides ADD exactly
    when the hash is below the threshold. *)
Theorem p4_add_decision_is_unsigned_compare (hash_id a_prob : Z) :
  Decoding._p4_add_decision hash_id a_prob
  = (hash_id mod 2 ^ 32 <? a_prob mod 2 ^ 32).
Proof.
  rewrite <- (p4_add_is_unsigned_lt (hash_id mod 2 ^ 32) (a_prob mod 2 ^ 32))
    by (apply Z.mod_pos_bound; lia).
  unfold Decoding._p4_add_decision. cbv zeta.
  rewrite !land_mask32, !Z.mod_mod by lia. reflexivity.
Qed.

(** X9. On 32-bit values Policy B decides ADD when the hash is below the
    ADD threshold; otherwise it decides REPLACE exactly when the hash and
    the REPLACE threshold lie in the same half of the 32-bit range (both
    below [2^31] or both not), whatever their order, and SKIP in the
    remaining case. *)
Theorem p4_action_by_halves (h a c : Z) :
  0 <= h < 2 ^ 32 -> 0 <= a < 2 ^ 32 -> 0 <= c < 2 ^ 32 ->
  Decoding.p4_action h a c =
    if h <? a then ADD
    else if Bool.eqb (h <? 2 ^ 31) (c <? 2 ^ 31) then REPLACE else SKIP.
Proof.
  intros Hh Ha Hc. unfold Decoding.p4_action.
  rewrite p4_add_is_unsigned_lt by assumption.
  destruct (h <? a); [reflexivity |].
  rewrite p4_replace_is_sign_equality.
  rewrite !land_mask32, !Z.mod_small by assumption.
  rewrite !sign_bit_range by assumption.
  destruct (h <? 2 ^ 31), (c <? 2 ^ 31); reflexivity.
Qed.

Lemma p4_action_by_halves_witness :
  Decoding.p4_action 0x10000000 0 0x20000000 = REPLACE.
Proof.
  apply (p4_action_by_halves 0x10000000 0 0x20000000); lia.
Defined.

(** X10. On 32-bit values the two policies take the ADD action on the same
    inputs, and they take the same action exactly when the hash is below
    the ADD threshold or the comparison [replace_threshold < h] has the
    truth value of "the hash and the REPLACE threshold lie in the same
    half of the 32-bit range". *)
Theorem policies_agree_exactly_when (h a c : Z) :
  0 <= h < 2 ^ 32 -> 0 <= a < 2 ^ 32 -> 0 <= c < 2 ^ 32 ->
  (Murmur.threshold_action h a c = ADD <-> Decoding.p4_action h a c = ADD) /\
  (Murmur.threshold_action h a c = Decoding.p4_action h a c <->
   h < a \/ (c < h <-> (h < 2 ^ 31 <-> c < 2 ^ 31))).
Proof.
  intros Hh Ha Hc. unfold Decoding.p4_action.
  rewrite p4_add_is_unsigned_lt by assumption.
  rewrite p4_replace_is_sign_equality.
  rewrite !land_mask32, !Z.mod_small by assumption.
  rewrite !sign_bit_range by assumption.
  unfold Murmur.threshold_action. rewrite Z.gtb_ltb.
  destruct (Z.ltb_spec h a) as [Hlt | Hge].
  { split; [tauto |]. split; [intros _; left; exact Hlt | reflexivity]. }
  destruct (Z.ltb_spec c h), (Z.ltb_spec h (2 ^ 31)), (Z.ltb_spec c (2 ^ 31));
    simpl; (split; [split; discriminate |]);
    (split; [try discriminate; intros _; right; lia
            | try reflexivity; intros [? | ?]; exfalso; lia]).
Qed.

Lemma policies_agree_exactly_when_witness :
  Murmur.threshold_action 0x30000000 0 0x20000000
  = Decoding.p4_action 0x30000000 0 0x20000000.
Proof.
  apply (proj2 (policies_agree_exactly_when 0x30000000 0 0x20000000
                  ltac:(lia) ltac:(lia) ltac:(lia))).
  right. lia.
Defined.

Section RunHopsMore.

Context {S : Type} (step : nat -> S -> option (hop_result S)).

(** the loop returns when no reachable hop raises *)
Lemma run_hops_total (s0 : S) (len : nat) :
  forall start s, reach step s0 start s ->
    (forall n s', (start <= n < start + len)%nat -> reach step s0 n s' ->
                  is_Some (step n s')) ->
    is_Some (run_hops step (seq start len) s).
Proof.
  induction len as [| len IH]; intros start s Hs Htot; simpl.
  { eexists. reflexivity. }
  destruct (Htot start s ltac:(lia) Hs) as [r Hr]. rewrite Hr.
  destruct r as [| act s1]; [eexists; reflexivity |].
  apply (IH (Datatypes.S start)).
  - eapply reach_next; eassumption.
  - intros n s' Hn Hr'. apply Htot; [lia | exact Hr'].
Qed.

(** hops beyond a bound from which every hop takes the [break] add
    nothing *)
Lemma run_hops_truncate (Inv : S -> Prop) (bound extra len : nat) :
  (forall n s act s', Inv s -> step n s = Some (Next act s') -> Inv s') ->
  (forall n s, (bound <= n)%nat -> Inv s -> step n s = Some Break) ->
  forall start s, (start + len)%nat = bound -> Inv s ->
    run_hops step (seq start (len + extra)) s
    = run_hops step (seq start len) s.
Proof.
  intros Hpres Hbreak.
  induction len as [| len IH]; intros start s Hb Hinv.
  - destruct extra as [| extra]; [reflexivity |]. simpl.
    rewrite Hbreak by (assumption || lia). reflexivity.
  - simpl. destruct (step start s) as [[| act s1] |] eqn:E; try reflexivity.
    apply IH; [lia |]. eapply Hpres; eassumption.
Qed.

(** two loops whose bodies correspond, state by state, end in
    corresponding states *)
Lemma run_hops_sim {T : Type} (step' : nat -> T -> option (hop_result T))
      (proj : S -> T) (Inv : nat -> S -> Prop) (len : nat) :
  (forall n s act s', Inv n s -> step n s = Some (Next act s') ->
                      Inv (Datatypes.S n) s') ->
  (forall n s, Inv n s -> (n < len)%nat ->
     step' n (proj s) =
     match step n s with
     | None => None
     | Some Break => Some Break
     | Some (Next act s') => Some (Next act (proj s'))
     end) ->
  forall k start s, (start + k)%nat = len -> Inv start s ->
    run_hops step' (seq start k) (proj s)
    = proj <$> run_hops step (seq start k) s.
Proof.
  intros Hpres Hcorr. induction k as [| k IH]; intros start s Hk Hinv.
  { reflexivity. }
  simpl. rewrite (Hcorr start s Hinv) by lia.
  destruct (step start s) as [[| act s1] |] eqn:E; try reflexivity.
  apply IH; [lia |]. eapply Hpres; eassumption.
Qed.

End RunHopsMore.

Section GenerationMore.

Variables (apa : Murmur.APA) (max_degree : Z) (switch_id : list Z).

(** on entering hop [n] of the generation-mode simulation the counter
    [xor_degree] is the size of the XOR-set, whose members are below [n] *)
Lemma generation_degree_inv (pktid : Z) (n : nat) (s : Murmur.loop_state) :
  reach (Murmur.hop apa max_degree switch_id pktid) Murmur.init_state n s ->
  Murmur.xor_degree s = Z.of_nat (size (Murmur.cur_xor_set s)) /\
  (forall i, i ∈ Murmur.cur_xor_set s -> 0 <= i < Z.of_nat n) /\
  (size (Murmur.cur_xor_set s) <= n)%nat.
Proof.
  induction 1 as [| n s act s' Hreach IH Hstep].
  - cbn [Murmur.init_state Murmur.xor_degree Murmur.cur_xor_set].
    rewrite size_empty. split; [reflexivity |]. split; [| lia].
    intros i Hi. apply elem_of_empty in Hi. contradiction.
  - destruct IH as (Hdeg & Hsub & Hsize).
    unfold Murmur.hop in Hstep.
    destruct (_ >=? _); [discriminate |].
    destruct (py_getitem (Murmur.add_thresh apa) _) as [add_thr |];
      [| discriminate].
    destruct (py_getitem (Murmur.replace_thresh apa) _) as [rep_thr |];
      [| discriminate].
    cbv beta iota delta [mbind option_bind] in Hstep.
    assert (Hfresh : Z.of_nat n ∉ Murmur.cur_xor_set s)
      by (intros Hin; apply Hsub in Hin; lia).
    destruct (Murmur.threshold_action _ _ _).
    + destruct (py_getitem switch_id (Z.of_nat n)) as [id |];
        [| discriminate].
      cbv beta iota delta [mbind option_bind] in Hstep.
      injection Hstep as _ <-.
      cbn [Murmur.xor_degree Murmur.cur_xor_set].
      rewrite size_union, size_singleton
        by (intros i Hi Hi'; apply elem_of_singleton in Hi'; subst i;
            contradiction).
      split; [lia |]. split; [| lia].
      intros i Hi. apply elem_of_union in Hi as [Hi | Hi];
        [apply Hsub in Hi | apply elem_of_singleton in Hi]; lia.
    + destruct (py_getitem switch_id (Z.of_nat n)) as [id |];
        [| discriminate].
      cbv beta iota delta [mbind option_bind] in Hstep.
      injection Hstep as _ <-.
      cbn [Murmur.xor_degree Murmur.cur_xor_set]. rewrite size_singleton.
      split; [lia |]. split; [| lia].
      intros i Hi. apply elem_of_singleton in Hi. lia.
    + injection Hstep as _ <-. split; [exact Hdeg |]. split; [| lia].
      intros i Hi. apply Hsub in Hi. lia.
Qed.

(** a hop of the generation-mode simulation raises only on a negative
    table index, a shorter second table or a missing identifier *)
Lemma generation_hop_total (pktid : Z) (n : nat) (s : Murmur.loop_state) :
  0 <= max_degree -> 0 <= Murmur.xor_degree s ->
  (length (Murmur.add_thresh apa) <= length (Murmur.replace_thresh apa))%nat ->
  (n < length switch_id)%nat ->
  is_Some (Murmur.hop apa max_degree switch_id pktid n s).
Proof.
  intros Hmd Hdeg Hlen Hn. unfold Murmur.hop. cbv zeta.
  set (idx := Z.of_nat n * max_degree + Murmur.xor_degree s).
  assert (Hidx : 0 <= idx) by (unfold idx; nia).
  destruct (Z.geb_spec idx (Z.of_nat (length (Murmur.add_thresh apa))))
    as [Hge | Hlt]; [eexists; reflexivity |].
  rewrite (py_getitem_nonneg (Murmur.add_thresh apa) idx Hidx).
  rewrite (py_getitem_nonneg (Murmur.replace_thresh apa) idx Hidx).
  rewrite (py_getitem_nonneg switch_id (Z.of_nat n)) by lia.
  rewrite Nat2Z.id.
  destruct (lookup_lt_is_Some_2 switch_id n Hn) as [id ->].
  destruct (lookup_lt_is_Some_2 (Murmur.add_thresh apa) (Z.to_nat idx)
              ltac:(lia)) as [a ->].
  destruct (lookup_lt_is_Some_2 (Murmur.replace_thresh apa) (Z.to_nat idx)
              ltac:(lia)) as [r ->].
  cbv beta iota delta [mbind option_bind].
  destruct (Murmur.threshold_action _ _ _); eexists; reflexivity.
Qed.

End GenerationMore.

Section GenerationPint.

Variables (apa : Murmur.APA) (max_degree : Z) (switch_id : list Z)
          (id_bits : nat).

Hypothesis Hwide : forall id, id ∈ switch_id -> 0 <= id < 2 ^ Z.of_nat id_bits.

(** the accumulator is as wide as the identifiers *)
Lemma generation_pint_range (pktid : Z) (n : nat) (s : Murmur.loop_state) :
  reach (Murmur.hop apa max_degree switch_id pktid) Murmur.init_state n s ->
  0 <= Murmur.pint s < 2 ^ Z.of_nat id_bits.
Proof.
  induction 1 as [| n s act s' Hreach IH Hstep].
  - cbn [Murmur.init_state Murmur.pint].
    split; [lia | apply Z.pow_pos_nonneg; lia].
  - unfold Murmur.hop in Hstep.
    destruct (_ >=? _); [discriminate |].
    destruct (py_getitem (Murmur.add_thresh apa) _) as [add_thr |];
      [| discriminate].
    destruct (py_getitem (Murmur.replace_thresh apa) _) as [rep_thr |];
      [| discriminate].
    cbv beta iota delta [mbind option_bind] in Hstep.
    destruct (Murmur.threshold_action _ _ _).
    + destruct (py_getitem switch_id (Z.of_nat n)) as [id |] eqn:Hid;
        [| discriminate].
      cbv beta iota delta [mbind option_bind] in Hstep.
      injection Hstep as _ <-. cbn [Murmur.pint].
      apply lxor_range; [exact IH |]. apply Hwide.
      rewrite py_getitem_nonneg in Hid by lia.
      eapply list_elem_of_lookup_2. exact Hid.
    + destruct (py_getitem switch_id (Z.of_nat n)) as [id |] eqn:Hid;
        [| discriminate].
      cbv beta iota delta [mbind option_bind] in Hstep.
      injection Hstep as _ <-. cbn [Murmur.pint].
      apply Hwide. rewrite py_getitem_nonneg in Hid by lia.
      eapply list_elem_of_lookup_2. exact Hid.
    + injection Hstep as _ <-. exact IH.
Qed.

End GenerationPint.

(** X11. At every hop of the generation-mode simulation the counter
    [xor_degree] equals the number of hops in the XOR-set, all of which
    precede the current hop; the histogram key [len(xor_set)] is therefore
    the final [xor_degree]. *)
Theorem generation_degree_is_set_size (apa : Murmur.APA) (max_degree : Z)
        (switch_id : list Z) (pktid : Z) (n : nat) (s : Murmur.loop_state) :
  reach (Murmur.hop apa max_degree switch_id pktid) Murmur.init_state n s ->
  Murmur.xor_degree s = Z.of_nat (size (Murmur.cur_xor_set s)) /\
  (forall i, i ∈ Murmur.cur_xor_set s -> 0 <= i < Z.of_nat n) /\
  0 <= Murmur.xor_degree s <= Z.of_nat n.
Proof.
  intros Hreach.
  destruct (generation_degree_inv apa max_degree switch_id pktid n s Hreach)
    as (Hdeg & Hsub & Hsize).
  split; [exact Hdeg |]. split; [exact Hsub | lia].
Qed.

(** packet 0 after an ADD at hop 0 *)
Lemma generation_degree_is_set_size_witness :
  exists s,
    reach (Murmur.hop (Murmur.mkAPA 2 2 (replicate 4 0xFFFFFFFF)
                                    (replicate 4 0xFFFFFFFF))
                      2 [0x1234; 0x5678] 0)
          Murmur.init_state 1 s /\
    Murmur.xor_degree s = 1 /\
    Murmur.xor_degree s = Z.of_nat (size (Murmur.cur_xor_set s)).
Proof.
  eexists.
  assert (Hreach :
    reach (Murmur.hop (Murmur.mkAPA 2 2 (replicate 4 0xFFFFFFFF)
                                    (replicate 4 0xFFFFFFFF))
                      2 [0x1234; 0x5678] 0)
          Murmur.init_state 1
          (Murmur.mkLoop 1 (Murmur.cur_xor_set Murmur.init_state
                            ∪ {[Z.of_nat 0]}) 0x1234)).
  { eapply reach_next; [apply reach_start | vm_compute; reflexivity]. }
  split; [exact Hreach |]. split; [reflexivity |].
  exact (proj1 (generation_degree_is_set_size _ _ _ _ _ _ Hreach)).
Defined.

(** X12. The equations returned by the generation-mode simulation come one
    per packet, in the order of the packet ids 0, 1, 2, ...; the [xor_set]
    of each holds hop indices below [num_hops] only, its [final_pint] is
    the XOR of the true identifiers over the [xor_set], and it is as wide
    as the identifiers are. *)
Theorem generated_equations_shape (apa : Murmur.APA) (max_degree : Z)
        (num_hops id_bits N : nat) (switch_id : list Z)
        (eqs : list PacketEquation) :
  Murmur.simulate_equations N apa num_hops max_degree switch_id = Some eqs ->
  length eqs = N /\
  forall i eq, eqs !! i = Some eq ->
    pktid eq = Z.of_nat i /\
    (forall h, h ∈ xor_set eq -> 0 <= h < Z.of_nat num_hops) /\
    final_pint eq = xor_ids num_hops switch_id (xor_set eq) /\
    ((forall id, id ∈ switch_id -> 0 <= id < 2 ^ Z.of_nat id_bits) ->
     0 <= final_pint eq < 2 ^ Z.of_nat id_bits).
Proof.
  unfold Murmur.simulate_equations. intros H.
  apply mapM_Some in H. split.
  { apply Forall2_length in H. rewrite length_seq in H. lia. }
  intros i eq Hi.
  destruct (Forall2_lookup_r _ _ _ _ _ H Hi) as (p & Hp & Hsim).
  apply lookup_seq in Hp as [-> _].
  destruct (Murmur.simulate_packet _ _ _ _ _) as [s |] eqn:Hs;
    [| discriminate].
  cbv beta iota delta [mbind option_bind] in Hsim. injection Hsim as <-.
  cbn [pktid xor_set final_pint].
  unfold Murmur.simulate_packet in Hs.
  apply run_hops_reach in Hs as (n & Hn & Hreach).
  destruct (generation_reach_inv apa max_degree switch_id num_hops _ n s
              Hreach Hn) as [Hsub Hpint].
  split; [reflexivity |]. split; [| split; [exact Hpint |]].
  - intros h Hh. apply Hsub in Hh. lia.
  - intros Hwide. eapply generation_pint_range; eassumption.
Qed.

Lemma generated_equations_shape_witness :
  exists eqs,
    Murmur.simulate_equations 2
      (Murmur.mkAPA 2 2 (replicate 4 0x80000000) (replicate 4 0xC0000000))
      2 2 [0x1234; 0x5678] = Some eqs /\
    length eqs = 2%nat.
Proof.
  eexists. split; [vm_compute; reflexivity |].
  apply (generated_equations_shape
           (Murmur.mkAPA 2 2 (replicate 4 0x80000000) (replicate 4 0xC0000000))
           2 2 16 2 [0x1234; 0x5678]).
  vm_compute. reflexivity.
Defined.

(** the packet loop raises nothing once there is an identifier for each
    hop *)
Lemma generation_loop_total (apa : Murmur.APA) (max_degree : Z)
        (num_hops N : nat) (switch_id : list Z) :
  0 <= max_degree ->
  (length (Murmur.add_thresh apa) <= length (Murmur.replace_thresh apa))%nat ->
  (num_hops <= length switch_id)%nat ->
  exists eqs,
    Murmur.simulate_equations N apa num_hops max_degree switch_id = Some eqs /\
    length eqs = N.
Proof.
  intros Hmd Hlen Hids.
  destruct (mapM_is_Some_2
              (fun pktid : nat =>
                 s ← Murmur.simulate_packet apa num_hops max_degree switch_id
                                            (Z.of_nat pktid);
                 Some (mkEq (Z.of_nat pktid) (Murmur.pint s)
                            (Murmur.cur_xor_set s)))
              (seq 0 N)) as [eqs Heqs].
  - apply Forall_forall. intros p _. unfold compose.
    destruct (run_hops_total
                (Murmur.hop apa max_degree switch_id (Z.of_nat p))
                Murmur.init_state num_hops 0 Murmur.init_state
                (reach_start _ _)) as [s Hs].
    + intros n s' Hn Hreach. apply generation_hop_total; try assumption; [| lia].
      destruct (generation_degree_inv _ _ _ _ _ _ Hreach) as (-> & _). lia.
    + unfold Murmur.simulate_packet. rewrite Hs. eexists. reflexivity.
  - exists eqs. split; [exact Heqs |].
    apply mapM_Some in Heqs. apply Forall2_length in Heqs.
    rewrite length_seq in Heqs. lia.
Qed.

(** X14. Decoding what the generation-mode simulation produced never ends
    with the warning of an inconsistent bit-plane, whatever the rank of
    the equations: with at least one packet [solve_switch_ids] returns a
    vector. *)
Theorem generated_system_is_solvable (apa : Murmur.APA) (max_degree : Z)
        (num_hops id_bits N : nat) (switch_id : list Z)
        (eqs : list PacketEquation) :
  Murmur.simulate_equations N apa num_hops max_degree switch_id = Some eqs ->
  (forall bit, Solver.solve_switch_ids_report eqs num_hops id_bits
               ≠ Solver.Inconsistent bit) /\
  ((1 <= N)%nat -> is_Some (Solver.solve_switch_ids eqs num_hops id_bits)).
Proof.
  intros Hsim. apply simulate_equations_hold in Hsim as [HlenN Hhold].
  destruct eqs as [| eq0 eqs'].
  { split; [intros bit; discriminate | simpl in HlenN; lia]. }
  destruct (solve_succeeds num_hops id_bits switch_id (eq0 :: eqs')
              ltac:(discriminate) Hhold) as [ids' Hsolve].
  split; [| intros _; rewrite Hsolve; eexists; reflexivity].
  intros bit Hbad. unfold Solver.solve_switch_ids in Hsolve.
  rewrite Hbad in Hsolve. discriminate.
Qed.

Lemma generated_system_is_solvable_witness :
  exists eqs,
    Murmur.simulate_equations 1
      (Murmur.mkAPA 2 2 (replicate 4 0x80000000) (replicate 4 0xC0000000))
      2 2 [0x1234; 0x5678] = Some eqs /\
    is_Some (Solver.solve_switch_ids eqs 2 16).
Proof.
  eexists. split; [vm_compute; reflexivity |].
  apply (generated_system_is_solvable
           (Murmur.mkAPA 2 2 (replicate 4 0x80000000) (replicate 4 0xC0000000))
           2 2 16 1 [0x1234; 0x5678]); [vm_compute; reflexivity | lia].
Defined.

Section Truncation.

(** beyond the last row of the table every hop of the generation-mode
    simulation takes the [break] *)
Lemma generation_hop_break (apa : Murmur.APA) (max_degree : Z)
      (switch_id : list Z) (pktid : Z) (hops n : nat) (s : Murmur.loop_state) :
  0 <= max_degree ->
  Z.of_nat (length (Murmur.add_thresh apa)) = Z.of_nat hops * max_degree ->
  (hops <= n)%nat -> 0 <= Murmur.xor_degree s ->
  Murmur.hop apa max_degree switch_id pktid n s = Some Break.
Proof.
  intros Hmd Hlen Hn Hdeg. unfold Murmur.hop. cbv zeta.
  destruct (Z.geb_spec (Z.of_nat n * max_degree + Murmur.xor_degree s)
              (Z.of_nat (length (Murmur.add_thresh apa)))) as [_ | Hlt];
    [reflexivity | exfalso; nia].
Qed.

Lemma generation_hop_nonneg (apa : Murmur.APA) (max_degree : Z)
      (switch_id : list Z) (pktid : Z) (n : nat) (act : action)
      (s s' : Murmur.loop_state) :
  0 <= Murmur.xor_degree s ->
  Murmur.hop apa max_degree switch_id pktid n s = Some (Next act s') ->
  0 <= Murmur.xor_degree s'.
Proof.
  intros Hdeg Hstep. unfold Murmur.hop in Hstep.
  destruct (_ >=? _); [discriminate |].
  destruct (py_getitem (Murmur.add_thresh apa) _); [| discriminate].
  destruct (py_getitem (Murmur.replace_thresh apa) _); [| discriminate].
  cbv beta iota delta [mbind option_bind] in Hstep.
  destruct (Murmur.threshold_action _ _ _).
  - destruct (py_getitem switch_id _); [| discriminate].
    cbv beta iota delta [mbind option_bind] in Hstep.
    injection Hstep as _ <-. cbn [Murmur.xor_degree]. lia.
  - destruct (py_getitem switch_id _); [| discriminate].
    cbv beta iota delta [mbind option_bind] in Hstep.
    injection Hstep as _ <-. cbn [Murmur.xor_degree]. lia.
  - injection Hstep as _ <-. exact Hdeg.
Qed.

Lemma decoding_hop_break (apa : Decoding.APA) (max_degree pktid : Z)
      (hops n : nat) (s : Decoding.loop_state) :
  0 <= max_degree ->
  Z.of_nat (length (Decoding.probs_a apa)) = Z.of_nat hops * max_degree ->
  (hops <= n)%nat -> 0 <= Decoding.xor_degree s ->
  Decoding.hop apa max_degree pktid n s = Some Break.
Proof.
  intros Hmd Hlen Hn Hdeg. unfold Decoding.hop. cbv zeta.
  destruct (Z.geb_spec (Z.of_nat n * max_degree + Decoding.xor_degree s)
              (Z.of_nat (length (Decoding.probs_a apa)))) as [_ | Hlt];
    [reflexivity | exfalso; nia].
Qed.

Lemma decoding_hop_nonneg (apa : Decoding.APA) (max_degree pktid : Z)
      (n : nat) (act : action) (s s' : Decoding.loop_state) :
  0 <= max_degree -> 0 <= Decoding.xor_degree s ->
  Decoding.hop apa max_degree pktid n s = Some (Next act s') ->
  0 <= Decoding.xor_degree s'.
Proof.
  intros Hmd Hdeg Hstep. unfold Decoding.hop in Hstep.
  destruct (_ >=? _); [discriminate |].
  destruct (py_getitem (Decoding.probs_a apa) _); [| discriminate].
  destruct (py_getitem (Decoding.probs_cum apa) _); [| discriminate].
  destruct (Decoding.recipe_hash_v4 _ _); [| discriminate].
  cbv beta iota delta [mbind option_bind] in Hstep.
  destruct (Decoding._p4_add_decision _ _).
  - destruct (Z.eqb_spec max_degree 0); [discriminate |].
    injection Hstep as _ <-. cbn [Decoding.xor_degree].
    apply Z.mod_pos_bound. lia.
  - destruct (Decoding._p4_replace_decision _ _);
      injection Hstep as _ <-; [cbn [Decoding.xor_degree]; lia | exact Hdeg].
Qed.

End Truncation.

(** X15. Asking the generation-mode simulation for more hops than the
    table of thresholds has rows changes nothing: with a table of
    [hops * max_degree] cells and [num_hops >= hops], the equations are
    those obtained with [num_hops = hops]. *)
Theorem generation_stops_at_table_end (apa : Murmur.APA) (max_degree : Z)
        (hops num_hops N : nat) (switch_id : list Z) :
  0 <= max_degree ->
  Z.of_nat (length (Murmur.add_thresh apa)) = Z.of_nat hops * max_degree ->
  (hops <= num_hops)%nat ->
  Murmur.simulate_equations N apa num_hops max_degree switch_id
  = Murmur.simulate_equations N apa hops max_degree switch_id.
Proof.
  intros Hmd Hlen Hle.
  assert (Hpkt : forall pktid,
            Murmur.simulate_packet apa num_hops max_degree switch_id pktid
            = Murmur.simulate_packet apa hops max_degree switch_id pktid).
  { intros pktid. unfold Murmur.simulate_packet.
    replace num_hops with (hops + (num_hops - hops))%nat by lia.
    apply (run_hops_truncate _ (fun s => 0 <= Murmur.xor_degree s) hops).
    - intros n s act s'. apply generation_hop_nonneg.
    - intros n s Hn Hdeg. eapply generation_hop_break; eassumption.
    - reflexivity.
    - cbn [Murmur.init_state Murmur.xor_degree]. lia. }
  unfold Murmur.simulate_equations.
  induction (seq 0 N) as [| p l IH]; [reflexivity |].
  change (mapM ?f (p :: l)) with (y ← f p; k ← mapM f l; mret (y :: k)).
  cbv beta. rewrite Hpkt, IH. reflexivity.
Qed.

Lemma generation_stops_at_table_end_witness :
  Murmur.simulate_equations 2
    (Murmur.mkAPA 2 2 (replicate 4 0x80000000) (replicate 4 0xC0000000))
    5 2 [0x1234; 0x5678]
  = Murmur.simulate_equations 2
      (Murmur.mkAPA 2 2 (replicate 4 0x80000000) (replicate 4 0xC0000000))
      2 2 [0x1234; 0x5678].
Proof.
  apply generation_stops_at_table_end; [lia | reflexivity | lia].
Defined.

(** X16. The same holds of the decode-mode simulation, whose caller does
    not clamp a requested number of hops: with a table of
    [hops * max_degree] cells and [num_hops >= hops], every packet is
    simulated as with [num_hops = hops], so no hop index from [hops] on
    enters an [xor_set]. *)
Theorem reconstruction_stops_at_table_end (apa : Decoding.APA)
        (max_degree : Z) (hops num_hops : nat) (logs : gmap Z Decoding.PacketLog) :
  0 <= max_degree ->
  Z.of_nat (length (Decoding.probs_a apa)) = Z.of_nat hops * max_degree ->
  (hops <= num_hops)%nat ->
  Decoding.reconstruct_xor_sets logs apa num_hops max_degree
  = Decoding.reconstruct_xor_sets logs apa hops max_degree.
Proof.
  intros Hmd Hlen Hle.
  assert (Hpkt : forall pktid,
            Decoding.reconstruct_packet apa num_hops max_degree pktid
            = Decoding.reconstruct_packet apa hops max_degree pktid).
  { intros pktid. unfold Decoding.reconstruct_packet.
    replace num_hops with (hops + (num_hops - hops))%nat by lia.
    apply (run_hops_truncate _ (fun s => 0 <= Decoding.xor_degree s) hops).
    - intros n s act s'. apply decoding_hop_nonneg. exact Hmd.
    - intros n s Hn Hdeg. eapply decoding_hop_break; eassumption.
    - reflexivity.
    - cbn [Decoding.init_state Decoding.xor_degree]. lia. }
  unfold Decoding.reconstruct_xor_sets.
  induction (Decoding.sorted_items logs) as [| [p plog] l IH]; [reflexivity |].
  change (mapM ?f ((p, plog) :: l))
    with (y ← f (p, plog); k ← mapM f l; mret (y :: k)).
  cbv beta iota. rewrite Hpkt, IH. reflexivity.
Qed.

Lemma reconstruction_stops_at_table_end_witness :
  Decoding.reconstruct_xor_sets
    {[ 7 := Decoding.mkLog 7 [(0, 64, 0x1234, 1)] ]}
    (Decoding.mkAPA 2 2 (replicate 4 0x80000000) (replicate 4 0xC0000000))
    300 2
  = Decoding.reconstruct_xor_sets
      {[ 7 := Decoding.mkLog 7 [(0, 64, 0x1234, 1)] ]}
      (Decoding.mkAPA 2 2 (replicate 4 0x80000000) (replicate 4 0xC0000000))
      2 2.
Proof.
  apply reconstruction_stops_at_table_end; [lia | reflexivity | lia].
Defined.

Section Reconstruction.

Import Decoding.

Lemma StronglySorted_lookup_lt {T : Type} (R : relation T) (l : list T) :
  StronglySorted R l ->
  forall i j x y, (i < j)%nat -> l !! i = Some x -> l !! j = Some y -> R x y.
Proof.
  induction 1 as [| a l Hs IH Hall]; intros i j x y Hij Hi Hj.
  { rewrite lookup_nil in Hi. discriminate. }
  destruct j as [| j]; [lia |]. simpl in Hj.
  destruct i as [| i].
  - simpl in Hi. injection Hi as <-.
    rewrite Forall_forall in Hall. apply Hall.
    eapply list_elem_of_lookup_2. exact Hj.
  - simpl in Hi. apply (IH i j); [lia | assumption ..].
Qed.

(** the pairs of [sorted(logs.items())] *)
Lemma sorted_items_spec (logs : gmap Z PacketLog) :
  length (sorted_items logs) = size logs /\
  (forall p plog, (p, plog) ∈ sorted_items logs <-> logs !! p = Some plog) /\
  (forall i j a b, (i < j)%nat -> sorted_items logs !! i = Some a ->
                   sorted_items logs !! j = Some b -> a.1 < b.1).
Proof.
  unfold sorted_items.
  pose proof (merge_sort_Permutation item_le (map_to_list logs)) as Hperm.
  split; [| split].
  - rewrite Hperm. apply length_map_to_list.
  - intros p plog. rewrite Hperm. apply elem_of_map_to_list.
  - intros i j a b Hij Ha Hb.
    assert (Htrans : Transitive item_le)
      by (intros x y z; unfold item_le; lia).
    assert (Htotal : Total item_le)
      by (intros x y; unfold item_le; lia).
    pose proof (StronglySorted_merge_sort item_le (map_to_list logs)) as Hs.
    pose proof (StronglySorted_lookup_lt _ _ Hs i j a b Hij Ha Hb) as Hle.
    unfold item_le in Hle.
    assert (Hnd : NoDup ((merge_sort item_le (map_to_list logs)).*1)).
    { rewrite Hperm. apply NoDup_fst_map_to_list. }
    destruct (Z.eq_dec a.1 b.1) as [E | Hne]; [exfalso | lia].
    assert (i = j); [| lia].
    apply (NoDup_lookup _ i j a.1 Hnd);
      rewrite list_lookup_fmap; [rewrite Ha | rewrite Hb, E]; reflexivity.
Qed.

(** on entering hop [n] of the decode-mode simulation the XOR-set holds
    hops below [n] only *)
Lemma decoding_set_inv (apa : APA) (max_degree pktid : Z) (n : nat)
      (s : loop_state) :
  reach (hop apa max_degree pktid) init_state n s ->
  forall i, i ∈ cur_xor_set s -> 0 <= i < Z.of_nat n.
Proof.
  induction 1 as [| n s act s' Hreach IH Hstep]; intros i Hi.
  - cbn [init_state cur_xor_set] in Hi. apply elem_of_empty in Hi.
    contradiction.
  - unfold hop in Hstep.
    destruct (_ >=? _); [discriminate |].
    destruct (py_getitem (probs_a apa) _); [| discriminate].
    destruct (py_getitem (probs_cum apa) _); [| discriminate].
    destruct (recipe_hash_v4 _ _); [| discriminate].
    cbv beta iota delta [mbind option_bind] in Hstep.
    destruct (_p4_add_decision _ _).
    + destruct (max_degree =? 0); [discriminate |].
      injection Hstep as _ <-. cbn [cur_xor_set] in Hi.
      destruct (decide (Z.of_nat n ∈ cur_xor_set s)).
      * apply elem_of_difference in Hi as [Hi _]. apply IH in Hi. lia.
      * apply elem_of_union in Hi as [Hi | Hi];
          [apply IH in Hi | apply elem_of_singleton in Hi]; lia.
    + destruct (_p4_replace_decision _ _); injection Hstep as _ <-.
      * cbn [cur_xor_set] in Hi. apply elem_of_singleton in Hi. lia.
      * apply IH in Hi. lia.
Qed.

Lemma decoding_reach_nonneg (apa : APA) (max_degree pktid : Z) (n : nat)
      (s : loop_state) :
  0 <= max_degree ->
  reach (hop apa max_degree pktid) init_state n s -> 0 <= xor_degree s.
Proof.
  intros Hmd. induction 1 as [| n s act s' Hreach IHreach Hstep].
  - cbn [init_state xor_degree]. lia.
  - exact (decoding_hop_nonneg apa max_degree pktid n act s s' Hmd IHreach Hstep).
Qed.

(** the checksum hash is defined on 16-bit packet ids and 8-bit hops *)
Lemma decoding_hash_is_Some (pktid hopid : Z) :
  is_Some (recipe_hash_v4 pktid hopid)
  <-> 0 <= pktid < 2 ^ 16 /\ 0 <= hopid < 2 ^ 8.
Proof.
  unfold recipe_hash_v4. cbv zeta.
  change (pack_be 4 SRC_IP_U32) with (Some [10; 0; 0; 1]).
  change (pack_be 4 DST_IP_U32) with (Some [10; 0; 0; 2]).
  change (pack_be 1 IP_PROTO_RECIPE) with (Some [146]).
  cbv beta iota delta [mbind option_bind].
  pose proof (pack_be_Some 2 pktid) as Hp.
  pose proof (pack_be_Some 1 hopid) as Hh.
  change (2 ^ (8 * Z.of_nat 2)) with (2 ^ 16) in Hp.
  change (2 ^ (8 * Z.of_nat 1)) with (2 ^ 8) in Hh.
  destruct (pack_be 2 pktid) as [b_id |].
  - destruct (pack_be 1 hopid) as [b_hop |].
    + split; [intros _ | intros _; eexists; reflexivity].
      split; [apply Hp | apply Hh]; eexists; reflexivity.
    + split; [intros [v Hv]; discriminate |].
      intros [_ H]. apply Hh in H. destruct H. discriminate.
  - split; [intros [v Hv]; discriminate |].
    intros [H _]. apply Hp in H. destruct H. discriminate.
Qed.

(** a hop of the decode-mode simulation raises only on a packing error, a
    negative table index, a shorter second table or a zero [max_degree] *)
Lemma decoding_hop_total (apa : APA) (max_degree pktid : Z) (n : nat)
      (s : loop_state) :
  1 <= max_degree -> 0 <= xor_degree s ->
  (length (probs_a apa) <= length (probs_cum apa))%nat ->
  0 <= pktid < 2 ^ 16 -> (n < 256)%nat ->
  is_Some (hop apa max_degree pktid n s).
Proof.
  intros Hmd Hdeg Hlen Hp Hn. unfold hop. cbv zeta.
  set (idx := Z.of_nat n * max_degree + xor_degree s).
  assert (Hidx : 0 <= idx) by (unfold idx; nia).
  destruct (Z.geb_spec idx (Z.of_nat (length (probs_a apa))))
    as [Hge | Hlt]; [eexists; reflexivity |].
  rewrite (py_getitem_nonneg (probs_a apa) idx Hidx).
  rewrite (py_getitem_nonneg (probs_cum apa) idx Hidx).
  destruct (lookup_lt_is_Some_2 (probs_a apa) (Z.to_nat idx) ltac:(lia))
    as [a ->].
  destruct (lookup_lt_is_Some_2 (probs_cum apa) (Z.to_nat idx) ltac:(lia))
    as [c ->].
  destruct (proj2 (decoding_hash_is_Some pktid (Z.of_nat n)) ltac:(lia))
    as [h ->].
  cbv beta iota delta [mbind option_bind].
  destruct (_p4_add_decision _ _).
  - destruct (Z.eqb_spec max_degree 0); [lia | eexists; reflexivity].
  - destruct (_p4_replace_decision _ _); eexists; reflexivity.
Qed.

End Reconstruction.

Section ReconstructionItems.

Import Decoding.

(** what the loop over the sorted logs appends for the log at position
    [i] *)
Lemma reconstruct_item (logs : gmap Z PacketLog) (apa : APA)
      (num_hops : nat) (max_degree : Z) (eqs : list PacketEquationD) :
  reconstruct_xor_sets logs apa num_hops max_degree = Some eqs ->
  length eqs = length (sorted_items logs) /\
  forall i e, eqs !! i = Some e ->
    exists plog s,
      sorted_items logs !! i = Some (pktid (eqn e), plog) /\
      reconstruct_packet apa num_hops max_degree (pktid (eqn e)) = Some s /\
      log_final_pint plog = Some (final_pint (eqn e)) /\
      xor_set (eqn e) = cur_xor_set s /\
      simulated_degree e = xor_degree s.
Proof.
  unfold reconstruct_xor_sets. intros H. apply mapM_Some in H.
  split; [symmetry; eapply Forall2_length; exact H |].
  intros i e Hi.
  destruct (Forall2_lookup_r _ _ _ _ _ H Hi) as ([p plog] & Hp & Hf).
  cbv beta iota in Hf.
  destruct (reconstruct_packet apa num_hops max_degree p) as [s |] eqn:Hs;
    [| discriminate].
  destruct (log_final_pint plog) as [pint |] eqn:Hpint; [| discriminate].
  cbv beta iota delta [mbind option_bind] in Hf. injection Hf as <-.
  cbn [eqn pktid final_pint xor_set simulated_degree].
  exists plog, s. repeat split; assumption.
Qed.

End ReconstructionItems.

(** X17. [reconstruct_xor_sets] returns one equation per packet log, in
    strictly increasing order of the packet ids; the [final_pint] of an
    equation is the accumulator of the last row of its log, its [xor_set]
    holds hop indices below [num_hops] only, and with [max_degree >= 2]
    its [simulated_degree] lies in [0, max_degree). *)
Theorem reconstructed_equations_shape (logs : gmap Z Decoding.PacketLog)
        (apa : Decoding.APA) (num_hops : nat) (max_degree : Z)
        (eqs : list Decoding.PacketEquationD) :
  Decoding.reconstruct_xor_sets logs apa num_hops max_degree = Some eqs ->
  length eqs = size logs /\
  (forall i j e e', (i < j)%nat -> eqs !! i = Some e -> eqs !! j = Some e' ->
     pktid (Decoding.eqn e) < pktid (Decoding.eqn e')) /\
  (forall p plog, logs !! p = Some plog ->
     exists e, e ∈ eqs /\ pktid (Decoding.eqn e) = p /\
               Decoding.log_final_pint plog
               = Some (final_pint (Decoding.eqn e))) /\
  (forall e, e ∈ eqs ->
     is_Some (logs !! pktid (Decoding.eqn e)) /\
     (forall h, h ∈ xor_set (Decoding.eqn e) -> 0 <= h < Z.of_nat num_hops) /\
     (2 <= max_degree -> 0 <= Decoding.simulated_degree e < max_degree)).
Proof.
  intros H. apply reconstruct_item in H as [Hlen Hitem].
  destruct (sorted_items_spec logs) as (Hsize & Hin & Hsorted).
  split; [lia |]. split; [| split].
  - intros i j e e' Hij Hi Hj.
    destruct (Hitem i e Hi) as (plog & s & Ha & _).
    destruct (Hitem j e' Hj) as (plog' & s' & Hb & _).
    exact (Hsorted i j _ _ Hij Ha Hb).
  - intros p plog Hp. apply Hin in Hp.
    apply list_elem_of_lookup in Hp as [i Hi].
    destruct (lookup_lt_is_Some_2 eqs i) as [e He].
    { rewrite Hlen. eapply lookup_lt_Some. exact Hi. }
    destruct (Hitem i e He) as (plog' & s & Ha & _ & Hpint & _).
    rewrite Hi in Ha. injection Ha as -> <-.
    exists e. split; [eapply list_elem_of_lookup_2; exact He |].
    split; [reflexivity | exact Hpint].
  - intros e He. apply list_elem_of_lookup in He as [i Hi].
    destruct (Hitem i e Hi) as (plog & s & Ha & Hs & _ & Hset & Hdeg).
    split; [| split].
    + exists plog. apply Hin. eapply list_elem_of_lookup_2. exact Ha.
    + intros h Hh. rewrite Hset in Hh.
      unfold Decoding.reconstruct_packet in Hs.
      apply run_hops_reach in Hs as (n & Hn & Hreach).
      pose proof (decoding_set_inv _ _ _ _ _ Hreach h Hh). lia.
    + intros Hmd. rewrite Hdeg.
      unfold Decoding.reconstruct_packet in Hs.
      apply run_hops_reach in Hs as (n & Hn & Hreach).
      eapply decoding_degree_range; eassumption.
Qed.

Lemma reconstructed_equations_shape_witness :
  exists eqs,
    Decoding.reconstruct_xor_sets
      {[ 7 := Decoding.mkLog 7 [(0, 64, 0x1234, 1)];
         3 := Decoding.mkLog 3 [(0, 64, 0x5678, 1)] ]}
      (Decoding.mkAPA 2 2 (replicate 4 0x80000000) (replicate 4 0xC0000000))
      2 2 = Some eqs /\
    length eqs = 2%nat.
Proof.
  assert (E : exists eqs,
    Decoding.reconstruct_xor_sets
      {[ 7 := Decoding.mkLog 7 [(0, 64, 0x1234, 1)];
         3 := Decoding.mkLog 3 [(0, 64, 0x5678, 1)] ]}
      (Decoding.mkAPA 2 2 (replicate 4 0x80000000) (replicate 4 0xC0000000))
      2 2 = Some eqs) by (vm_compute; eexists; reflexivity).
  destruct E as [eqs E]. exists eqs. split; [exact E |].
  rewrite (proj1 (reconstructed_equations_shape _ _ _ _ _ E)).
  vm_compute. reflexivity.
Defined.

(** X18. With [max_degree >= 1], between 1 and 256 hops and non-empty
    tables of which the second is at least as long as the first,
    [reconstruct_xor_sets] returns exactly when every packet id lies in
    [0, 2^16) and every log has a row; otherwise it raises (the packing
    error of the hash, or the index error of [rows[-1]]). *)
Theorem reconstruction_succeeds_iff (logs : gmap Z Decoding.PacketLog)
        (apa : Decoding.APA) (num_hops : nat) (max_degree : Z) :
  1 <= max_degree -> (1 <= num_hops <= 256)%nat ->
  (1 <= length (Decoding.probs_a apa) <= length (Decoding.probs_cum apa))%nat ->
  (is_Some (Decoding.reconstruct_xor_sets logs apa num_hops max_degree) <->
   forall p plog, logs !! p = Some plog ->
     0 <= p < 2 ^ 16 /\ Decoding.rows plog ≠ []).
Proof.
  intros Hmd Hhops Hlen.
  destruct (sorted_items_spec logs) as (_ & Hin & _).
  unfold Decoding.reconstruct_xor_sets. rewrite mapM_is_Some, Forall_forall.
  split.
  - intros Hall p plog Hp. apply Hin in Hp. apply Hall in Hp.
    unfold compose in Hp. cbv beta iota in Hp.
    destruct (Decoding.reconstruct_packet apa num_hops max_degree p)
      as [s |] eqn:Hs; [| destruct Hp; discriminate].
    destruct (Decoding.log_final_pint plog) as [pint |] eqn:Hpint;
      [| destruct Hp; discriminate].
    split.
    + unfold Decoding.reconstruct_packet in Hs.
      destruct num_hops as [| k]; [lia |].
      change (seq 0 (S k)) with (0%nat :: seq 1 k) in Hs.
      cbn [run_hops] in Hs.
      destruct (Decoding.hop apa max_degree p 0 Decoding.init_state)
        as [r |] eqn:Hhop; [| discriminate].
      clear Hs. unfold Decoding.hop in Hhop. cbv zeta in Hhop.
      cbn [Decoding.init_state Decoding.xor_degree] in Hhop.
      change (Z.of_nat 0 * max_degree + 0) with 0 in Hhop.
      destruct (Z.geb_spec 0 (Z.of_nat (length (Decoding.probs_a apa))));
        [lia |].
      rewrite !py_getitem_nonneg in Hhop by lia.
      change (Z.to_nat 0) with 0%nat in Hhop.
      destruct (lookup_lt_is_Some_2 (Decoding.probs_a apa) 0 ltac:(lia))
        as [a Ha].
      destruct (lookup_lt_is_Some_2 (Decoding.probs_cum apa) 0 ltac:(lia))
        as [c Hc].
      rewrite Ha, Hc in Hhop.
      cbv beta iota delta [mbind option_bind] in Hhop.
      destruct (Decoding.recipe_hash_v4 p (Z.of_nat 0)) as [h |] eqn:Hh;
        [| discriminate].
      apply (decoding_hash_is_Some p (Z.of_nat 0)). eexists. exact Hh.
    + intros Hrows. unfold Decoding.log_final_pint in Hpint.
      rewrite Hrows in Hpint. discriminate.
  - intros Hall [p plog] Hp. apply Hin in Hp.
    destruct (Hall p plog Hp) as [Hrange Hrows].
    unfold compose. cbv beta iota.
    destruct (run_hops_total (Decoding.hop apa max_degree p)
                Decoding.init_state num_hops 0 Decoding.init_state
                (reach_start _ _)) as [s Hs].
    { intros n s' Hn Hreach. apply decoding_hop_total; try assumption; try lia.
      eapply decoding_reach_nonneg; [| exact Hreach]. lia. }
    unfold Decoding.reconstruct_packet. rewrite Hs.
    cbv beta iota delta [mbind option_bind].
    unfold Decoding.log_final_pint.
    destruct (Decoding.rows plog) as [| r rs] eqn:Er; [congruence |].
    assert (Hlast : is_Some (py_getitem (r :: rs) (-1))).
    { unfold py_getitem.
      destruct (Z.leb_spec 0 (-1)); [lia |].
      destruct (Z.leb_spec (- Z.of_nat (length (r :: rs))) (-1));
        [| simpl in *; lia].
      apply lookup_lt_is_Some_2. simpl. lia. }
    destruct Hlast as [v ->]. eexists. reflexivity.
Qed.

Lemma reconstruction_succeeds_iff_witness :
  is_Some (Decoding.reconstruct_xor_sets
             {[ 7 := Decoding.mkLog 7 [(0, 64, 0x1234, 1)] ]}
             (Decoding.mkAPA 2 2 (replicate 4 0x80000000)
                             (replicate 4 0xC0000000))
             2 2).
Proof.
  apply (reconstruction_succeeds_iff
           {[ 7 := Decoding.mkLog 7 [(0, 64, 0x1234, 1)] ]}
           (Decoding.mkAPA 2 2 (replicate 4 0x80000000)
                           (replicate 4 0xC0000000)) 2 2);
    [lia | lia | simpl; lia |].
  intros p plog Hp. apply lookup_singleton_Some in Hp as [<- <-].
  split; [lia | discriminate].
Defined.

Section Histogram.

Import Distribution.

Lemma total_count_degree (d : gmap Z Z) (k : Z) :
  total (count_degree d k) = total d + 1.
Proof.
  unfold total, count_degree.
  assert (Hcomm : forall (m : gmap Z Z) (j1 j2 z1 z2 y : Z),
            j1 ≠ j2 -> m !! j1 = Some z1 -> m !! j2 = Some z2 ->
            y + z2 + z1 = y + z1 + z2) by (intros; lia).
  destruct (d !! k) as [c |] eqn:E.
  - rewrite <- insert_delete_eq.
    rewrite map_fold_insert_L;
      [| intros; lia | apply lookup_delete_eq].
    rewrite (map_fold_delete_L _ 0 k c d); [| intros; lia | exact E].
    simpl. lia.
  - rewrite map_fold_insert_L; [| intros; lia | exact E]. simpl. lia.
Qed.

Lemma total_tally (eqs : list PacketEquation) :
  forall d, total (tally d eqs) = total d + Z.of_nat (length eqs).
Proof.
  induction eqs as [| eq eqs IH]; intros d; simpl; [lia |].
  unfold tally in IH |- *. simpl. rewrite IH, total_count_degree. lia.
Qed.

Lemma tally_lookup (eqs : list PacketEquation) (k : Z) :
  forall d, default 0 (tally d eqs !! k)
            = default 0 (d !! k) + packets_of_degree k eqs.
Proof.
  unfold packets_of_degree.
  induction eqs as [| eq eqs IH]; intros d; [simpl; lia |].
  unfold tally in IH |- *. simpl foldl. rewrite IH.
  unfold count_degree.
  destruct (decide (Z.of_nat (size (xor_set eq)) = k)) as [E | Hne].
  - rewrite filter_cons_True by exact E. rewrite E, lookup_insert_eq.
    simpl. lia.
  - rewrite filter_cons_False by exact Hne.
    rewrite lookup_insert_ne by exact Hne. reflexivity.
Qed.

Lemma tally_positive (eqs : list PacketEquation) :
  forall d, (forall k c, d !! k = Some c -> 1 <= c) ->
    forall k c, tally d eqs !! k = Some c -> 1 <= c.
Proof.
  induction eqs as [| eq eqs IH]; intros d Hd; [exact Hd |].
  unfold tally in IH |- *. simpl foldl. apply IH.
  intros k c. unfold count_degree.
  destruct (decide (Z.of_nat (size (xor_set eq)) = k)) as [E | Hne].
  - rewrite E, lookup_insert_eq. intros [= <-].
    destruct (d !! k) as [c0 |] eqn:E0; simpl; [| lia].
    apply Hd in E0. lia.
  - rewrite lookup_insert_ne by exact Hne. apply Hd.
Qed.

(** once a packet has raised, the loop over the packets is left *)
Lemma foldl_None {A B : Type} (F : option A -> B -> option A) (l : list B) :
  (forall b, F None b = None) -> foldl F None l = None.
Proof.
  intros HF. induction l as [| b l IH]; simpl; [reflexivity |].
  rewrite HF. exact IH.
Qed.

(** the loop over the packets returns the equations of
    [simulate_equations] and their tally *)
Lemma distribution_unfold (apa : Murmur.APA) (num_hops : nat)
      (max_degree : Z) (switch_id : list Z) (l : list nat) :
  forall d acc,
    foldl (fun acc0 (pktid : nat) =>
             '(xor_dist, equations) ← acc0;
             s ← Murmur.simulate_packet apa num_hops max_degree switch_id
                                        (Z.of_nat pktid);
             let final_degree := Z.of_nat (size (Murmur.cur_xor_set s)) in
             Some (count_degree xor_dist final_degree,
                   equations ++ [mkEq (Z.of_nat pktid) (Murmur.pint s)
                                      (Murmur.cur_xor_set s)]))
          (Some (d, acc)) l
    = es ← mapM (fun pktid : nat =>
                   s ← Murmur.simulate_packet apa num_hops max_degree
                                              switch_id (Z.of_nat pktid);
                   Some (mkEq (Z.of_nat pktid) (Murmur.pint s)
                              (Murmur.cur_xor_set s))) l;
      Some (tally d es, acc ++ es).
Proof.
  induction l as [| p l IH]; intros d acc.
  { simpl. rewrite app_nil_r. reflexivity. }
  change (mapM ?f (p :: l)) with (y ← f p; k ← mapM f l; mret (y :: k)).
  cbv beta. cbn [foldl].
  destruct (Murmur.simulate_packet apa num_hops max_degree switch_id
              (Z.of_nat p)) as [s |].
  - cbv beta iota zeta delta [mbind option_bind]. rewrite IH.
    destruct (mapM _ l) as [es |]; [| reflexivity].
    cbv beta iota delta [mbind option_bind mret option_ret].
    rewrite <- app_assoc. reflexivity.
  - cbv beta iota zeta delta [mbind option_bind].
    apply foldl_None. intros b. reflexivity.
Qed.

End Histogram.

Section Draw.

Context {rng_state : Type} (getrandbits : Z -> rng_state -> option (Z * rng_state)).

Lemma draw_total (id_bits : Z) (n : nat) :
  (forall rng, exists v rng',
      getrandbits id_bits rng = Some (v, rng') /\ 0 <= v < 2 ^ id_bits) ->
  forall rng, exists ids,
    Simulation.draw getrandbits id_bits n rng = Some ids /\
    length ids = n /\ Forall (fun v => 0 <= v < 2 ^ id_bits) ids.
Proof.
  intros Hdraw. induction n as [| n IH]; intros rng.
  - exists []. repeat split. constructor.
  - destruct (Hdraw rng) as (v & rng' & E & Hv).
    destruct (IH rng') as (ids & E' & Hlen & Hall).
    exists (v :: ids). cbn [Simulation.draw]. rewrite E.
    cbv beta iota delta [mbind option_bind]. rewrite E'.
    split; [reflexivity |]. split; [simpl; lia |].
    constructor; assumption.
Qed.

Lemma draw_raises (id_bits : Z) (n : nat) (rng : rng_state) :
  getrandbits id_bits rng = None -> (0 < n)%nat ->
  Simulation.draw getrandbits id_bits n rng = None.
Proof.
  intros E Hn. destruct n as [| n]; [lia |].
  cbn [Simulation.draw]. rewrite E. reflexivity.
Qed.

End Draw.

(** X13. [simulate_xor_degree_distribution] of [decoding_murmur.py], for a
    generator that returns a [k]-bit value for [0 < k < 2^31] and raises on
    a negative [k]: with [0 < id_bits < 2^31], [max_degree >= 0] and a
    table of REPLACE thresholds at least as long as the table of ADD
    thresholds it raises no exception and returns one equation per packet
    and one identifier of [id_bits] bits per hop; with a negative [id_bits]
    and at least one hop it raises in the draw; and with no hop it raises
    nothing, whatever the other arguments. *)
Theorem generation_never_raises (rng_state : Type) (seeded : rng_state)
        (getrandbits : Z -> rng_state -> option (Z * rng_state))
        (apa : Murmur.APA) (num_packets num_hops max_degree id_bits : Z) :
  (forall k rng, 0 < k < 2 ^ 31 ->
     exists v rng', getrandbits k rng = Some (v, rng') /\ 0 <= v < 2 ^ k) ->
  (forall k rng, k < 0 -> getrandbits k rng = None) ->
  (0 < id_bits < 2 ^ 31 -> 0 <= max_degree ->
   (length (Murmur.add_thresh apa) <= length (Murmur.replace_thresh apa))%nat ->
   exists xor_dist equations switch_id,
     Simulation.simulate_xor_degree_distribution
       seeded getrandbits num_packets apa num_hops max_degree id_bits
     = Some (xor_dist, equations, switch_id) /\
     length equations = Z.to_nat num_packets /\
     length switch_id = Z.to_nat num_hops /\
     Forall (fun v => 0 <= v < 2 ^ id_bits) switch_id) /\
  (id_bits < 0 -> 0 < num_hops ->
   Simulation.simulate_xor_degree_distribution
     seeded getrandbits num_packets apa num_hops max_degree id_bits = None) /\
  (num_hops <= 0 ->
   exists xor_dist equations,
     Simulation.simulate_xor_degree_distribution
       seeded getrandbits num_packets apa num_hops max_degree id_bits
     = Some (xor_dist, equations, []) /\
     length equations = Z.to_nat num_packets).
Proof.
  intros Hdraw Hneg. unfold Simulation.simulate_xor_degree_distribution.
  split; [| split].
  - intros Hbits Hmd Hlen.
    destruct (draw_total getrandbits id_bits (Z.to_nat num_hops)
                (fun rng => Hdraw id_bits rng Hbits) seeded)
      as (ids & -> & Hids & Hrange).
    cbv beta iota delta [mbind option_bind].
    destruct (generation_loop_total apa max_degree (Z.to_nat num_hops)
                (Z.to_nat num_packets) ids Hmd Hlen ltac:(lia))
      as (eqs & Heqs & Hn).
    unfold Distribution.simulate_xor_degree_distribution.
    rewrite distribution_unfold. unfold Murmur.simulate_equations in Heqs.
    rewrite Heqs. cbv beta iota delta [mbind option_bind].
    exists (tally ∅ eqs), ([] ++ eqs), ids. simpl app.
    repeat split; assumption.
  - intros Hbits Hhops.
    rewrite (draw_raises getrandbits id_bits (Z.to_nat num_hops) seeded
               (Hneg id_bits seeded Hbits) ltac:(lia)).
    reflexivity.
  - intros Hhops. replace (Z.to_nat num_hops) with 0%nat by lia.
    cbn [Simulation.draw]. cbv beta iota delta [mbind option_bind].
    unfold Distribution.simulate_xor_degree_distribution.
    rewrite distribution_unfold.
    destruct (mapM_is_Some_2
                (fun pktid : nat =>
                   s ← Murmur.simulate_packet apa 0 max_degree []
                                              (Z.of_nat pktid);
                   Some (mkEq (Z.of_nat pktid) (Murmur.pint s)
                              (Murmur.cur_xor_set s)))
                (seq 0 (Z.to_nat num_packets))) as [eqs Heqs].
    + apply Forall_forall. intros p _. eexists. reflexivity.
    + rewrite Heqs. cbv beta iota delta [mbind option_bind].
      exists (tally ∅ eqs), ([] ++ eqs). split; [reflexivity |]. simpl app.
      apply mapM_Some in Heqs. apply Forall2_length in Heqs.
      rewrite length_seq in Heqs. lia.
Qed.

Lemma generation_never_raises_witness :
  (exists xor_dist equations switch_id,
     Simulation.simulate_xor_degree_distribution
       0 example_getrandbits 3
       (Murmur.mkAPA 2 2 (replicate 4 0x80000000) (replicate 4 0xC0000000))
       2 2 16
     = Some (xor_dist, equations, switch_id) /\
     length equations = 3%nat /\ length switch_id = 2%nat) /\
  Simulation.simulate_xor_degree_distribution
    0 example_getrandbits 3
    (Murmur.mkAPA 2 2 (replicate 4 0x80000000) (replicate 4 0xC0000000))
    2 2 (-1) = None.
Proof.
  assert (Hdraw : forall k rng : Z, 0 < k < 2 ^ 31 ->
            exists v rng', example_getrandbits k rng = Some (v, rng') /\
                           0 <= v < 2 ^ k).
  { intros k rng Hk. unfold example_getrandbits.
    destruct (Z.ltb_spec k 0); [lia |]. eexists _, _. split; [reflexivity |].
    apply Z.mod_pos_bound. apply Z.pow_pos_nonneg; lia. }
  assert (Hneg : forall k rng : Z, k < 0 -> example_getrandbits k rng = None).
  { intros k rng Hk. unfold example_getrandbits.
    destruct (Z.ltb_spec k 0); [reflexivity | lia]. }
  split.
  - destruct (proj1 (generation_never_raises Z 0 example_getrandbits
                       (Murmur.mkAPA 2 2 (replicate 4 0x80000000)
                                     (replicate 4 0xC0000000))
                       3 2 2 16 Hdraw Hneg))
      as (d & eqs & ids & E & H1 & H2 & _); [lia | lia | simpl; lia |].
    exists d, eqs, ids. repeat split; assumption.
  - apply (proj1 (proj2 (generation_never_raises Z 0 example_getrandbits
                           (Murmur.mkAPA 2 2 (replicate 4 0x80000000)
                                         (replicate 4 0xC0000000))
                           3 2 2 (-1) Hdraw Hneg))); lia.
Defined.

(** X19. The histogram [xor_dist] returned by
    [simulate_xor_degree_distribution] beside the equations counts every
    packet once: its entry for a degree is the number of equations whose
    [xor_set] has that many members, its values sum to [num_packets], and
    its keys lie between 0 and [num_hops] with counts of at least 1. *)
Theorem degree_histogram_counts_packets (N : nat) (apa : Murmur.APA)
        (num_hops : nat) (max_degree : Z) (switch_id : list Z)
        (xor_dist : gmap Z Z) (eqs : list PacketEquation) :
  Distribution.simulate_xor_degree_distribution N apa num_hops max_degree
    switch_id = Some (xor_dist, eqs) ->
  Murmur.simulate_equations N apa num_hops max_degree switch_id = Some eqs /\
  Distribution.total xor_dist = Z.of_nat N /\
  (forall k, default 0 (xor_dist !! k) = packets_of_degree k eqs) /\
  (forall k c, xor_dist !! k = Some c ->
     0 <= k <= Z.of_nat num_hops /\ 1 <= c).
Proof.
  unfold Distribution.simulate_xor_degree_distribution.
  rewrite distribution_unfold.
  fold (Murmur.simulate_equations N apa num_hops max_degree switch_id).
  destruct (Murmur.simulate_equations N apa num_hops max_degree switch_id)
    as [es |] eqn:Hsim; [| discriminate].
  cbv beta iota delta [mbind option_bind]. rewrite app_nil_l.
  intros [= <- <-].
  split; [reflexivity |].
  assert (Hlen : length es = N).
  { apply simulate_equations_hold in Hsim as [Hlen _]. exact Hlen. }
  split; [| split].
  - rewrite total_tally. unfold Distribution.total. rewrite map_fold_empty. lia.
  - intros k. rewrite tally_lookup, lookup_empty. simpl. lia.
  - intros k c Hk.
    assert (Hpos : 1 <= c).
    { apply (tally_positive es ∅) in Hk; [exact Hk |].
      intros k0 c0. rewrite lookup_empty. discriminate. }
    split; [| exact Hpos].
    pose proof (tally_lookup es k ∅) as Hcount.
    rewrite Hk, lookup_empty in Hcount. simpl in Hcount.
    unfold packets_of_degree in Hcount.
    destruct (filter (fun eq => Z.of_nat (size (xor_set eq)) = k) es)
      as [| eq rest] eqn:Ef; [simpl in Hcount; lia |].
    assert (Hin : eq ∈ filter (fun eq => Z.of_nat (size (xor_set eq)) = k) es)
      by (rewrite Ef; apply list_elem_of_here).
    apply list_elem_of_filter in Hin as [Hsz Hin].
    apply list_elem_of_lookup in Hin as [i Hi].
    unfold Murmur.simulate_equations in Hsim. apply mapM_Some in Hsim.
    destruct (Forall2_lookup_r _ _ _ _ _ Hsim Hi) as (p & _ & Hp).
    destruct (Murmur.simulate_packet _ _ _ _ _) as [s |] eqn:Hs;
      [| discriminate].
    cbv beta iota delta [mbind option_bind] in Hp. injection Hp as <-.
    cbn [xor_set] in Hsz. unfold Murmur.simulate_packet in Hs.
    apply run_hops_reach in Hs as (n & Hn & Hreach).
    destruct (generation_degree_inv _ _ _ _ _ _ Hreach) as (_ & _ & Hsize).
    lia.
Qed.

Lemma degree_histogram_counts_packets_witness :
  exists xor_dist eqs,
    Distribution.simulate_xor_degree_distribution 3
      (Murmur.mkAPA 2 2 (replicate 4 0x80000000) (replicate 4 0xC0000000))
      2 2 [0x1234; 0x5678] = Some (xor_dist, eqs) /\
    Distribution.total xor_dist = Z.of_nat 3.
Proof.
  assert (E : exists r,
    Distribution.simulate_xor_degree_distribution 3
      (Murmur.mkAPA 2 2 (replicate 4 0x80000000) (replicate 4 0xC0000000))
      2 2 [0x1234; 0x5678] = Some r) by (vm_compute; eexists; reflexivity).
  destruct E as [[xor_dist eqs] E]. exists xor_dist, eqs.
  split; [exact E |].
  exact (proj1 (proj2 (degree_histogram_counts_packets _ _ _ _ _ _ _ E))).
Defined.

Section SimMurmurAgreement.

Variables (apa : Murmur.APA) (max_degree : Z) (switch_id : list Z)
          (num_hops : nat).

Hypothesis Hids : (num_hops <= length switch_id)%nat.

Lemma sim_murmur_hop (pktid : Z) (n : nat) (s : Murmur.loop_state) :
  (n < num_hops)%nat ->
  SimMurmur.hop apa max_degree pktid n (forget_pint s) =
  match Murmur.hop apa max_degree switch_id pktid n s with
  | None => None
  | Some Break => Some Break
  | Some (Next act s') => Some (Next act (forget_pint s'))
  end.
Proof.
  intros Hn. unfold SimMurmur.hop, Murmur.hop. cbv zeta.
  cbn [forget_pint SimMurmur.xor_degree SimMurmur.cur_xor_set].
  destruct (_ >=? _); [reflexivity |].
  destruct (py_getitem (Murmur.add_thresh apa) _); [| reflexivity].
  destruct (py_getitem (Murmur.replace_thresh apa) _); [| reflexivity].
  cbv beta iota delta [mbind option_bind].
  rewrite (py_getitem_nonneg switch_id (Z.of_nat n)) by lia.
  rewrite Nat2Z.id.
  destruct (lookup_lt_is_Some_2 switch_id n ltac:(lia)) as [id ->].
  destruct (Murmur.threshold_action _ _ _); reflexivity.
Qed.

Lemma sim_murmur_packet (pktid : Z) :
  SimMurmur.simulate_packet apa num_hops max_degree pktid
  = forget_pint <$> Murmur.simulate_packet apa num_hops max_degree
                                           switch_id pktid.
Proof.
  unfold SimMurmur.simulate_packet, Murmur.simulate_packet.
  change SimMurmur.init_state with (forget_pint Murmur.init_state).
  apply (run_hops_sim (Murmur.hop apa max_degree switch_id pktid)
           (SimMurmur.hop apa max_degree pktid) forget_pint
           (fun _ _ => True) num_hops); try done.
  intros n s _ Hn. apply sim_murmur_hop. exact Hn.
Qed.

End SimMurmurAgreement.

(** X20. The simulator of [sim_murmur.py] prints the histogram that the
    simulator of [decoding_murmur.py] returns, for every table, number of
    packets and number of hops, when the latter has an identifier for each
    hop (it draws [num_hops] of them); one raises exactly when the other
    does. *)
Theorem sim_murmur_same_histogram (N : nat) (apa : Murmur.APA)
        (num_hops : nat) (max_degree : Z) (switch_id : list Z) :
  (num_hops <= length switch_id)%nat ->
  SimMurmur.simulate_xor_degree_distribution N apa num_hops max_degree
  = fst <$> Distribution.simulate_xor_degree_distribution N apa num_hops
              max_degree switch_id.
Proof.
  intros Hids.
  unfold SimMurmur.simulate_xor_degree_distribution,
    Distribution.simulate_xor_degree_distribution.
  change (Some (∅ : gmap Z Z))
    with (fst <$> Some ((∅ : gmap Z Z), ([] : list PacketEquation))).
  generalize (Some ((∅ : gmap Z Z), ([] : list PacketEquation))).
  induction (seq 0 N) as [| p l IH]; intros acc; [reflexivity |].
  cbn [foldl]. rewrite <- IH. f_equal.
  destruct acc as [[d e] |]; [| reflexivity].
  cbn [fmap option_fmap option_map fst].
  cbv beta iota delta [mbind option_bind].
  rewrite (sim_murmur_packet apa max_degree switch_id num_hops Hids).
  destruct (Murmur.simulate_packet apa num_hops max_degree switch_id
              (Z.of_nat p)) as [s |]; reflexivity.
Qed.

Lemma sim_murmur_same_histogram_witness :
  SimMurmur.simulate_xor_degree_distribution 3
    (Murmur.mkAPA 2 2 (replicate 4 0x80000000) (replicate 4 0xC0000000)) 2 2
  = fst <$> Distribution.simulate_xor_degree_distribution 3
              (Murmur.mkAPA 2 2 (replicate 4 0x80000000)
                            (replicate 4 0xC0000000))
              2 2 [0x1234; 0x5678].
Proof.
  apply sim_murmur_same_histogram. simpl. lia.
Defined.

Section LoaderMore.

Import Loader.

Variable float_of_string : string -> option spec_float.

Lemma fixed32_word (p : spec_float) (v : Z) :
  fixed32 p = Some v -> word32 v.
Proof.
  unfold fixed32. destruct (int_of_float _) as [n |]; [| discriminate].
  cbv beta iota delta [mbind option_bind]. intros [= <-].
  apply land_mask32_range.
Qed.

Lemma py_setitem_insert (l l' : list Z) (i v : Z) :
  py_setitem l i v = Some l' -> exists n, l' = <[n := v]> l.
Proof.
  unfold py_setitem.
  destruct (_ && _); [intros [= <-]; eexists; reflexivity |].
  destruct (_ && _); [intros [= <-]; eexists; reflexivity | discriminate].
Qed.

Lemma fill_degree_words (parts : list string) (hop_idx : nat)
      (max_degree : Z) (d : nat) (arrs arrs' : list Z * list Z) :
  fill_degree float_of_string parts hop_idx max_degree d arrs = Some arrs' ->
  Forall word32 arrs.1 -> Forall word32 arrs.2 ->
  Forall word32 arrs'.1 /\ Forall word32 arrs'.2.
Proof.
  unfold fill_degree.
  destruct (parts !! (2 * d)%nat) as [s_add |]; [| discriminate].
  cbv beta iota delta [mbind option_bind].
  destruct (float_of_string s_add) as [p_add |]; [| discriminate].
  destruct (parts !! (2 * d + 1)%nat) as [s_cum |]; [| discriminate].
  destruct (float_of_string s_cum) as [p_cum |]; [| discriminate].
  destruct (fixed32 p_add) as [v_add |] eqn:E5; [| discriminate].
  destruct (py_setitem arrs.1 _ v_add) as [a' |] eqn:E6; [| discriminate].
  destruct (fixed32 p_cum) as [v_cum |] eqn:E7; [| discriminate].
  destruct (py_setitem arrs.2 _ v_cum) as [c' |] eqn:E8; [| discriminate].
  intros [= <-] Ha Hc. cbn [fst snd].
  apply py_setitem_insert in E6 as [n1 ->].
  apply py_setitem_insert in E8 as [n2 ->].
  split; apply Forall_insert; try assumption; eapply fixed32_word; eassumption.
Qed.

Lemma fill_degrees_words (parts : list string) (hop_idx : nat)
      (max_degree : Z) (ds : list nat) :
  forall arrs arrs',
    fill_degrees float_of_string parts hop_idx max_degree ds arrs
      = Some arrs' ->
    Forall word32 arrs.1 -> Forall word32 arrs.2 ->
    Forall word32 arrs'.1 /\ Forall word32 arrs'.2.
Proof.
  induction ds as [| d ds IH]; intros arrs arrs' H Ha Hc; simpl in H.
  - injection H as <-. split; assumption.
  - destruct (fill_degree _ _ _ _ _ _) as [arrs1 |] eqn:E; [| discriminate].
    cbv beta iota delta [mbind option_bind] in H.
    destruct (fill_degree_words _ _ _ _ _ _ E Ha Hc) as [Ha1 Hc1].
    exact (IH _ _ H Ha1 Hc1).
Qed.

(** what a line writes and what it leaves, cell by cell *)
Lemma load_line_untouched (max_degree : Z) (hop_idx : nat) (line : string)
      (arrs arrs' : list Z * list Z) :
  load_line float_of_string max_degree hop_idx line arrs = inr arrs' ->
  Z.of_nat (length (parts_of line) / 2) <= max_degree /\
  length arrs'.1 = length arrs.1 /\ length arrs'.2 = length arrs.2 /\
  (Forall word32 arrs.1 -> Forall word32 arrs.2 ->
   Forall word32 arrs'.1 /\ Forall word32 arrs'.2) /\
  forall i : nat,
    (forall d, (d < length (parts_of line) / 2)%nat ->
       Z.of_nat i ≠ Z.of_nat hop_idx * max_degree + Z.of_nat d) ->
    arrs'.1 !! i = arrs.1 !! i /\ arrs'.2 !! i = arrs.2 !! i.
Proof.
  unfold load_line. cbv zeta.
  destruct (negb _); [discriminate |].
  destruct (Z.gtb_spec (Z.of_nat (length (parts_of line) / 2)) max_degree)
    as [Hgt | Hle]; [discriminate |].
  destruct (fill_degrees _ _ _ _ _ _) as [arrs1 |] eqn:E; [| discriminate].
  intros H. injection H as <-.
  assert (Hmd : 0 <= max_degree) by lia.
  destruct (fill_degrees_cells _ _ _ _ _ _ _ Hmd (NoDup_seq _ _) E)
    as (_ & L1 & L2 & Hframe).
  split; [exact Hle |]. split; [exact L1 |]. split; [exact L2 |]. split.
  - apply (fill_degrees_words _ _ _ _ _ _ E).
  - intros i Hi. apply Hframe. intros d Hd. apply elem_of_seq in Hd.
    apply Hi. lia.
Qed.

Lemma load_lines_untouched (max_degree : Z) (lines : list string) :
  forall (hop_idx : nat) (arrs arrs' : list Z * list Z),
    load_lines float_of_string max_degree hop_idx lines arrs = inr arrs' ->
    (forall j line, lines !! j = Some line ->
       Z.of_nat (length (parts_of line) / 2) <= max_degree) /\
    length arrs'.1 = length arrs.1 /\ length arrs'.2 = length arrs.2 /\
    (Forall word32 arrs.1 -> Forall word32 arrs.2 ->
     Forall word32 arrs'.1 /\ Forall word32 arrs'.2) /\
    forall i : nat,
      (forall j line d, lines !! j = Some line ->
         (d < length (parts_of line) / 2)%nat ->
         Z.of_nat i ≠ Z.of_nat (hop_idx + j) * max_degree + Z.of_nat d) ->
      arrs'.1 !! i = arrs.1 !! i /\ arrs'.2 !! i = arrs.2 !! i.
Proof.
  induction lines as [| l0 rest IH]; intros hop_idx arrs arrs' H; simpl in H.
  - injection H as <-. split; [intros j line Hj; discriminate |].
    repeat split; tauto.
  - destruct (load_line float_of_string max_degree hop_idx l0 arrs)
      as [e | arrs1] eqn:E; [discriminate |].
    apply load_line_untouched in E as (Hle & L1 & L2 & Hw & Hframe0).
    destruct (IH _ _ _ H) as (Hles & L1' & L2' & Hw' & Hframe).
    split; [| split; [congruence | split; [congruence | split]]].
    + intros [| j] line Hj; [injection Hj as <-; exact Hle |].
      exact (Hles j line Hj).
    + intros Ha Hc. destruct (Hw Ha Hc) as [Ha1 Hc1]. exact (Hw' Ha1 Hc1).
    + intros i Hi.
      destruct (Hframe0 i) as [Ha0 Hc0].
      { intros d Hd. specialize (Hi 0%nat l0 d eq_refl Hd).
        rewrite Nat.add_0_r in Hi. exact Hi. }
      destruct (Hframe i) as [Ha Hc].
      { intros j line d Hj Hd. specialize (Hi (S j) line d Hj Hd).
        replace (S hop_idx + j)%nat with (hop_idx + S j)%nat by lia.
        exact Hi. }
      split; congruence.
Qed.

(** the arrays returned by the loader *)
Lemma load_arrays_untouched (file_lines : list string) (max_degree : Z)
      (max_hops : Z) (a c : list Z) :
  load_arrays float_of_string file_lines max_degree = inr (max_hops, a, c) ->
  max_hops = Z.of_nat (length (nonblank_lines file_lines)) /\
  Forall word32 a /\ Forall word32 c /\
  forall h line d,
    nonblank_lines file_lines !! h = Some line ->
    (length (parts_of line) / 2 <= d)%nat -> Z.of_nat d < max_degree ->
    py_getitem a (Z.of_nat h * max_degree + Z.of_nat d) = Some 0 /\
    py_getitem c (Z.of_nat h * max_degree + Z.of_nat d) = Some 0.
Proof.
  unfold load_arrays. cbv zeta.
  destruct (load_lines _ _ _ _ _) as [e | [a' c']] eqn:E; [discriminate |].
  intros [= <- <- <-].
  apply load_lines_untouched in E as (Hles & L1 & L2 & Hw & Hframe).
  cbn [fst snd] in *.
  assert (Hz : Forall word32
                 (replicate
                    (Z.to_nat (Z.of_nat (length (nonblank_lines file_lines))
                               * max_degree)) 0)).
  { apply Forall_replicate. unfold word32. lia. }
  destruct (Hw Hz Hz) as [Ha Hc].
  split; [reflexivity |]. split; [exact Ha |]. split; [exact Hc |].
  intros h line d Hh Hd Hmd.
  pose proof (lookup_lt_Some _ _ _ Hh) as Hhlt.
  set (idx := Z.of_nat h * max_degree + Z.of_nat d).
  assert (Hidx : 0 <= idx) by (unfold idx; nia).
  assert (Hidx' : idx < Z.of_nat (length (nonblank_lines file_lines))
                        * max_degree) by (unfold idx; nia).
  rewrite !py_getitem_nonneg by exact Hidx.
  destruct (Hframe (Z.to_nat idx)) as [Ea Ec].
  { intros j line' d' Hj Hd'. rewrite Z2Nat.id by exact Hidx.
    pose proof (Hles j line' Hj) as Hle'. rewrite Nat.add_0_l.
    unfold idx. intros Heq.
    assert (Hjh : j = h) by nia. subst j.
    rewrite Hh in Hj. injection Hj as <-. lia. }
  rewrite Ea, Ec.
  rewrite lookup_replicate_2 by lia. split; reflexivity.
Qed.

End LoaderMore.

(** X21. After a successful load, in both variants of [load_apa], every
    cell of the two flattened arrays is a 32-bit value in [0, 2^32), and
    the cells of a hop for the degrees that its line does not list, up to
    [max_degree], hold 0. *)
Theorem loaded_tables_are_words_and_zero_filled
        (float_of_string : string -> option spec_float)
        (file_lines : list string) (max_degree : Z) :
  (forall apa, Decoding.load_apa float_of_string file_lines max_degree
               = inr apa ->
     Forall word32 (Decoding.probs_a apa) /\
     Forall word32 (Decoding.probs_cum apa) /\
     forall h line d,
       Loader.nonblank_lines file_lines !! h = Some line ->
       (length (Loader.parts_of line) / 2 <= d)%nat ->
       Z.of_nat d < max_degree ->
       py_getitem (Decoding.probs_a apa)
                  (Z.of_nat h * max_degree + Z.of_nat d) = Some 0 /\
       py_getitem (Decoding.probs_cum apa)
                  (Z.of_nat h * max_degree + Z.of_nat d) = Some 0) /\
  (forall apa, Murmur.load_apa float_of_string file_lines max_degree
               = inr apa ->
     Forall word32 (Murmur.add_thresh apa) /\
     Forall word32 (Murmur.replace_thresh apa) /\
     forall h line d,
       Loader.nonblank_lines file_lines !! h = Some line ->
       (length (Loader.parts_of line) / 2 <= d)%nat ->
       Z.of_nat d < max_degree ->
       py_getitem (Murmur.add_thresh apa)
                  (Z.of_nat h * max_degree + Z.of_nat d) = Some 0 /\
       py_getitem (Murmur.replace_thresh apa)
                  (Z.of_nat h * max_degree + Z.of_nat d) = Some 0).
Proof.
  split; intros apa Hload;
    unfold Decoding.load_apa, Murmur.load_apa in Hload;
    destruct (Loader.load_arrays _ _ _) as [e | [[mh a] c]] eqn:E;
    try discriminate; injection Hload as <-;
    apply load_arrays_untouched in E as (_ & Ha & Hc & Hzero);
    (split; [exact Ha | split; [exact Hc | exact Hzero]]).
Qed.

(** a line with one degree in a table of three: the cells of the degrees 1
    and 2 stay 0 *)
Lemma loaded_tables_are_words_and_zero_filled_witness :
  exists apa,
    Decoding.load_apa example_float ["0.5,0.25"%string] 3 = inr apa /\
    py_getitem (Decoding.probs_a apa) (Z.of_nat 0 * 3 + Z.of_nat 2) = Some 0.
Proof.
  assert (E : exists apa,
            Decoding.load_apa example_float ["0.5,0.25"%string] 3 = inr apa)
    by (vm_compute; eexists; reflexivity).
  destruct E as [apa E]. exists apa. split; [exact E |].
  destruct (proj1 (loaded_tables_are_words_and_zero_filled
                     example_float ["0.5,0.25"%string] 3) apa E)
    as (_ & _ & Hzero).
  apply (Hzero 0%nat "0.5,0.25"%string 2%nat);
    [reflexivity | vm_compute; lia | lia].
Defined.

(** X22. Degenerate inputs of [load_apa], in both variants: a file without
    a non-blank line is accepted, for every [max_degree], as an APA with no
    hop and empty arrays; with a negative [max_degree] every file that has
    a non-blank line is rejected with a format error naming line 0. *)
Theorem load_apa_degenerate_inputs
        (float_of_string : string -> option spec_float)
        (file_lines : list string) (max_degree : Z) :
  (Loader.nonblank_lines file_lines = [] ->
   Decoding.load_apa float_of_string file_lines max_degree
     = inr (Decoding.mkAPA 0 max_degree [] []) /\
   Murmur.load_apa float_of_string file_lines max_degree
     = inr (Murmur.mkAPA 0 max_degree [] [])) /\
  (max_degree < 0 -> Loader.nonblank_lines file_lines ≠ [] ->
   exists e,
     Decoding.load_apa float_of_string file_lines max_degree = inl e /\
     Murmur.load_apa float_of_string file_lines max_degree = inl e /\
     Loader.error_line e = Some 0%nat).
Proof.
  unfold Decoding.load_apa, Murmur.load_apa, Loader.load_arrays. cbv zeta.
  split.
  - intros ->. split; reflexivity.
  - intros Hmd Hne.
    destruct (Loader.nonblank_lines file_lines) as [| l0 rest];
      [congruence |].
    cbn [Loader.load_lines].
    destruct (load_line_violates float_of_string max_degree 0 l0
                (replicate (Z.to_nat (Z.of_nat (length (l0 :: rest))
                                      * max_degree)) 0,
                 replicate (Z.to_nat (Z.of_nat (length (l0 :: rest))
                                      * max_degree)) 0))
      as (e & He & Hline).
    { right. lia. }
    rewrite He. exists e. repeat split. exact Hline.
Qed.

Lemma load_apa_degenerate_inputs_witness :
  (Decoding.load_apa example_float [" "%string; ""%string] 32
   = inr (Decoding.mkAPA 0 32 [] [])) /\
  (exists e,
     Decoding.load_apa example_float ["0.5,0.25"%string] (-1) = inl e /\
     Loader.error_line e = Some 0%nat).
Proof.
  split.
  - apply (proj1 (load_apa_degenerate_inputs example_float
                    [" "%string; ""%string] 32)). reflexivity.
  - destruct (proj2 (load_apa_degenerate_inputs example_float
                       ["0.5,0.25"%string] (-1)))
      as (e & He & _ & Hline); [lia | discriminate |].
    exists e. split; assumption.
Defined.

(** X23. The fixed-point encoding keeps the order of the probabilities:
    for binary64 values [0 <= p1 <= p2 < 1] the loader's encodings satisfy
    [0 <= v1 <= v2 < 2^32] (the mask changes nothing), and an encoding
    never exceeds its scaled probability and falls short of it by less
    than one unit: [v <= p * 2^32 < v + 1]. *)
Theorem fixed32_is_monotone (p1 p2 : spec_float) (q1 q2 : Q) :
  valid_binary Loader.prec Loader.emax p1 = true ->
  valid_binary Loader.prec Loader.emax p2 = true ->
  SF2Q p1 = Some q1 -> SF2Q p2 = Some q2 ->
  (0 <= q1)%Q -> (q1 <= q2)%Q -> (q2 < 1)%Q ->
  exists v1 v2,
    Loader.fixed32 p1 = Some v1 /\ Loader.fixed32 p2 = Some v2 /\
    (0 <= v1 /\ v1 <= v2 /\ v2 < 2 ^ 32) /\
    (inject_Z v1 <= q1 * inject_Z (2 ^ 32))%Q /\
    (q1 * inject_Z (2 ^ 32) < inject_Z v1 + 1)%Q.
Proof.
  intros Hv1 Hv2 Hq1 Hq2 H0 Hle H1.
  assert (Hq1' : (q1 < 1)%Q) by (eapply Qle_lt_trans; eassumption).
  assert (Hq2' : (0 <= q2)%Q) by (eapply Qle_trans; eassumption).
  assert (Hc : (0 < inject_Z (2 ^ 32))%Q)
    by (rewrite <- (Zlt_Qlt 0); lia).
  assert (Hfloor : forall q, (0 <= q)%Q -> (q < 1)%Q ->
            0 <= Qfloor (q * inject_Z (2 ^ 32)) < 2 ^ 32).
  { intros q Hq0 Hq1''. split.
    - change 0 with (Qfloor 0). apply Qfloor_resp_le.
      apply Qmult_le_0_compat; [exact Hq0 | apply Qlt_le_weak; exact Hc].
    - rewrite Zlt_Qlt.
      eapply Qle_lt_trans; [apply Qfloor_le |].
      rewrite <- (Qmult_1_l (inject_Z (2 ^ 32))) at 2.
      apply Qmult_lt_compat_r; assumption. }
  exists (Qfloor (q1 * inject_Z (2 ^ 32))), (Qfloor (q2 * inject_Z (2 ^ 32))).
  pose proof (Hfloor q1 H0 Hq1') as Hr1.
  pose proof (Hfloor q2 Hq2' H1) as Hr2.
  split; [| split; [| split; [| split]]].
  - rewrite (fixed32_floor p1 q1) by assumption.
    rewrite Z.mod_small by exact Hr1. reflexivity.
  - rewrite (fixed32_floor p2 q2) by assumption.
    rewrite Z.mod_small by exact Hr2. reflexivity.
  - split; [lia |]. split; [| lia].
    apply Qfloor_resp_le. apply Qmult_le_compat_r;
      [exact Hle | apply Qlt_le_weak; exact Hc].
  - apply Qfloor_le.
  - rewrite <- (inject_Z_plus _ 1). apply Qlt_floor.
Qed.

(** the binary64 numbers 0.25 and 0.5 *)
Lemma fixed32_is_monotone_witness :
  exists v1 v2,
    Loader.fixed32 (S754_finite false (2 ^ 52)%positive (-54)) = Some v1 /\
    Loader.fixed32 (S754_finite false (2 ^ 52)%positive (-53)) = Some v2 /\
    0 <= v1 /\ v1 <= v2 /\ v2 < 2 ^ 32.
Proof.
  destruct (fixed32_is_monotone
              (S754_finite false (2 ^ 52)%positive (-54))
              (S754_finite false (2 ^ 52)%positive (-53))
              (Qmake (2 ^ 52) (2 ^ 54)%positive)
              (Qmake (2 ^ 52) (2 ^ 53)%positive))
    as (v1 & v2 & E1 & E2 & Hr & _);
    [vm_compute; reflexivity | vm_compute; reflexivity
     | vm_compute; reflexivity | vm_compute; reflexivity
     | unfold Qle; simpl; lia | unfold Qle; simpl; lia
     | unfold Qlt; simpl; lia |].
  exists v1, v2. repeat split; (assumption || lia).
Defined.

Section Checksum.

Import Decoding.

Lemma crc_shift_lxor (a b : Z) :
  crc_shift (Z.lxor a b) = Z.lxor (crc_shift a) (crc_shift b).
Proof.
  unfold crc_shift. rewrite <- !Z.bit0_odd, Z.lxor_spec, Z.shiftr_lxor.
  destruct (Z.testbit a 0), (Z.testbit b 0); cbn [xorb].
  - rewrite Z.lxor_assoc, (Z.lxor_comm 0xEDB88320), Z.lxor_assoc.
    rewrite Z.lxor_nilpotent, Z.lxor_0_r. reflexivity.
  - rewrite !Z.lxor_assoc. f_equal. apply Z.lxor_comm.
  - rewrite !Z.lxor_assoc. reflexivity.
  - reflexivity.
Qed.

Lemma crc_shift_range (a : Z) :
  0 <= a < 2 ^ 32 -> 0 <= crc_shift a < 2 ^ 32.
Proof.
  intros Ha. unfold crc_shift.
  pose proof (shiftr_range a 1 32 ltac:(lia) Ha) as Hs.
  destruct (Z.odd a); [| exact Hs].
  apply (lxor_range _ _ 32); [exact Hs | lia].
Qed.

Lemma crc_shift_kernel (a : Z) :
  0 <= a < 2 ^ 32 -> crc_shift a = 0 -> a = 0.
Proof.
  intros Ha. unfold crc_shift.
  assert (Hhalf : 0 <= Z.shiftr a 1 < 2 ^ 31).
  { rewrite Z.shiftr_div_pow2 by lia. change (2 ^ 1) with 2.
    split; [apply Z.div_pos; lia | apply Z.div_lt_upper_bound; lia]. }
  destruct (Z.odd a) eqn:Eodd; intros E.
  - apply Z.lxor_eq in E. lia.
  - rewrite Z.shiftr_div_pow2 in E by lia. change (2 ^ 1) with 2 in E.
    rewrite (Z.div_mod a 2) by lia. rewrite E.
    rewrite Zmod_odd, Eodd. reflexivity.
Qed.

Lemma crc_iter_lxor (n : nat) (a b : Z) :
  Nat.iter n crc_shift (Z.lxor a b)
  = Z.lxor (Nat.iter n crc_shift a) (Nat.iter n crc_shift b).
Proof.
  induction n as [| n IH]; [reflexivity |].
  rewrite !Nat.iter_succ, IH. apply crc_shift_lxor.
Qed.

Lemma crc_iter_range (n : nat) (a : Z) :
  0 <= a < 2 ^ 32 -> 0 <= Nat.iter n crc_shift a < 2 ^ 32.
Proof.
  intros Ha. induction n as [| n IH]; [exact Ha |].
  rewrite Nat.iter_succ. apply crc_shift_range. exact IH.
Qed.

Lemma crc_iter_kernel (n : nat) (a : Z) :
  0 <= a < 2 ^ 32 -> Nat.iter n crc_shift a = 0 -> a = 0.
Proof.
  intros Ha. induction n as [| n IH]; [tauto |].
  rewrite Nat.iter_succ. intros E. apply IH.
  apply crc_shift_kernel; [apply crc_iter_range; exact Ha | exact E].
Qed.

Lemma crc_byte_eq (c b : Z) :
  crc_byte c b = Nat.iter 8 crc_shift (Z.lxor c b).
Proof. reflexivity. Qed.

Lemma crc_byte_lxor (c c' b b' : Z) :
  crc_byte (Z.lxor c c') (Z.lxor b b')
  = Z.lxor (crc_byte c b) (crc_byte c' b').
Proof.
  unfold crc_byte. rewrite <- crc_iter_lxor. f_equal.
  rewrite !Z.lxor_assoc. f_equal.
  rewrite <- !Z.lxor_assoc. f_equal. apply Z.lxor_comm.
Qed.

Lemma crc_byte_range (c b : Z) :
  0 <= c < 2 ^ 32 -> 0 <= b < 2 ^ 32 -> 0 <= crc_byte c b < 2 ^ 32.
Proof.
  intros Hc Hb. unfold crc_byte. apply crc_iter_range.
  apply (lxor_range _ _ 32); assumption.
Qed.

Lemma forallb_map_seq {T : Type} (g : T -> bool) (u : nat -> T) (n i : nat) :
  forallb g (map u (seq 0 n)) = true -> (i < n)%nat -> g (u i) = true.
Proof.
  intros H Hi. rewrite forallb_forall in H. apply H.
  apply in_map. apply in_seq. lia.
Qed.

(** The register reached from zero by a first byte and the byte 0, XORed
    with the register reached from zero by a second byte, is at least 256
    unless both registers are zero; the two tables are computed once. *)
Lemma all_bytes_separate :
  (fun t1 t2 : list Z =>
     forallb (fun x =>
       forallb (fun y =>
         (256 <=? Z.lxor x y) || ((x =? 0) && (y =? 0))) t2) t1)
    (map (fun a : nat => crc_byte (crc_byte 0 (Z.of_nat a)) 0) (seq 0 256))
    (map (fun b : nat => crc_byte 0 (Z.of_nat b)) (seq 0 256)) = true.
Proof. vm_compute. reflexivity. Qed.

Lemma crc_byte_zero (c b : Z) :
  0 <= c < 2 ^ 32 -> 0 <= b < 2 ^ 32 -> crc_byte c b = 0 -> c = b.
Proof.
  intros Hc Hb E. rewrite crc_byte_eq in E.
  apply crc_iter_kernel in E; [| apply (lxor_range _ _ 32); assumption].
  apply Z.lxor_eq in E. exact E.
Qed.

Lemma bytes_separate (d1 d2 : Z) :
  0 <= d1 < 256 -> 0 <= d2 < 256 ->
  256 <= crc_byte (crc_byte 0 d1) d2 \/ (d1 = 0 /\ d2 = 0).
Proof.
  intros H1 H2.
  pose proof all_bytes_separate as H. cbv beta in H.
  apply (forallb_map_seq _ _ 256 (Z.to_nat d1)) in H; [| lia].
  cbv beta in H.
  apply (forallb_map_seq _ _ 256 (Z.to_nat d2)) in H; [| lia].
  cbv beta in H.
  rewrite !Z2Nat.id in H by lia.
  assert (Hsplit : crc_byte (crc_byte 0 d1) d2
                   = Z.lxor (crc_byte (crc_byte 0 d1) 0) (crc_byte 0 d2)).
  { rewrite <- crc_byte_lxor, Z.lxor_0_r, Z.lxor_0_l. reflexivity. }
  rewrite Hsplit.
  apply orb_true_iff in H as [Hbig | Hzero].
  - left. apply Z.leb_le in Hbig. exact Hbig.
  - right. apply andb_true_iff in Hzero as [E1 E2].
    apply Z.eqb_eq in E1, E2.
    apply crc_byte_zero in E2; [| lia | lia].
    apply crc_byte_zero in E1; [| apply crc_byte_range; lia | lia].
    apply crc_byte_zero in E1; [| lia | lia].
    split; congruence.
Qed.

Lemma crc_zero_bytes : crc_byte (crc_byte 0 0) 0 = 0.
Proof. vm_compute. reflexivity. Qed.

(** three bytes that bring the zero register back to zero are zero *)
Lemma crc_three_bytes_kernel (d1 d2 d3 : Z) :
  0 <= d1 < 256 -> 0 <= d2 < 256 -> 0 <= d3 < 256 ->
  crc_byte (crc_byte (crc_byte 0 d1) d2) d3 = 0 ->
  d1 = 0 /\ d2 = 0 /\ d3 = 0.
Proof.
  intros H1 H2 H3 E.
  assert (Hx : 0 <= crc_byte (crc_byte 0 d1) d2 < 2 ^ 32).
  { apply crc_byte_range; [apply crc_byte_range |]; lia. }
  rewrite crc_byte_eq in E.
  apply crc_iter_kernel in E;
    [| apply (lxor_range _ _ 32); [exact Hx | lia]].
  apply Z.lxor_eq in E.
  destruct (bytes_separate d1 d2 H1 H2) as [Hbig | [-> ->]]; [lia |].
  rewrite crc_zero_bytes in E. auto.
Qed.

Lemma pack_be_2 (x : Z) :
  0 <= x < 2 ^ 16 ->
  pack_be 2 x = Some [Z.land (Z.shiftr x 8) 255; Z.land (Z.shiftr x 0) 255].
Proof.
  intros Hx. unfold pack_be.
  change (2 ^ (8 * Z.of_nat 2)) with (2 ^ 16).
  rewrite (proj2 (Z.leb_le 0 x)), (proj2 (Z.ltb_lt x (2 ^ 16))) by lia.
  reflexivity.
Qed.

Lemma pack_be_1 (x : Z) :
  0 <= x < 2 ^ 8 -> pack_be 1 x = Some [Z.land (Z.shiftr x 0) 255].
Proof.
  intros Hx. unfold pack_be.
  change (2 ^ (8 * Z.of_nat 1)) with (2 ^ 8).
  rewrite (proj2 (Z.leb_le 0 x)), (proj2 (Z.ltb_lt x (2 ^ 8))) by lia.
  reflexivity.
Qed.

Lemma low_byte (x : Z) : Z.land x 255 = x mod 256.
Proof. change 255 with (Z.ones 8). apply Z.land_ones. lia. Qed.

(** the hash in terms of the register after the common prefix *)
Lemma crc_hash_unfold (pktid hopid : Z) :
  0 <= pktid < 2 ^ 16 -> 0 <= hopid < 2 ^ 8 ->
  recipe_hash_v4 pktid hopid =
  Some (Z.lxor
          (crc_byte (crc_byte (crc_byte crc_prefix (pktid / 256))
                              (pktid mod 256)) hopid)
          0xFFFFFFFF).
Proof.
  intros Hp Hh. unfold recipe_hash_v4. cbv zeta.
  change (pack_be 4 SRC_IP_U32) with (Some [10; 0; 0; 1]).
  change (pack_be 4 DST_IP_U32) with (Some [10; 0; 0; 2]).
  change (pack_be 1 IP_PROTO_RECIPE) with (Some [146]).
  rewrite (pack_be_2 pktid Hp), (pack_be_1 hopid Hh).
  cbv beta iota delta [mbind option_bind].
  rewrite !Z.shiftr_0_r, !low_byte, Z.shiftr_div_pow2 by lia.
  change (2 ^ 8) with 256.
  rewrite (Z.mod_small (pktid / 256)) by
    (split; [apply Z.div_pos; lia | apply Z.div_lt_upper_bound; lia]).
  rewrite (Z.mod_small hopid) by lia.
  unfold crc32. rewrite !app_assoc.
  rewrite foldl_app. cbn [foldl].
  rewrite foldl_app. cbn [foldl].
  rewrite <- !app_assoc. fold crc_prefix.
  f_equal. apply land_mask32_small.
  apply (lxor_range _ _ 32); [| lia].
  assert (0 <= crc_prefix < 2 ^ 32) by (vm_compute; split; congruence).
  assert (0 <= pktid / 256 < 256)
    by (split; [apply Z.div_pos; lia | apply Z.div_lt_upper_bound; lia]).
  assert (0 <= pktid mod 256 < 256) by (apply Z.mod_pos_bound; lia).
  repeat apply crc_byte_range; lia.
Qed.

End Checksum.

(** X24. The checksum hash of [decoding.py] never collides on its domain:
    two pairs of a packet id and a hop index on which [recipe_hash_v4]
    returns the same value are the same pair. *)
Theorem checksum_hash_is_one_to_one (pktid hopid pktid' hopid' v : Z) :
  Decoding.recipe_hash_v4 pktid hopid = Some v ->
  Decoding.recipe_hash_v4 pktid' hopid' = Some v ->
  pktid = pktid' /\ hopid = hopid'.
Proof.
  intros H H'.
  destruct (proj1 (decoding_hash_is_Some pktid hopid)) as [Hp Hh];
    [eexists; exact H |].
  destruct (proj1 (decoding_hash_is_Some pktid' hopid')) as [Hp' Hh'];
    [eexists; exact H' |].
  rewrite crc_hash_unfold in H, H' by assumption.
  rewrite <- H in H'. clear H.
  assert (Hinj : forall x y : Z, Some x = Some y -> x = y)
    by (intros x y Hxy; injection Hxy as ->; reflexivity).
  apply Hinj, lxor_cancel_r in H'. symmetry in H'.
  assert (Hq : forall x, 0 <= x < 2 ^ 16 -> 0 <= x / 256 < 256)
    by (intros x Hx; split;
        [apply Z.div_pos; lia | apply Z.div_lt_upper_bound; lia]).
  assert (Hr : forall x, 0 <= x mod 256 < 256)
    by (intros x; apply Z.mod_pos_bound; lia).
  destruct (crc_three_bytes_kernel
              (Z.lxor (pktid / 256) (pktid' / 256))
              (Z.lxor (pktid mod 256) (pktid' mod 256))
              (Z.lxor hopid hopid')) as (E1 & E2 & E3).
  - apply (lxor_range _ _ 8); apply Hq; assumption.
  - apply (lxor_range _ _ 8); apply Hr.
  - apply (lxor_range _ _ 8); assumption.
  - rewrite <- (Z.lxor_nilpotent crc_prefix).
    rewrite !crc_byte_lxor, H'. apply Z.lxor_nilpotent.
  - apply Z.lxor_eq in E1, E2, E3. split; [| exact E3].
    rewrite (Z.div_mod pktid 256), (Z.div_mod pktid' 256) by lia.
    rewrite E1, E2. reflexivity.
Qed.

Lemma checksum_hash_is_one_to_one_witness :
  exists v,
    Decoding.recipe_hash_v4 7 3 = Some v /\ (7 = 7 /\ 3 = 3).
Proof.
  assert (E : exists v, Decoding.recipe_hash_v4 7 3 = Some v)
    by (vm_compute; eexists; reflexivity).
  destruct E as [v E]. exists v. split; [exact E |].
  exact (checksum_hash_is_one_to_one 7 3 7 3 v E E).
Defined.

Section HashTable.

(** the cell of packet [pktid] (from 1) and hop [hopid] *)
Lemma table_cell (pktid hopid : nat) :
  (1 <= pktid <= 2000)%nat -> (hopid < 256)%nat ->
  TableGeneration.rows !! (pktid - 1)%nat ≫= (.!! hopid)
  = Some (Murmur.recipe_hash_v4 (Z.of_nat pktid) (Z.of_nat hopid)).
Proof.
  intros Hp Hh. unfold TableGeneration.rows.
  rewrite list_lookup_fmap, lookup_seq_lt by lia.
  replace (1 + (pktid - 1))%nat with pktid by lia.
  cbn [fmap option_fmap option_map mbind option_bind].
  unfold TableGeneration.row.
  rewrite list_lookup_fmap, lookup_seq_lt by lia.
  cbn [fmap option_fmap option_map]. f_equal.
  apply land_mask32_small, murmur_hash_range.
Qed.

End HashTable.

(** X25. The table written by [table_generation.py] has 2000 rows of 256
    values; the row at position [pktid - 1] is the row of packet [pktid],
    counted from 1, and its value at position [hopid] is
    [recipe_hash_v4(pktid, hopid)], a 32-bit value; no value occurs twice
    in a row, nor twice in a column. *)
Theorem hash_table_layout :
  length TableGeneration.rows = 2000%nat /\
  (forall r, r ∈ TableGeneration.rows -> length r = 256%nat) /\
  forall pktid hopid : nat,
    (1 <= pktid <= 2000)%nat -> (hopid < 256)%nat ->
    exists v,
      TableGeneration.rows !! (pktid - 1)%nat ≫= (.!! hopid) = Some v /\
      v = Murmur.recipe_hash_v4 (Z.of_nat pktid) (Z.of_nat hopid) /\
      0 <= v < 2 ^ 32 /\
      (forall pktid' : nat, (1 <= pktid' <= 2000)%nat -> pktid' ≠ pktid ->
         TableGeneration.rows !! (pktid' - 1)%nat ≫= (.!! hopid) ≠ Some v) /\
      (forall hopid' : nat, (hopid' < 256)%nat -> hopid' ≠ hopid ->
         TableGeneration.rows !! (pktid - 1)%nat ≫= (.!! hopid') ≠ Some v).
Proof.
  split; [| split].
  - unfold TableGeneration.rows. rewrite length_fmap, length_seq. reflexivity.
  - intros r Hr. unfold TableGeneration.rows in Hr.
    apply list_elem_of_fmap in Hr as (p & -> & _).
    unfold TableGeneration.row. rewrite length_fmap, length_seq. reflexivity.
  - intros pktid hopid Hp Hh. eexists. split; [apply table_cell; assumption |].
    split; [reflexivity |]. split; [apply murmur_hash_range |]. split.
    + intros pktid' Hp' Hne. rewrite table_cell by assumption.
      intros E. injection E as E.
      apply (proj1 (murmur_hash_separates _ _ _ (Z.of_nat hopid))) in E.
      rewrite !Z.mod_small in E by lia. lia.
    + intros hopid' Hh' Hne. rewrite table_cell by assumption.
      intros E. injection E as E.
      apply (proj2 (murmur_hash_separates _ (Z.of_nat pktid) _ _)) in E.
      rewrite !Z.mod_small in E by lia. lia.
Qed.

Lemma hash_table_layout_witness :
  exists v,
    TableGeneration.rows !! (1 - 1)%nat ≫= (.!! 0%nat) = Some v /\
    v = Murmur.recipe_hash_v4 (Z.of_nat 1) (Z.of_nat 0).
Proof.
  destruct (proj2 (proj2 hash_table_layout) 1%nat 0%nat ltac:(lia) ltac:(lia))
    as (v & Hv & Ev & _).
  exists v. split; assumption.
Defined.

Section ControllerTables.

Variable float_of_string : string -> option spec_float.

Lemma fixed32_scaled (p : spec_float) :
  Loader.fixed32 p = wrap32 <$> Controller.scaled p.
Proof.
  unfold Loader.fixed32, Controller.scaled.
  destruct (Loader.int_of_float _) as [n |]; [| reflexivity].
  cbn [mbind option_bind fmap option_fmap option_map].
  rewrite land_mask32. reflexivity.
Qed.

Lemma py_setitem_fmap (g : Z -> Z) (l : list Z) (i v : Z) :
  Loader.py_setitem (g <$> l) i (g v)
  = (fun l' : list Z => g <$> l') <$> Loader.py_setitem l i v.
Proof.
  unfold Loader.py_setitem. rewrite length_fmap.
  destruct (_ && _).
  { cbn [fmap option_fmap option_map]. rewrite list_fmap_insert. reflexivity. }
  destruct (_ && _); [| reflexivity].
  cbn [fmap option_fmap option_map]. rewrite list_fmap_insert. reflexivity.
Qed.

(** one degree: the loader does to the reduced arrays what the controller
    does to its arrays *)
Lemma fill_degree_agree (parts : list string) (hop d : nat)
      (arrs : list Z * list Z) :
  Loader.fill_degree float_of_string parts hop Controller.MAX_DEGREE d
                     (wrap_arrays arrs)
  = wrap_arrays <$> Controller.fill_degree float_of_string parts hop d arrs.
Proof.
  unfold Loader.fill_degree, Controller.fill_degree. cbv zeta.
  rewrite (Nat.mul_comm 2 d).
  cbn [wrap_arrays fst snd].
  destruct (parts !! (d * 2)%nat) as [s_a |]; [| reflexivity].
  cbn [mbind option_bind].
  destruct (float_of_string s_a) as [p_a |]; [| reflexivity].
  cbn [mbind option_bind].
  rewrite (fixed32_scaled p_a).
  destruct (parts !! (d * 2 + 1)%nat) as [s_c |].
  - cbn [mbind option_bind].
    destruct (float_of_string s_c) as [p_c |].
    + cbn [mbind option_bind]. rewrite (fixed32_scaled p_c).
      destruct (Controller.scaled p_a) as [n_a |]; [| reflexivity].
      cbn [mbind option_bind fmap option_fmap option_map].
      rewrite py_setitem_fmap.
      destruct (Loader.py_setitem arrs.1 _ n_a) as [a' |]; [| reflexivity].
      cbn [mbind option_bind fmap option_fmap option_map].
      destruct (Controller.scaled p_c) as [n_c |]; [| reflexivity].
      cbn [mbind option_bind fmap option_fmap option_map].
      rewrite py_setitem_fmap.
      destruct (Loader.py_setitem arrs.2 _ n_c) as [c' |]; reflexivity.
    + cbn [mbind option_bind].
      destruct (Controller.scaled p_a) as [n_a |]; [| reflexivity].
      cbn [mbind option_bind].
      destruct (Loader.py_setitem arrs.1 _ n_a); reflexivity.
  - cbn [mbind option_bind].
    destruct (Controller.scaled p_a) as [n_a |]; [| reflexivity].
    cbn [mbind option_bind].
    destruct (Loader.py_setitem arrs.1 _ n_a); reflexivity.
Qed.

Lemma fill_degrees_agree (parts : list string) (hop : nat) (ds : list nat) :
  forall arrs,
    Loader.fill_degrees float_of_string parts hop Controller.MAX_DEGREE ds
                        (wrap_arrays arrs)
    = wrap_arrays
        <$> Controller.fill_degrees float_of_string parts hop ds arrs.
Proof.
  induction ds as [| d ds IH]; intros arrs; [reflexivity |].
  cbn [Loader.fill_degrees Controller.fill_degrees].
  rewrite fill_degree_agree.
  destruct (Controller.fill_degree float_of_string parts hop d arrs)
    as [arrs1 |]; [| reflexivity].
  cbn [mbind option_bind fmap option_fmap option_map]. apply IH.
Qed.

(** the fields that the loader keeps of a clean line are all its fields *)
Lemma parts_of_clean (line : string) :
  Forall (fun p => Loader.strip p = p /\ p ≠ EmptyString)
         (Loader.split "," line) ->
  Loader.parts_of line = Loader.split "," line.
Proof.
  unfold Loader.parts_of. induction (Loader.split "," line) as [| p l IH];
    intros Hall; [reflexivity |].
  apply Forall_cons in Hall as [[Hs Hne] Hall].
  rewrite filter_cons_True by (rewrite Hs; exact Hne).
  cbn [map]. rewrite Hs, IH by exact Hall. reflexivity.
Qed.

Lemma nonblank_lines_clean (file_lines : list string) :
  Forall clean_line file_lines ->
  Loader.nonblank_lines file_lines = map Loader.strip file_lines.
Proof.
  unfold Loader.nonblank_lines. induction file_lines as [| l rest IH];
    intros Hall; [reflexivity |].
  apply Forall_cons in Hall as [[Hne _] Hall].
  cbn [map]. rewrite filter_cons_True by exact Hne.
  rewrite IH by exact Hall. reflexivity.
Qed.

Lemma lines_agree (lines : list string) :
  forall hop arrs,
    Forall clean_line lines ->
    Loader.load_lines float_of_string Controller.MAX_DEGREE hop
                      (map Loader.strip lines) (wrap_arrays arrs)
    = match Controller.parse_lines float_of_string hop lines arrs with
      | Some arrs' => inr (wrap_arrays arrs')
      | None => inl Loader.ConversionError
      end.
Proof.
  induction lines as [| l rest IH]; intros hop arrs Hall; [reflexivity |].
  apply Forall_cons in Hall as [(_ & Hfields & Heven & Hmax) Hall].
  cbn [map Loader.load_lines Controller.parse_lines]. cbv zeta.
  unfold Loader.load_line. cbv zeta.
  rewrite (parts_of_clean _ Hfields).
  rewrite (proj2 (Z.eqb_eq _ 0) Heven). cbn [negb].
  destruct (Z.gtb_spec
              (Z.of_nat (length (Loader.split "," (Loader.strip l)) / 2))
              Controller.MAX_DEGREE) as [Hgt | _]; [lia |].
  rewrite fill_degrees_agree.
  destruct (Controller.fill_degrees float_of_string _ hop _ arrs)
    as [arrs1 |]; [| reflexivity].
  cbn [mbind option_bind fmap option_fmap option_map].
  apply IH. exact Hall.
Qed.

End ControllerTables.

(** X26. The switch controller and the decoder read an APA file into the
    same tables up to the 32-bit mask: for a file of clean lines (not
    blank, an even number of non-empty fields without surrounding white
    space, at most 256 pairs) with [num_hops] the number of its lines,
    [load_apa] with [max_degree = 256] returns the arrays of
    [parse_monitored] reduced modulo [2^32], which are the same arrays when
    the controller's values are 32-bit; and the loader raises a conversion
    error exactly when the controller raises. *)
Theorem controller_table_is_loader_table
        (float_of_string : string -> option spec_float)
        (file_lines : list string) (num_hops : Z) :
  num_hops = Z.of_nat (length file_lines) ->
  Forall clean_line file_lines ->
  match Controller.parse_monitored float_of_string num_hops file_lines with
  | Some (a, c) =>
      Decoding.load_apa float_of_string file_lines Controller.MAX_DEGREE
      = inr (Decoding.mkAPA num_hops Controller.MAX_DEGREE
                            (wrap32 <$> a) (wrap32 <$> c)) /\
      (Forall word32 a -> wrap32 <$> a = a) /\
      (Forall word32 c -> wrap32 <$> c = c)
  | None =>
      Decoding.load_apa float_of_string file_lines Controller.MAX_DEGREE
      = inl Loader.ConversionError
  end.
Proof.
  intros Hn Hclean.
  unfold Controller.parse_monitored, Decoding.load_apa, Loader.load_arrays.
  cbv zeta. rewrite (nonblank_lines_clean _ Hclean).
  rewrite length_map, <- Hn.
  set (zeros := replicate (Z.to_nat (num_hops * Controller.MAX_DEGREE)) 0).
  assert (Hz : wrap_arrays (zeros, zeros) = (zeros, zeros)).
  { unfold wrap_arrays, zeros. cbn [fst snd].
    rewrite fmap_replicate. reflexivity. }
  pose proof (lines_agree float_of_string file_lines 0 (zeros, zeros) Hclean)
    as Hagree.
  rewrite Hz in Hagree. rewrite Hagree.
  destruct (Controller.parse_lines float_of_string 0 file_lines (zeros, zeros))
    as [[a c] |]; [| reflexivity].
  split; [reflexivity |].
  assert (Hid : forall l, Forall word32 l -> wrap32 <$> l = l).
  { intros l Hl. induction Hl as [| v l Hv _ IH]; [reflexivity |].
    cbn [fmap list_fmap]. rewrite IH. f_equal.
    unfold wrap32. apply Z.mod_small. exact Hv. }
  split; apply Hid.
Qed.

Lemma controller_table_is_loader_table_witness :
  exists a c,
    Controller.parse_monitored example_float 1 ["0.5,0.25"%string]
    = Some (a, c) /\
    Decoding.load_apa example_float ["0.5,0.25"%string] Controller.MAX_DEGREE
    = inr (Decoding.mkAPA 1 Controller.MAX_DEGREE
                          (wrap32 <$> a) (wrap32 <$> c)).
Proof.
  assert (Hclean : Forall clean_line ["0.5,0.25"%string]).
  { constructor; [| constructor]. unfold clean_line.
    change (Loader.split "," (Loader.strip "0.5,0.25"))
      with ["0.5"%string; "0.25"%string].
    split; [vm_compute; discriminate |].
    split; [| split; [reflexivity | vm_compute; discriminate]].
    constructor; [| constructor; [| constructor]];
      (split; [vm_compute; reflexivity | discriminate]). }
  pose proof (controller_table_is_loader_table example_float
                ["0.5,0.25"%string] 1 eq_refl Hclean) as H.
  assert (E : exists r,
            Controller.parse_monitored example_float 1 ["0.5,0.25"%string]
            = Some r) by (vm_compute; eexists; reflexivity).
  destruct E as [[a c] E]. rewrite E in H.
  exists a, c. split; [exact E | exact (proj1 H)].
Defined.

Section EquationOrder.

Import Solver.

Lemma lead_pivot (k m : nat) (A0 y0 : list Z) (c : nat) (st : elim_state)
      (p : nat) :
  inv k m A0 y0 c st -> lead k st -> (c < k)%nat ->
  find_pivot (A st) c (row st) = Some p ->
  let Ay := eliminate c (row st) m
              (swap (A st) (row st) p, swap (y st) (row st) p) in
  lead k (mkSt Ay.1 Ay.2
               (<[c := Z.of_nat (row st)]> (pivot_row_for_col st))
               (S (row st))).
Proof.
  intros I Hlead Hck Hfind Ay. destruct st as [A1 y1 piv row].
  unfold lead in Hlead.
  cbn [A y pivot_row_for_col Solver.row] in *.
  destruct I as [LA Ly Lp Hrow Hrange Hbit Hinj Hrows Hfree Hhi Hyb Hsat].
  cbn [A y pivot_row_for_col Solver.row] in *.
  apply find_pivot_Some in Hfind as [Hp Hpbit]. rewrite LA in Hp.
  destruct (pivot_step_bits m A1 y1 c row p LA Ly Hp) as (L1 & L2 & Hstep).
  fold Ay in L1, L2, Hstep.
  assert (HB : forall r j, (r < m)%nat ->
            Z.testbit (Ay.1 !!! r) (Z.of_nat j) =
            xorb (Z.testbit (A1 !!! swapped row p r) (Z.of_nat j))
                 (bool_decide (r ≠ row)
                  && Z.testbit (A1 !!! swapped row p r) (Z.of_nat c)
                  && Z.testbit (A1 !!! p) (Z.of_nat j))).
  { intros r j Hr. destruct (Hstep r Hr) as [-> _].
    destruct (bool_decide (r ≠ row) && _); cbn [xorb andb].
    - apply Z.lxor_spec.
    - symmetry. apply xorb_false_r. }
  assert (Hnew : forall j, (j < c)%nat ->
            Z.testbit (A1 !!! p) (Z.of_nat j) = false).
  { intros j Hj. destruct (Hrange j ltac:(lia)) as [Hm1 | (q & Hq & Hqrow & _)].
    - apply Hfree; [exact Hj | lia | exact Hm1 | lia].
    - destruct (Hbit j q ltac:(lia) Hq) as [_ Hclear]. apply Hclear; lia. }
  intros col q j Hcol Hq Hj. cbn [A pivot_row_for_col] in *.
  destruct (decide (col = c)) as [-> | Hne].
  - rewrite list_lookup_total_insert_eq in Hq by lia.
    assert (q = row) by lia. subst q.
    rewrite HB by lia. rewrite swapped_row, (Hnew j Hj).
    rewrite andb_false_r. reflexivity.
  - rewrite list_lookup_total_insert_ne in Hq by congruence.
    destruct (Hrange col Hcol) as [Hm1 | (q' & Hq' & Hqrow & Hcc)]; [lia |].
    assert (q' = q) by lia. subst q'.
    rewrite HB by lia. rewrite swapped_low by lia.
    rewrite (Hlead col q j Hcol Hq Hj), (Hnew j ltac:(lia)).
    rewrite andb_false_r. reflexivity.
Qed.

Lemma gauss_cols_lead (k m : nat) (A0 y0 : list Z) (cols : list nat) :
  forall c st, cols = seq c (k - c) -> (c <= k)%nat ->
    inv k m A0 y0 c st -> lead k st -> lead k (gauss_cols m cols st).
Proof.
  induction cols as [| col rest IH]; intros c st Hcols Hc I Hlead.
  { exact Hlead. }
  destruct (k - c)%nat as [| n] eqn:E; [discriminate |].
  cbn [seq] in Hcols. injection Hcols as -> ->.
  assert (Hrest : seq (S c) n = seq (S c) (k - S c)) by (f_equal; lia).
  cbn [gauss_cols].
  destruct (find_pivot (A st) c (row st)) as [p |] eqn:Hfind.
  - pose proof (inv_pivot k m A0 y0 c st p I ltac:(lia) Hfind) as I'.
    pose proof (lead_pivot k m A0 y0 c st p I Hlead ltac:(lia) Hfind) as L'.
    cbv zeta in I', L' |- *.
    destruct (eliminate c (row st) m _) as [A2 y2].
    cbn [fst snd] in I', L'.
    destruct (decide (S (row st) = m)) as [Hm | Hm]; [exact L' |].
    apply (IH (S c)); [exact Hrest | lia | exact I' | exact L'].
  - apply (IH (S c)); [exact Hrest | lia | | exact Hlead].
    apply inv_skip; assumption.
Qed.

Lemma gauss_lead (k bit : nat) (eqs : list PacketEquation) :
  lead k (gauss (build_masks k eqs) eqs k bit).
Proof.
  unfold gauss.
  apply (gauss_cols_lead k (length eqs) (build_masks k eqs)
           (rhs_bits bit eqs) (seq 0 k) 0).
  - f_equal. lia.
  - lia.
  - apply inv_init.
  - intros col q j Hcol Hq _. cbn [pivot_row_for_col] in Hq.
    rewrite lookup_total_replicate_2 in Hq by exact Hcol. lia.
Qed.

(** a system in terms of its equations, whatever their order *)
Lemma sat_elements (k j : nat) (eqs : list PacketEquation) (x : nat -> bool) :
  sat k (length eqs) x (build_masks k eqs) (rhs_bits j eqs) <->
  forall eq, eq ∈ eqs ->
    dotb k (row_mask k (xor_set eq)) x = Z.testbit (final_pint eq) (Z.of_nat j).
Proof.
  unfold sat. split.
  - intros H eq Hin. apply list_elem_of_lookup in Hin as [r Hr].
    pose proof (lookup_lt_Some _ _ _ Hr) as Hrm.
    specialize (H r Hrm). rewrite rhs_bits_odd in H by exact Hrm.
    unfold build_masks in H. rewrite (list_lookup_total_fmap _ eqs r Hrm) in H.
    rewrite (list_lookup_total_correct _ _ _ Hr) in H. exact H.
  - intros H r Hr. rewrite rhs_bits_odd by exact Hr.
    unfold build_masks. rewrite (list_lookup_total_fmap _ eqs r Hr).
    apply H. apply list_elem_of_lookup. exists r.
    apply list_lookup_lookup_total_lt. exact Hr.
Qed.

Lemma sat_perm (k j : nat) (eqs eqs' : list PacketEquation)
      (x : nat -> bool) :
  eqs ≡ₚ eqs' ->
  sat k (length eqs) x (build_masks k eqs) (rhs_bits j eqs) ->
  sat k (length eqs') x (build_masks k eqs') (rhs_bits j eqs').
Proof.
  intros Hperm H. apply sat_elements. intros eq Hin.
  apply (proj1 (sat_elements k j eqs x) H). rewrite Hperm. exact Hin.
Qed.

Lemma plane_inconsistent_perm (k j : nat) (eqs eqs' : list PacketEquation) :
  eqs ≡ₚ eqs' -> plane_inconsistent k eqs j = plane_inconsistent k eqs' j.
Proof.
  intros Hperm.
  destruct (plane_inconsistent k eqs j) eqn:E, (plane_inconsistent k eqs' j)
    eqn:E'; try reflexivity.
  - apply plane_sound in E'. apply (sat_perm k j eqs' eqs) in E';
      [| symmetry; exact Hperm].
    apply plane_consistent in E'. congruence.
  - apply plane_sound in E. apply (sat_perm k j eqs eqs' _ Hperm) in E.
    apply plane_consistent in E. congruence.
Qed.

(** two solutions that agree above a pivot column agree on it *)
Lemma pivot_column_determined (k m : nat) (A0 y0 : list Z) (c : nat)
      (st : elim_state) (x x' : nat -> bool) (i : nat) :
  inv k m A0 y0 c st -> lead k st ->
  sat k m x A0 y0 -> sat k m x' A0 y0 -> (i < k)%nat ->
  (forall i', (i < i' < k)%nat -> x i' = x' i') ->
  pivot_row_for_col st !!! i ≠ -1 -> x i = x' i.
Proof.
  intros I Hlead Hx Hx' Hi Habove Hpiv.
  destruct (inv_piv_range _ _ _ _ _ _ I i Hi) as [Hm1 | (q & Hq & Hqrow & _)];
    [contradiction |].
  destruct (inv_piv_bit _ _ _ _ _ _ I i q Hi Hq) as [Hset _].
  pose proof (inv_row _ _ _ _ _ _ I) as Hrow.
  apply (inv_sat _ _ _ _ _ _ I) in Hx, Hx'.
  specialize (Hx q ltac:(lia)). specialize (Hx' q ltac:(lia)).
  apply xorb_eq.
  assert (Hd : dotb k (A st !!! q) (fun n => xorb (x n) (x' n)) = false).
  { rewrite dotb_xor_r, Hx, Hx'. apply xorb_nilpotent. }
  rewrite (dotb_single k _ _ i Hi) in Hd.
  - rewrite Hset in Hd. exact Hd.
  - intros n Hn Hne. destruct (decide (n < i)%nat) as [Hlt | Hge].
    + rewrite (Hlead i q n Hi Hq Hlt). reflexivity.
    + rewrite (Habove n ltac:(lia)), xorb_nilpotent. apply andb_false_r.
Qed.

Lemma xplane_perm (k j : nat) (eqs eqs' : list PacketEquation) :
  eqs ≡ₚ eqs' -> plane_inconsistent k eqs j = false ->
  forall i, (i < k)%nat -> xplane k eqs j i = xplane k eqs' j i.
Proof.
  intros Hperm Hcons.
  assert (Hcons' : plane_inconsistent k eqs' j = false)
    by (rewrite <- (plane_inconsistent_perm k j eqs eqs' Hperm); exact Hcons).
  pose proof (plane_sound k j eqs Hcons) as Hx.
  pose proof (plane_sound k j eqs' Hcons') as Hx'.
  pose proof (sat_perm k j eqs eqs' _ Hperm Hx) as Hx2.
  pose proof (sat_perm k j eqs' eqs _ ltac:(symmetry; exact Hperm) Hx')
    as Hx'2.
  destruct (gauss_inv k j eqs) as (c & I & _).
  destruct (gauss_inv k j eqs') as (c' & I' & _).
  cbv zeta in I, I'.
  pose proof (gauss_lead k j eqs) as L.
  pose proof (gauss_lead k j eqs') as L'.
  assert (Hall : forall n, (n <= k)%nat ->
            forall i, (k - n <= i < k)%nat ->
                      xplane k eqs j i = xplane k eqs' j i).
  { induction n as [| n IH]; intros Hn i Hi; [lia |].
    destruct (decide (i = k - S n)%nat) as [-> | Hne];
      [| apply IH; lia].
    assert (Hlt : (k - S n < k)%nat) by lia.
    assert (Habove : forall i', (k - S n < i' < k)%nat ->
              xplane k eqs j i' = xplane k eqs' j i')
      by (intros i' Hi'; apply IH; lia).
    destruct (Z.eq_dec
                (pivot_row_for_col (gauss (build_masks k eqs) eqs k j)
                   !!! (k - S n)%nat) (-1)) as [E | E].
    - destruct (Z.eq_dec
                  (pivot_row_for_col (gauss (build_masks k eqs') eqs' k j)
                     !!! (k - S n)%nat) (-1)) as [E' | E'].
      + unfold xplane, xsol. rewrite E, E'. reflexivity.
      + exact (pivot_column_determined _ _ _ _ _ _ _ _ _ I' L' Hx2 Hx'
                 Hlt Habove E').
    - exact (pivot_column_determined _ _ _ _ _ _ _ _ _ I L Hx Hx'2
               Hlt Habove E). }
  intros i Hi. apply (Hall k); lia.
Qed.

Lemma back_subst_ext (k : nat) (st st' : elim_state) :
  (forall i, (i < k)%nat -> xsol st i = xsol st' i) ->
  back_subst k st = back_subst k st'.
Proof.
  intros H.
  destruct (back_subst_spec k st) as [L1 H1].
  destruct (back_subst_spec k st') as [L2 H2].
  apply (list_eq_same_length _ _ k); [exact L2 | exact L1 |].
  intros i v v' Hi Hv Hv'.
  apply list_lookup_total_correct in Hv, Hv'. subst v v'.
  rewrite H1, H2, H by exact Hi. reflexivity.
Qed.

Lemma solve_bits_perm (k : nat) (eqs eqs' : list PacketEquation)
      (bits : list nat) :
  eqs ≡ₚ eqs' ->
  forall ids,
    solve_bits (build_masks k eqs) eqs k bits ids
    = solve_bits (build_masks k eqs') eqs' k bits ids.
Proof.
  intros Hperm. induction bits as [| bit rest IH]; intros ids; [reflexivity |].
  cbn [solve_bits]. cbv zeta.
  fold (plane_inconsistent k eqs bit). fold (plane_inconsistent k eqs' bit).
  rewrite <- (plane_inconsistent_perm k bit eqs eqs' Hperm).
  destruct (plane_inconsistent k eqs bit) eqn:E; [reflexivity |].
  rewrite (back_subst_ext k (gauss (build_masks k eqs) eqs k bit)
             (gauss (build_masks k eqs') eqs' k bit)).
  - apply IH.
  - intros i Hi. apply (xplane_perm k bit eqs eqs' Hperm E i Hi).
Qed.

End EquationOrder.

(** X27. The result of [solve_switch_ids] does not depend on the order of
    the equations: for a permutation of the list it returns the same
    vector, or fails with the same warning. *)
Theorem solve_ignores_equation_order (eqs eqs' : list PacketEquation)
        (num_hops id_bits : nat) :
  eqs ≡ₚ eqs' ->
  Solver.solve_switch_ids_report eqs num_hops id_bits
  = Solver.solve_switch_ids_report eqs' num_hops id_bits /\
  Solver.solve_switch_ids eqs num_hops id_bits
  = Solver.solve_switch_ids eqs' num_hops id_bits.
Proof.
  intros Hperm.
  assert (E : Solver.solve_switch_ids_report eqs num_hops id_bits
              = Solver.solve_switch_ids_report eqs' num_hops id_bits).
  { unfold Solver.solve_switch_ids_report. cbv zeta.
    rewrite (Permutation_length Hperm).
    destruct (decide (length eqs' = 0%nat)); [reflexivity |].
    apply solve_bits_perm. exact Hperm. }
  split; [exact E |]. unfold Solver.solve_switch_ids. rewrite E. reflexivity.
Qed.

Lemma solve_ignores_equation_order_witness :
  Solver.solve_switch_ids
    [mkEq 0 0x444C {[0; 1]}; mkEq 1 0x5678 {[1]}] 2 16
  = Solver.solve_switch_ids
      [mkEq 1 0x5678 {[1]}; mkEq 0 0x444C {[0; 1]}] 2 16.
Proof.
  apply solve_ignores_equation_order. apply Permutation_swap.
Defined.
